(** * logs_app: the query / PII / cache / alert pipeline of [logtool/proxy/server.js]

    A shallow embedding of the policy pipeline of the log-search proxy
    and the properties its specification states about it (Part II),
    followed by properties of the cache, the masking, the metrics, the
    alert scheduler, the handlers and the login tokens that the code
    itself shows (Part III).

    Conventions of the embedding.
    - A JavaScript string is a [string]: a sequence of code units, each
      read as one character below 256.
    - A parsed JSON document is a [json] tree; an object keeps its
      entries in enumeration order as an association list.  JSON
      numbers are the integral ones, carried as [Z].
    - [undefined] is [None] of an [option].
    - Objects used as dictionaries ([featureToggles.teams],
      [appConfig.userIndexAccess], [metrics.hourlyQueries], ...) are
      finite maps; keys are assumed not to name members of
      [Object.prototype].
    - Time is the number of milliseconds since the epoch.  The local
      time of the server is UTC plus [zone] milliseconds; the offset is
      read where the code uses the local-time methods of [Date], and it
      is the same for the hours one such computation visits.
    - Writing a snapshot to disk ([saveJson]) and writing to the
      access and error logs leave the state of the pipeline as it is
      and are left out. *)

From Stdlib Require Import ZArith Ascii String Bool Lia.
From Stdlib Require Import DecimalString.
From stdpp Require Import base option list gmap strings.

Local Open Scope Z_scope.

(* ================================================================== *)
(** * Part I: the embedding                                           *)
(* ================================================================== *)

(** ** Strings *)

Module Str.

Definition is_empty (s : string) : bool :=
  match s with EmptyString => true | String _ _ => false end.

(** [Array.prototype.join]. *)
Fixpoint join (sep : string) (parts : list string) : string :=
  match parts with
  | [] => EmptyString
  | [p] => p
  | p :: rest => p +:+ sep +:+ join sep rest
  end.

(** [String.prototype.split] on a one-character separator: the first
    piece and the remaining ones. *)
Fixpoint split_on (c : ascii) (s : string) : string * list string :=
  match s with
  | EmptyString => (EmptyString, [])
  | String a s' =>
      let '(h, t) := split_on c s' in
      if Ascii.eqb a c then (EmptyString, h :: t) else (String a h, t)
  end.

Definition split (c : ascii) (s : string) : list string :=
  let '(h, t) := split_on c s in h :: t.

(** White space and line terminators removed by [trim]. *)
Definition is_space (c : ascii) : bool :=
  let n := nat_of_ascii c in
  ((9 <=? n)%nat && (n <=? 13)%nat) || (n =? 32)%nat || (n =? 160)%nat.

Fixpoint trimStart (s : string) : string :=
  match s with
  | EmptyString => EmptyString
  | String c s' => if is_space c then trimStart s' else s
  end.

Fixpoint trimEnd (s : string) : string :=
  match s with
  | EmptyString => EmptyString
  | String c s' =>
      let t := trimEnd s' in
      if is_space c && is_empty t then EmptyString else String c t
  end.

Definition trim (s : string) : string := trimEnd (trimStart s).

Fixpoint repeat (c : ascii) (n : nat) : string :=
  match n with
  | O => EmptyString
  | S k => String c (repeat c k)
  end.

(** [s.slice(0, n)] and [s.slice(n)] for [0 <= n]. *)
Fixpoint take (n : nat) (s : string) : string :=
  match n, s with
  | S k, String c s' => String c (take k s')
  | _, _ => EmptyString
  end.

Fixpoint drop (n : nat) (s : string) : string :=
  match n, s with
  | S k, String _ s' => drop k s'
  | _, _ => s
  end.

(** [s.slice(-n)]: the last [n] code units (all of [s] when shorter). *)
Definition takeLast (n : nat) (s : string) : string :=
  drop (String.length s - n)%nat s.

(** Decimal digits of a natural number, as [String(n)] prints them. *)
Definition of_N (n : N) : string := NilZero.string_of_uint (N.to_uint n).
Definition of_nat (n : nat) : string := of_N (N.of_nat n).

(** [String(z)] for an integral number. *)
Definition of_Z (z : Z) : string :=
  if z <? 0 then "-" +:+ of_N (Z.abs_N z) else of_N (Z.to_N z).

(** Decimal digits left-padded with zeros to [w] places. *)
Definition pad (w : nat) (n : Z) : string :=
  let d := of_N (Z.to_N n) in
  repeat "0"%char (w - String.length d)%nat +:+ d.

End Str.

(** ** JSON values *)

#[local] Unset Elimination Schemes.

Inductive json : Type :=
| JNull
| JBool (b : bool)
| JNum (n : Z)
| JStr (s : string)
| JArr (items : list json)
| JObj (entries : list (string * json)).

#[local] Set Elimination Schemes.

Module Json.

(** Property read [o[k]]: the entry stored under [k], [undefined]
    when there is none or when [o] holds no entries. *)
Fixpoint assoc (k : string) (entries : list (string * json)) : option json :=
  match entries with
  | [] => None
  | (k', v) :: rest => if String.eqb k k' then Some v else assoc k rest
  end.

Definition get (k : string) (v : json) : option json :=
  match v with
  | JObj entries => assoc k entries
  | _ => None
  end.

(** Property write [o[k] = v] on a plain object: an existing key keeps
    its place, a new key goes last. *)
Fixpoint set (k : string) (v : json) (entries : list (string * json))
  : list (string * json) :=
  match entries with
  | [] => [(k, v)]
  | (k', v') :: rest =>
      if String.eqb k k' then (k, v) :: rest else (k', v') :: set k v rest
  end.

Fixpoint indexed_from {A : Type} (i : nat) (xs : list A) : list (string * A) :=
  match xs with
  | [] => []
  | x :: rest => (Str.of_nat i, x) :: indexed_from (S i) rest
  end.

Fixpoint chars (s : string) : list json :=
  match s with
  | EmptyString => []
  | String c s' => JStr (String c EmptyString) :: chars s'
  end.

(** Computed property read [v[k]] on a value that is neither [null]
    nor [undefined]: own entries, and [length] of arrays and strings. *)
Definition prop (k : string) (v : json) : option json :=
  match v with
  | JObj entries => assoc k entries
  | JArr items =>
      if String.eqb k "length" then Some (JNum (Z.of_nat (length items)))
      else assoc k (indexed_from 0 items)
  | JStr s =>
      if String.eqb k "length" then Some (JNum (Z.of_nat (String.length s)))
      else assoc k (indexed_from 0 (chars s))
  | _ => None
  end.

(** ToBoolean. *)
Definition truthy (v : json) : bool :=
  match v with
  | JNull => false
  | JBool b => b
  | JNum n => negb (n =? 0)
  | JStr s => negb (Str.is_empty s)
  | JArr _ | JObj _ => true
  end.

Definition truthy_opt (v : option json) : bool :=
  match v with Some x => truthy x | None => false end.

(** [typeof v === 'object'] for a value that is not [undefined]
    ([typeof null] is ['object'] too). *)
Definition typeof_object (v : json) : bool :=
  match v with
  | JNull | JArr _ | JObj _ => true
  | _ => false
  end.

Definition isArray (v : json) : bool :=
  match v with JArr _ => true | _ => false end.

(** The own enumerable properties copied by an object spread
    [{...v}]. *)
Definition spread (v : json) : list (string * json) :=
  match v with
  | JObj entries => entries
  | JArr items => indexed_from 0 items
  | JStr s => indexed_from 0 (chars s)
  | _ => []
  end.

(** [String(v)]. *)
Fixpoint toString (v : json) : string :=
  match v with
  | JNull => "null"
  | JBool true => "true"
  | JBool false => "false"
  | JNum n => Str.of_Z n
  | JStr s => s
  | JArr items =>
      Str.join ","
        (map (fun x => match x with JNull => EmptyString | _ => toString x end) items)
  | JObj _ => "[object Object]"
  end.

(** *** [JSON.stringify] *)

Definition dquote_char : ascii := ascii_of_nat 34.

Definition hex_digit (n : nat) : ascii :=
  ascii_of_nat (if (n <? 10)%nat then 48 + n else 87 + n)%nat.

(** QuoteJSONString on one code unit. *)
Definition escape_char (c : ascii) : string :=
  let n := nat_of_ascii c in
  if (n =? 8)%nat then "\b"
  else if (n =? 9)%nat then "\t"
  else if (n =? 10)%nat then "\n"
  else if (n =? 12)%nat then "\f"
  else if (n =? 13)%nat then "\r"
  else if (n =? 34)%nat then String "\"%char (String dquote_char EmptyString)
  else if (n =? 92)%nat then "\\"
  else if (n <? 32)%nat then
    "\u00" +:+ String (hex_digit (n / 16)) (String (hex_digit (n mod 16)) EmptyString)
  else String c EmptyString.

Fixpoint escape (s : string) : string :=
  match s with
  | EmptyString => EmptyString
  | String c s' => escape_char c +:+ escape s'
  end.

Definition dquote : string := String dquote_char EmptyString.

Definition quote (s : string) : string := dquote +:+ escape s +:+ dquote.

Fixpoint stringify (v : json) : string :=
  match v with
  | JNull => "null"
  | JBool true => "true"
  | JBool false => "false"
  | JNum n => Str.of_Z n
  | JStr s => quote s
  | JArr items => "[" +:+ Str.join "," (map stringify items) +:+ "]"
  | JObj entries =>
      "{" +:+
      Str.join "," (map (fun '(k, x) => quote k +:+ ":" +:+ stringify x) entries)
      +:+ "}"
  end.

End Json.

(** ** Wildcard patterns ([escapeRegex], [wildcardToRegex]) *)

(** The regular expressions the server builds all have the shape
    [^s0.*s1.* ... .*sn$], where [s0 ... sn] are the pieces of the
    pattern between its stars, each escaped by [escapeRegex].  A
    compiled expression of this shape is a sequence of literal
    characters and [.*] items, anchored at both ends. *)
Module Regex.

Inductive item : Type :=
| Lit (c : ascii)
| AnyStar.

Definition t : Type := list item.

Fixpoint literal (s : string) : t :=
  match s with
  | EmptyString => []
  | String c s' => Lit c :: literal s'
  end.

(** [pieces.map(escapeRegex).join('.*')] *)
Fixpoint join_any (pieces : list string) : t :=
  match pieces with
  | [] => []
  | [p] => literal p
  | p :: rest => literal p ++ AnyStar :: join_any rest
  end.

(** [.] matches every code unit but a line terminator. *)
Definition is_line_terminator (c : ascii) : bool :=
  let n := nat_of_ascii c in (n =? 10)%nat || (n =? 13)%nat.

(** [regex.test(s)] for the anchored expression [^r$]. *)
Fixpoint test (r : t) (s : string) : bool :=
  match r with
  | [] => Str.is_empty s
  | Lit c :: r' =>
      match s with
      | String a s' => Ascii.eqb a c && test r' s'
      | EmptyString => false
      end
  | AnyStar :: r' =>
      (fix star (s : string) : bool :=
         test r' s ||
         match s with
         | String a s' => negb (is_line_terminator a) && star s'
         | EmptyString => false
         end) s
  end.

(** The characters of the class [[.*+?^${}()|[\]\\]]. *)
Definition is_meta (c : ascii) : bool :=
  existsb (Ascii.eqb c)
    ["."; "*"; "+"; "?"; "^"; "$"; "{"; "}"; "("; ")"; "|"; "["; "]"; "\"]%char.

(** [new RegExp(source)] for a source of the shape above, after the
    leading [^]: an escaped metacharacter and a plain character are
    literals, [.*] is a gap, [$] ends the expression.  Any other source
    is not of this shape. *)
Fixpoint compile (source : string) : option t :=
  match source with
  | EmptyString => None
  | String c rest =>
      if Ascii.eqb c "\" then
        match rest with
        | String e rest' =>
            if is_meta e then option_map (cons (Lit e)) (compile rest') else None
        | EmptyString => None
        end
      else if Ascii.eqb c "." then
        match rest with
        | String e rest' =>
            if Ascii.eqb e "*" then option_map (cons AnyStar) (compile rest') else None
        | EmptyString => None
        end
      else if Ascii.eqb c "$" then
        if Str.is_empty rest then Some [] else None
      else if is_meta c then None
      else option_map (cons (Lit c)) (compile rest)
  end.

Definition RegExp (source : string) : option t :=
  match source with
  | String c body => if Ascii.eqb c "^" then compile body else None
  | EmptyString => None
  end.

End Regex.

(** [input.replace(/[.*+?^${}()|[\]\\]/g, '\\$&')] *)
Fixpoint escapeRegex (input : string) : string :=
  match input with
  | EmptyString => EmptyString
  | String c rest =>
      if Regex.is_meta c then String "\" (String c (escapeRegex rest))
      else String c (escapeRegex rest)
  end.

(** The source text [`^${pattern.split('*').map(escapeRegex).join('.*')}$`]. *)
Definition wildcardSource (pattern : string) : string :=
  "^" +:+ Str.join ".*" (map escapeRegex (Str.split "*" pattern)) +:+ "$".

(** [wildcardToRegex]: the expression compiled from [wildcardSource]
    (see [wildcardToRegex_compiles]). *)
Definition wildcardToRegex (pattern : string) : Regex.t :=
  Regex.join_any (Str.split "*" pattern).

(** ** Caller identity and policy snapshot *)

Inductive Role : Type := viewer | editor | admin.

Module User.
Record t : Type := mk {
  id : string;
  username : string;
  role : Role;
  teams : list string
}.
End User.

Definition is_admin (u : User.t) : bool :=
  match User.role u with admin => true | _ => false end.

Module Features.
Record t : Type := mk {
  exports : bool;
  bookmarks : bool;
  rules : bool;
  queryBuilder : bool;
  limitTo7Days : bool;
  piiUnmasked : bool;
  showFullResults : bool
}.
End Features.

Inductive PiiAction : Type := hide | mask | partial.

Module PiiRule.
Record t : Type := mk { pattern : string; action : PiiAction }.
End PiiRule.

Module IndexPatternSetting.
Record t : Type := mk { pattern : string; timeField : string }.
End IndexPatternSetting.

(** The fields of [appConfig] the pipeline reads, as [normalizeConfig]
    leaves them. *)
Module AppConfig.
Record t : Type := mk {
  defaultIndexPattern : string;
  indexPatternSettings : list IndexPatternSetting.t;
  maxExportSize : Z;
  teamIndexAccess : gmap string (list string);
  userIndexAccess : gmap string (list string);
  piiFieldRules : list PiiRule.t;
  smtpHost : string;
  smtpPort : Z;
  smtpUser : string;
  smtpPass : string;
  alertEmailTo : string;
  alertEmailFrom : string
}.
End AppConfig.

(** ** Feature toggles ([getTeamToggle], [getUserFeatures]) *)

Definition authEnabled (users : list User.t) : bool :=
  match users with [] => false | _ :: _ => true end.

Definition permissive : Features.t :=
  Features.mk true true true true false false false.

Definition getTeamToggle (featureToggles : gmap string Features.t) (team : string)
  : Features.t :=
  if Str.is_empty team then permissive
  else match featureToggles !! team with
       | Some t => t
       | None => permissive
       end.

Definition getUserFeatures (users : list User.t)
    (featureToggles : gmap string Features.t) (user : option User.t) : Features.t :=
  if negb (authEnabled users) then permissive
  else
    let defaults := Features.mk false false false false false false false in
    match user with
    | None => defaults
    | Some u =>
        fold_left
          (fun acc team =>
             let t := getTeamToggle featureToggles team in
             Features.mk
               (Features.exports acc || Features.exports t)
               (Features.bookmarks acc || Features.bookmarks t)
               (Features.rules acc || Features.rules t)
               (Features.queryBuilder acc || Features.queryBuilder t)
               (Features.limitTo7Days acc || Features.limitTo7Days t)
               (Features.piiUnmasked acc || Features.piiUnmasked t)
               (Features.showFullResults acc || Features.showFullResults t))
          (User.teams u) defaults
    end.

(** ** Index access ([getAllowedIndexPatterns], [isIndexPatternAllowed]) *)

Definition getAllowedIndexPatterns (appConfig : AppConfig.t) (user : option User.t)
  : list string :=
  match user with
  | None => []
  | Some u =>
      if is_admin u then []
      else
        let username := Str.trim (User.username u) in
        let own := default [] (AppConfig.userIndexAccess appConfig !! username) in
        if negb (Str.is_empty username) && negb (bool_decide (own = [])) then own
        else
          flat_map
            (fun team => default [] (AppConfig.teamIndexAccess appConfig !! team))
            (User.teams u)
  end.

Definition isIndexPatternAllowed (appConfig : AppConfig.t) (user : option User.t)
    (indexPattern : string) : bool :=
  match user with
  | None => true
  | Some u =>
      if is_admin u then true
      else
        let allowed := getAllowedIndexPatterns appConfig user in
        if bool_decide (allowed = []) then true
        else existsb (fun pattern => Regex.test (wildcardToRegex pattern) indexPattern)
               allowed
  end.

(** ** PII masking ([buildPiiMatchers] ... [maskSearchResponse]) *)

Module PiiMatcher.
Record t : Type := mk { pattern : string; action : PiiAction; regex : Regex.t }.
End PiiMatcher.

Definition buildPiiMatchers (rules : list PiiRule.t) : list PiiMatcher.t :=
  omap
    (fun rule =>
       let pattern := Str.trim (PiiRule.pattern rule) in
       if Str.is_empty pattern then None
       else Some (PiiMatcher.mk pattern (PiiRule.action rule) (wildcardToRegex pattern)))
    rules.

(** The loop of [getPiiAction], started with the value of [action]. *)
Fixpoint getPiiAction_from (action : option PiiAction) (path : string)
    (matchers : list PiiMatcher.t) : option PiiAction :=
  match matchers with
  | [] => action
  | matcher :: rest =>
      if Regex.test (PiiMatcher.regex matcher) path then
        match PiiMatcher.action matcher with
        | hide => Some hide
        | mask => getPiiAction_from (Some mask) path rest
        | partial =>
            match action with
            | Some mask => getPiiAction_from action path rest
            | _ => getPiiAction_from (Some partial) path rest
            end
        end
      else getPiiAction_from action path rest
  end.

Definition getPiiAction (path : string) (matchers : list PiiMatcher.t)
  : option PiiAction :=
  getPiiAction_from None path matchers.

Definition masked : string := "[masked]".

Definition char_at (i : nat) (s : string) : string :=
  match String.get i s with
  | Some c => String c EmptyString
  | None => "undefined"
  end.

(** The body of [partialMaskValue] after [raw = String(value)]. *)
Definition partialMaskString (raw : string) : string :=
  let n := String.length raw in
  if (n =? 0)%nat then EmptyString
  else if (n <=? 2)%nat then Str.repeat "*"%char n
  else if (n <=? 4)%nat then char_at 0 raw +:+ "***" +:+ char_at (n - 1) raw
  else Str.take 2 raw +:+ "***" +:+ Str.takeLast 2 raw.

Definition partialMaskValue (value : json) : json :=
  match value with
  | JNull => JNull
  | JArr _ | JObj _ => JStr masked
  | _ => JStr (partialMaskString (Json.toString value))
  end.

(** [path ? `${path}.${key}` : key] *)
Definition childPath (path key : string) : string :=
  if Str.is_empty path then key else path +:+ "." +:+ key.

(** [applyPiiRules]; [None] is the marker [REMOVE_FIELD]. *)
Fixpoint applyPiiRules (value : json) (path : string) (matchers : list PiiMatcher.t)
  : option json :=
  match getPiiAction path matchers with
  | Some hide => None
  | Some mask => Some (JStr masked)
  | Some partial => Some (partialMaskValue value)
  | None =>
      match value with
      | JArr items =>
          Some (JArr
            ((fix each (items : list json) (idx : nat) : list json :=
                match items with
                | [] => []
                | item :: rest =>
                    match applyPiiRules item (childPath path (Str.of_nat idx)) matchers with
                    | Some res => res :: each rest (S idx)
                    | None => each rest (S idx)
                    end
                end) items O))
      | JObj entries =>
          Some (JObj
            ((fix each (entries : list (string * json)) : list (string * json) :=
                match entries with
                | [] => []
                | (key, val) :: rest =>
                    match applyPiiRules val (childPath path key) matchers with
                    | Some res => (key, res) :: each rest
                    | None => each rest
                    end
                end) entries))
      | _ => Some value
      end
  end.

(** The two inner loops of [applyPiiRules] as functions of their own. *)
Fixpoint maskItems (path : string) (matchers : list PiiMatcher.t)
    (items : list json) (idx : nat) : list json :=
  match items with
  | [] => []
  | item :: rest =>
      match applyPiiRules item (childPath path (Str.of_nat idx)) matchers with
      | Some res => res :: maskItems path matchers rest (S idx)
      | None => maskItems path matchers rest (S idx)
      end
  end.

Fixpoint maskEntries (path : string) (matchers : list PiiMatcher.t)
    (entries : list (string * json)) : list (string * json) :=
  match entries with
  | [] => []
  | (key, val) :: rest =>
      match applyPiiRules val (childPath path key) matchers with
      | Some res => (key, res) :: maskEntries path matchers rest
      | None => maskEntries path matchers rest
      end
  end.

(** One hit of [applyPiiRulesToHits]: only [_source] is rewritten. *)
Definition maskHit (matchers : list PiiMatcher.t) (hit : json) : json :=
  match hit with
  | JObj entries =>
      match Json.assoc "_source" entries with
      | Some source =>
          if Json.truthy source then
            JObj (Json.set "_source"
                    (default (JObj []) (applyPiiRules source EmptyString matchers))
                    entries)
          else hit
      | None => hit
      end
  | _ => hit
  end.

Definition applyPiiRulesToHits (hits : list json) (rules : list PiiRule.t) : list json :=
  match hits with
  | [] => hits
  | _ =>
      let matchers := buildPiiMatchers rules in
      match matchers with
      | [] => hits
      | _ => map (maskHit matchers) hits
      end
  end.

Definition maskSearchResponse (data : json) (rules : list PiiRule.t) : json :=
  match Json.get "hits" data with
  | Some (JObj hitsObj) =>
      match Json.assoc "hits" hitsObj with
      | Some (JArr hits) =>
          JObj (Json.set "hits"
                  (JObj (Json.set "hits" (JArr (applyPiiRulesToHits hits rules)) hitsObj))
                  (Json.spread data))
      | _ => data
      end
  | _ => data
  end.

(** ** Time ([Date.now], [toISOString], [getTodayKey], [getHourKey]) *)

Module Time.

Definition second : Z := 1000.
Definition minute : Z := 60 * 1000.
Definition hour : Z := 60 * 60 * 1000.
Definition day : Z := 24 * 60 * 60 * 1000.

(** Year, month and day of the month of a day number counted from
    1970-01-01, in the proleptic Gregorian calendar. *)
Definition civil_from_days (days : Z) : Z * Z * Z :=
  let z := days + 719468 in
  let era := z / 146097 in
  let doe := z - era * 146097 in
  let yoe := (doe - doe / 1460 + doe / 36524 - doe / 146096) / 365 in
  let doy := doe - (365 * yoe + yoe / 4 - yoe / 100) in
  let mp := (5 * doy + 2) / 153 in
  let d := doy - (153 * mp + 2) / 5 + 1 in
  let m := if mp <? 10 then mp + 3 else mp - 9 in
  let y := yoe + era * 400 + (if m <=? 2 then 1 else 0) in
  (y, m, d).

Definition year_string (y : Z) : string :=
  if (0 <=? y) && (y <=? 9999) then Str.pad 4 y
  else (if y <? 0 then "-" else "+") +:+ Str.pad 6 (Z.abs y).

(** [new Date(t).toISOString()] *)
Definition toISOString (t : Z) : string :=
  let '(y, m, d) := civil_from_days (t / day) in
  let r := t mod day in
  year_string y +:+ "-" +:+ Str.pad 2 m +:+ "-" +:+ Str.pad 2 d +:+ "T" +:+
  Str.pad 2 (r / hour) +:+ ":" +:+ Str.pad 2 ((r / minute) mod 60) +:+ ":" +:+
  Str.pad 2 ((r / second) mod 60) +:+ "." +:+ Str.pad 3 (r mod 1000) +:+ "Z".

End Time.

Definition getTodayKey (now : Z) : string := Str.take 10 (Time.toISOString now).

Definition getHourKey (date : Z) : string := Str.take 13 (Time.toISOString date).

(** [d.setMinutes(0, 0, 0)] on a copy of [now]: the minutes, seconds
    and milliseconds of the local time are cleared, so the time goes
    back to the start of the local hour.  [d.setHours(d.getHours() - i)]
    then goes [i] hours further back. *)
Definition startOfLocalHour (zone now : Z) : Z := now - (now + zone) mod Time.hour.

(** ** Query rewriting ([getIndexTimeFields] ... [applyRecentOnlyFilterToQuery]) *)

Definition getIndexTimeFields (appConfig : AppConfig.t) (indexPattern : string)
  : list string :=
  match
    find (fun entry => String.eqb (IndexPatternSetting.pattern entry) indexPattern)
      (AppConfig.indexPatternSettings appConfig)
  with
  | Some setting =>
      if negb (Str.is_empty (IndexPatternSetting.timeField setting))
      then [IndexPatternSetting.timeField setting; "timestamp"; "@timestamp"]
      else ["timestamp"; "@timestamp"]
  | None => ["timestamp"; "@timestamp"]
  end.

Definition getRecentCutoffIso (now : Z) : string :=
  let graceMs := 5 * 60 * 1000 in
  Time.toISOString (now - 7 * 24 * 60 * 60 * 1000 - graceMs).

Definition buildRecentOnlyFilter (appConfig : AppConfig.t) (now : Z)
    (indexPattern : string) : json :=
  let cutoff := getRecentCutoffIso now in
  let fields := getIndexTimeFields appConfig indexPattern in
  let rangeFor (field : string) :=
    JObj [("range",
           JObj [(field,
                  JObj [("gte", JStr cutoff);
                        ("format", JStr "strict_date_optional_time")])])] in
  match fields with
  | [field] => rangeFor field
  | _ =>
      JObj [("bool",
             JObj [("should", JArr (map rangeFor fields));
                   ("minimum_should_match", JNum 1)])]
  end.

Definition applyRecentOnlyFilterToQuery (appConfig : AppConfig.t) (now : Z)
    (query : option json) (indexPattern : string) : json :=
  let recentFilter := buildRecentOnlyFilter appConfig now indexPattern in
  let onlyFilter := JObj [("bool", JObj [("filter", JArr [recentFilter])])] in
  match query with
  | None => onlyFilter
  | Some q =>
      if negb (Json.truthy q) || negb (Json.typeof_object q) then onlyFilter
      else
        let wrapped :=
          JObj [("bool", JObj [("must", JArr [q]); ("filter", JArr [recentFilter])])] in
        match Json.get "bool" q with
        | Some b =>
            if Json.truthy b && Json.typeof_object b then
              let nextBool := Json.spread b in
              let filter' :=
                match Json.assoc "filter" nextBool with
                | Some (JArr fs) => JArr (fs ++ [recentFilter])
                | Some f =>
                    if Json.truthy f then JArr [f; recentFilter]
                    else JArr [recentFilter]
                | None => JArr [recentFilter]
                end in
              JObj (Json.set "bool" (JObj (Json.set "filter" filter' nextBool))
                      (Json.spread q))
            else wrapped
        | None => wrapped
        end
  end.

(** ** Response cache ([getCacheKey], [cacheGet], [cacheSet]) *)

Definition getCacheKey (parts : list string) : string := Str.join "|" parts.

(** [responseCache] is a [Map]: its entries are kept in insertion order,
    and writing an existing key keeps the key where it is. *)
Module Cache.

Record entry : Type := mk { value : json; expiresAt : Z }.

Definition t : Type := list (string * entry).

Fixpoint get (key : string) (c : t) : option entry :=
  match c with
  | [] => None
  | (k, e) :: rest => if String.eqb key k then Some e else get key rest
  end.

Fixpoint set (key : string) (e : entry) (c : t) : t :=
  match c with
  | [] => [(key, e)]
  | (k, e') :: rest =>
      if String.eqb key k then (k, e) :: rest else (k, e') :: set key e rest
  end.

Fixpoint delete (key : string) (c : t) : t :=
  match c with
  | [] => []
  | (k, e) :: rest => if String.eqb key k then rest else (k, e) :: delete key rest
  end.

End Cache.

Section ResponseCache.

Variables CACHE_TTL_MS CACHE_MAX_ENTRIES : Z.

Definition cacheGet (now : Z) (key : string) (responseCache : Cache.t)
  : option json * Cache.t :=
  if CACHE_TTL_MS =? 0 then (None, responseCache)
  else
    match Cache.get key responseCache with
    | None => (None, responseCache)
    | Some entry =>
        if Cache.expiresAt entry <? now
        then (None, Cache.delete key responseCache)
        else (Some (Cache.value entry), responseCache)
    end.

Definition cacheSet (now : Z) (key : string) (value : json)
    (responseCache : Cache.t) : Cache.t :=
  if CACHE_TTL_MS =? 0 then responseCache
  else
    let c := Cache.set key (Cache.mk value (now + CACHE_TTL_MS)) responseCache in
    if CACHE_MAX_ENTRIES <? Z.of_nat (length c) then
      match c with
      | (oldestKey, _) :: _ => Cache.delete oldestKey c
      | [] => c
      end
    else c.

End ResponseCache.

(** ** Metrics ([logActivity], [recordSearch], [recordExport]) *)

Module Day.
Record t : Type := mk {
  searches : Z;
  exports : Z;
  queries : gmap string Z;
  ips : gmap string Z;
  users : gmap string Z;
  exportsByFormat : gmap string Z
}.
Definition empty : t := mk 0 0 ∅ ∅ ∅ ∅.
End Day.

Module HourTotals.
Record t : Type := mk { searches : Z; exports : Z }.
Definition empty : t := mk 0 0.
End HourTotals.

Module Activity.
Record t : Type := mk {
  time : string;
  type : string;
  query : string;
  format : string;
  size : Z;
  indexPattern : string;
  user : string;
  ip : string;
  message : string
}.
End Activity.

Module Metrics.
Record t : Type := mk {
  byDate : gmap string Day.t;
  hourlyQueries : gmap string (gmap string Z);
  hourlyTotals : gmap string HourTotals.t;
  activity : list Activity.t
}.
End Metrics.

(** [s || fallback] on strings. *)
Definition or_else (s fallback : string) : string :=
  if Str.is_empty s then fallback else s.

(** [counts[k] = (counts[k] || 0) + 1] *)
Definition bump (k : string) (counts : gmap string Z) : gmap string Z :=
  <[k := default 0 (counts !! k) + 1]> counts.

(** [logActivity(type, meta)]; the fields of [meta] that the caller
    leaves out are passed empty. *)
Definition logActivity (now : Z) (type : string) (meta : Activity.t)
    (metrics : Metrics.t) : Metrics.t :=
  let entry :=
    Activity.mk (Time.toISOString now) type
      (Activity.query meta) (Activity.format meta) (Activity.size meta)
      (Activity.indexPattern meta) (or_else (Activity.user meta) "public")
      (Activity.ip meta) (Activity.message meta) in
  Metrics.mk (Metrics.byDate metrics) (Metrics.hourlyQueries metrics)
    (Metrics.hourlyTotals metrics)
    (take 500 (entry :: Metrics.activity metrics)).

Definition recordSearch (now : Z) (query ip indexPattern user : string)
    (metrics : Metrics.t) : Metrics.t :=
  let dayKey := getTodayKey now in
  let hourKey := getHourKey now in
  let day := default Day.empty (Metrics.byDate metrics !! dayKey) in
  let q := or_else query "(match_all)" in
  let userKey := or_else user "public" in
  let day' :=
    Day.mk (Day.searches day + 1) (Day.exports day)
      (bump q (Day.queries day))
      (if Str.is_empty ip then Day.ips day else bump ip (Day.ips day))
      (bump userKey (Day.users day))
      (Day.exportsByFormat day) in
  let hq := default ∅ (Metrics.hourlyQueries metrics !! hourKey) in
  let ht := default HourTotals.empty (Metrics.hourlyTotals metrics !! hourKey) in
  let metrics' :=
    Metrics.mk
      (<[dayKey := day']> (Metrics.byDate metrics))
      (<[hourKey := bump q hq]> (Metrics.hourlyQueries metrics))
      (<[hourKey := HourTotals.mk (HourTotals.searches ht + 1) (HourTotals.exports ht)]>
         (Metrics.hourlyTotals metrics))
      (Metrics.activity metrics) in
  logActivity now "search"
    (Activity.mk EmptyString EmptyString q EmptyString 0 indexPattern
       (or_else user "public") ip EmptyString)
    metrics'.

Definition recordExport (now : Z) (format ip indexPattern : string) (size : Z)
    (query user : string) (metrics : Metrics.t) : Metrics.t :=
  let dayKey := getTodayKey now in
  let day := default Day.empty (Metrics.byDate metrics !! dayKey) in
  let userKey := or_else user "public" in
  let day' :=
    Day.mk (Day.searches day) (Day.exports day + 1)
      (Day.queries day)
      (if Str.is_empty ip then Day.ips day else bump ip (Day.ips day))
      (bump userKey (Day.users day))
      (bump format (Day.exportsByFormat day)) in
  let hourKey := getHourKey now in
  let ht := default HourTotals.empty (Metrics.hourlyTotals metrics !! hourKey) in
  let metrics' :=
    Metrics.mk
      (<[dayKey := day']> (Metrics.byDate metrics))
      (Metrics.hourlyQueries metrics)
      (<[hourKey := HourTotals.mk (HourTotals.searches ht) (HourTotals.exports ht + 1)]>
         (Metrics.hourlyTotals metrics))
      (Metrics.activity metrics) in
  logActivity now "export"
    (Activity.mk EmptyString EmptyString query format size indexPattern
       (or_else user "public") ip EmptyString)
    metrics'.

(** [body.query_string.query] when [query_string] is set and its
    [query] is a string. *)
Definition queryStringOf (entries : list (string * json)) : option string :=
  match Json.assoc "query_string" entries with
  | Some (JObj qs) =>
      match Json.assoc "query" qs with
      | Some (JStr s) => Some s
      | _ => None
      end
  | _ => None
  end.

(** [extractQueryString]: the first non-empty result among the
    object-valued members, in enumeration order. *)
Fixpoint extractQueryString (body : json) : string :=
  match body with
  | JArr items =>
      (fix first (vals : list json) : string :=
         match vals with
         | [] => EmptyString
         | val :: rest =>
             if Json.truthy val && Json.typeof_object val then
               let result := extractQueryString val in
               if Str.is_empty result then first rest else result
             else first rest
         end) items
  | JObj entries =>
      match queryStringOf entries with
      | Some s => s
      | None =>
          (fix first (es : list (string * json)) : string :=
             match es with
             | [] => EmptyString
             | (_, val) :: rest =>
                 if Json.truthy val && Json.typeof_object val then
                   let result := extractQueryString val in
                   if Str.is_empty result then first rest else result
                 else first rest
             end) entries
      end
  | _ => EmptyString
  end.

(** ** Alert scheduler ([getQueryCountSince], [sendAlertEmail], [runRuleChecks]) *)

Module AlertRule.
Record t : Type := mk {
  id : string;
  name : string;
  query : string;
  threshold : Z;
  windowMinutes : Z;
  team : string;
  email : string
}.
End AlertRule.

(** [Math.ceil(a / 60)] *)
Definition ceil_div60 (a : Z) : Z := - ((- a) / 60).

(** [getQueryCountSince]: the buckets named by the UTC hour keys of the
    start of the current local hour and of the [buckets - 1] hours
    before it.  A bucket is a plain object in the code and a finite map
    here: the two answer alike for every query but the names of the
    members of [Object.prototype], which a plain object inherits. *)
Definition getQueryCountSince (metrics : Metrics.t) (zone now : Z) (query : string)
    (windowMinutes : Z) : Z :=
  let buckets := ceil_div60 windowMinutes in
  fold_left
    (fun count i =>
       let d := startOfLocalHour zone now - Z.of_nat i * Time.hour in
       let key := getHourKey d in
       let bucket := default ∅ (Metrics.hourlyQueries metrics !! key) in
       count + default 0 (bucket !! query))
    (seq 0 (Z.to_nat buckets)) 0.

(** The variables of [process.env] read by [sendAlertEmail]; an unset
    variable is empty (zero for the port). *)
Module ProcessEnv.
Record t : Type := mk {
  SMTP_HOST : string;
  SMTP_PORT : Z;
  SMTP_USER : string;
  SMTP_PASS : string;
  ALERT_EMAIL_TO : string;
  ALERT_EMAIL_FROM : string
}.
End ProcessEnv.

Module Mail.
Record t : Type := mk {
  host : string;
  port : Z;
  secure : bool;
  auth : option (string * string);
  from : string;
  to : string;
  subject : string;
  text : string
}.
End Mail.

(** How a call ends: it returns a value or throws. *)
Inductive Outcome (A : Type) : Type :=
| Returned (a : A)
| Thrown (message : string).
Arguments Returned {A} a.
Arguments Thrown {A} message.

(** [sendAlertEmail]. [sendMail] stands for the mail transport: it
    answers [None] when the message is accepted and the error message
    when [transport.sendMail] rejects.  The result carries the message
    handed to the transport, if any. *)
Definition sendAlertEmail (appConfig : AppConfig.t) (env : ProcessEnv.t)
    (sendMail : Mail.t -> option string)
    (subject text : string) (to : string) : option Mail.t * Outcome bool :=
  let host := or_else (AppConfig.smtpHost appConfig) (ProcessEnv.SMTP_HOST env) in
  let port :=
    if negb (AppConfig.smtpPort appConfig =? 0) then AppConfig.smtpPort appConfig
    else if negb (ProcessEnv.SMTP_PORT env =? 0) then ProcessEnv.SMTP_PORT env
    else 587 in
  let user := or_else (AppConfig.smtpUser appConfig) (ProcessEnv.SMTP_USER env) in
  let pass := or_else (AppConfig.smtpPass appConfig) (ProcessEnv.SMTP_PASS env) in
  let to :=
    or_else to
      (or_else (AppConfig.alertEmailTo appConfig) (ProcessEnv.ALERT_EMAIL_TO env)) in
  let from :=
    or_else (AppConfig.alertEmailFrom appConfig) (ProcessEnv.ALERT_EMAIL_FROM env) in
  if Str.is_empty host || Str.is_empty to || Str.is_empty from then
    (None, Returned false)
  else
    let mail :=
      Mail.mk host port (port =? 465)
        (if Str.is_empty user then None else Some (user, pass))
        from to subject text in
    match sendMail mail with
    | None => (Some mail, Returned true)
    | Some message => (Some mail, Thrown message)
    end.

(** The state [runRuleChecks] works on: [rulesState.lastTriggeredAt]
    (times in milliseconds), the calls of [sendAlertEmail] (subject,
    text and recipient), the messages handed to the mail transport and
    the lines written to the error console, all oldest first. *)
Module Alerts.
Record t : Type := mk {
  lastTriggeredAt : gmap string Z;
  calls : list (string * string * string);
  handed : list Mail.t;
  errors : list string
}.
End Alerts.

Definition newline : string := String (ascii_of_nat 10) EmptyString.

Definition alertSubject (query : string) (threshold windowMinutes : Z) : string :=
  "Alert: " +:+ Json.dquote +:+ query +:+ Json.dquote +:+ " exceeded " +:+
  Str.of_Z threshold +:+ "/" +:+ Str.of_Z windowMinutes +:+ "m".

Definition alertText (rule : AlertRule.t) (now : Z) (query : string)
    (threshold windowMinutes count : Z) : string :=
  Str.join newline
    (["Rule: " +:+ or_else (AlertRule.name rule) (AlertRule.id rule);
      "Rule ID: " +:+ AlertRule.id rule;
      "Triggered at: " +:+ Time.toISOString now;
      "Query: " +:+ query;
      "Threshold: " +:+ Str.of_Z threshold;
      "Window (minutes): " +:+ Str.of_Z windowMinutes;
      "Count: " +:+ Str.of_Z count]
     ++ (if Str.is_empty (AlertRule.team rule) then []
         else ["Team: " +:+ AlertRule.team rule])).

(** What one pass of the loop of [runRuleChecks] reads: the time, the
    counters and the offset of local time as they are when the rule is
    reached. *)
Module Observed.
Record t : Type := mk { time : Z; metrics : Metrics.t; zone : Z }.
End Observed.

Section AlertScheduler.

Variable appConfig : AppConfig.t.
Variable env : ProcessEnv.t.
Variable sendMail : Mail.t -> option string.

(** The body of the loop of [runRuleChecks] for one rule. *)
Definition checkRule (now : Z) (seen : Observed.t) (st : Alerts.t)
    (rule : AlertRule.t) : Alerts.t :=
  let query := Str.trim (AlertRule.query rule) in
  let threshold := AlertRule.threshold rule in
  let windowMinutes :=
    if AlertRule.windowMinutes rule =? 0 then 60 else AlertRule.windowMinutes rule in
  let email := Str.trim (AlertRule.email rule) in
  if Str.is_empty query || (threshold <? 1) then st
  else
    let count :=
      getQueryCountSince (Observed.metrics seen) (Observed.zone seen)
        (Observed.time seen) query windowMinutes in
    let withinWindow :=
      match Alerts.lastTriggeredAt st !! AlertRule.id rule with
      | Some lastTime => now - lastTime <? windowMinutes * 60 * 1000
      | None => false
      end in
    if (threshold <? count) && negb withinWindow then
      let subject := alertSubject query threshold windowMinutes in
      let text := alertText rule now query threshold windowMinutes count in
      let calls := Alerts.calls st ++ [(subject, text, email)] in
      match sendAlertEmail appConfig env sendMail subject text email with
      | (mail, Returned _) =>
          Alerts.mk (<[AlertRule.id rule := now]> (Alerts.lastTriggeredAt st))
            calls (Alerts.handed st ++ option_list mail) (Alerts.errors st)
      | (mail, Thrown message) =>
          Alerts.mk (Alerts.lastTriggeredAt st)
            calls (Alerts.handed st ++ option_list mail)
            (Alerts.errors st ++ ["Failed to send alert email: " +:+ message])
      end
    else st.

(** [runRuleChecks] started at [now]; [seen i] is what the pass for
    the rule at position [i] reads. *)
Fixpoint runRuleChecks_from (i : nat) (now : Z) (seen : nat -> Observed.t)
    (rules : list AlertRule.t) (st : Alerts.t) : Alerts.t :=
  match rules with
  | [] => st
  | rule :: rest =>
      runRuleChecks_from (S i) now seen rest (checkRule now (seen i) st rule)
  end.

Definition runRuleChecks (now : Z) (seen : nat -> Observed.t)
    (rules : list AlertRule.t) (st : Alerts.t) : Alerts.t :=
  runRuleChecks_from 0 now seen rules st.

End AlertScheduler.

(** ** Request handlers *)

Module Server.
Record t : Type := mk {
  appConfig : AppConfig.t;
  users : list User.t;
  featureToggles : gmap string Features.t;
  metrics : Metrics.t;
  responseCache : Cache.t
}.
End Server.

(** What a handler does that can be seen from outside, in order. *)
Inductive Event : Type :=
| OpenSearchSearch (indexPattern : string) (scroll : bool) (body : json)
| OpenSearchScroll (scrollId : string)
| OpenSearchDeleteScroll (scrollId : string)
| SetHeader (name value : string)
| GzipPipe
| GzipWrite (chunk : string)
| GzipEnd
| Respond (status : Z) (body : json)
| LogError (label : string) (status : Z) (detail : option json)
| ConsoleError (label : string) (value : json).

(** The answer of the search engine to [axios.post]: the response body,
    or an axios error with the response it carries, if any. *)
Inductive Upstream : Type :=
| UpstreamOk (data : json)
| UpstreamError (response : option (Z * json)) (message : string).

(** [features] of a handler: those of the caller when authentication is
    on and the request carries a user, else an object whose flags are
    all unset. *)
Definition requestFeatures (srv : Server.t) (user : option User.t) : Features.t :=
  if authEnabled (Server.users srv) && bool_decide (is_Some user)
  then getUserFeatures (Server.users srv) (Server.featureToggles srv) user
  else Features.mk false false false false false false false.

(** *** [POST /api/search/:indexPattern/_search] *)

Module SearchReq.
Record t : Type := mk {
  user : option User.t;
  ip : string;
  indexPattern : string;
  body : json
}.
End SearchReq.

Definition searchUserKey (srv : Server.t) (req : SearchReq.t) : string :=
  match SearchReq.user req with
  | Some u => if authEnabled (Server.users srv) then User.id u else "public"
  | None => "public"
  end.

Definition searchEffectiveBody (srv : Server.t) (now : Z) (req : SearchReq.t) : json :=
  let features := requestFeatures srv (SearchReq.user req) in
  if Features.limitTo7Days features then
    JObj (Json.set "query"
            (applyRecentOnlyFilterToQuery (Server.appConfig srv) now
               (Json.get "query" (SearchReq.body req)) (SearchReq.indexPattern req))
            (Json.spread (SearchReq.body req)))
  else SearchReq.body req.

(** One rule of [appConfig.piiFieldRules] as the object
    [{pattern, action}] that [JSON.stringify] is given. *)
Definition actionName (a : PiiAction) : string :=
  match a with hide => "hide" | mask => "mask" | partial => "partial" end.

Definition ruleJson (r : PiiRule.t) : json :=
  JObj [("pattern", JStr (PiiRule.pattern r));
        ("action", JStr (actionName (PiiRule.action r)))].

Definition searchCacheKey (srv : Server.t) (now : Z) (req : SearchReq.t) : string :=
  let features := requestFeatures srv (SearchReq.user req) in
  let effectiveBody := searchEffectiveBody srv now req in
  getCacheKey
    ["search";
     searchUserKey srv req;
     SearchReq.indexPattern req;
     if Features.piiUnmasked features then "pii-unmasked" else "pii-masked";
     Json.stringify
       (JArr (map ruleJson (AppConfig.piiFieldRules (Server.appConfig srv))));
     Json.stringify (if Json.truthy effectiveBody then effectiveBody else JObj [])].

(** [detail] of the [catch] block. *)
Definition errorDetail (response : option (Z * json)) : option json :=
  match response with
  | None => None
  | Some (_, data) =>
      match Json.get "error" data with
      | Some err =>
          match Json.get "reason" err with
          | Some reason =>
              if Json.truthy reason then Some reason
              else if Json.truthy err then Some err else Some data
          | None => if Json.truthy err then Some err else Some data
          end
      | None => Some data
      end
  end.

Section SearchHandler.

Variables CACHE_TTL_MS CACHE_MAX_ENTRIES : Z.

(** The engine, as a function of the index pattern and the body it is
    sent. *)
Variable opensearch : string -> json -> Upstream.

(** The handler runs from time [t0]; the engine answers at [t1]. *)
Definition searchHandler (t0 t1 : Z) (srv : Server.t) (req : SearchReq.t)
  : Server.t * list Event :=
  let appConfig := Server.appConfig srv in
  let features := requestFeatures srv (SearchReq.user req) in
  if authEnabled (Server.users srv) && bool_decide (is_Some (SearchReq.user req))
     && negb (isIndexPatternAllowed appConfig (SearchReq.user req)
                (SearchReq.indexPattern req))
  then (srv, [Respond 403 (JObj [("error", JStr "Index not allowed for your team.")])])
  else
    let effectiveBody := searchEffectiveBody srv t0 req in
    let cacheKey := searchCacheKey srv t0 req in
    let '(cached, cache1) :=
      cacheGet CACHE_TTL_MS t0 cacheKey (Server.responseCache srv) in
    if Json.truthy_opt cached then
      (Server.mk appConfig (Server.users srv) (Server.featureToggles srv)
         (Server.metrics srv) cache1,
       [Respond 200 (default JNull cached)])
    else
      let call := OpenSearchSearch (SearchReq.indexPattern req) false effectiveBody in
      match opensearch (SearchReq.indexPattern req) effectiveBody with
      | UpstreamOk data =>
          let query := extractQueryString (SearchReq.body req) in
          let metrics' :=
            recordSearch t1 query (SearchReq.ip req) (SearchReq.indexPattern req)
              (match SearchReq.user req with
               | Some u => or_else (User.username u) "public"
               | None => "public"
               end)
              (Server.metrics srv) in
          let masked :=
            if Features.piiUnmasked features then data
            else maskSearchResponse data (AppConfig.piiFieldRules appConfig) in
          (Server.mk appConfig (Server.users srv) (Server.featureToggles srv)
             metrics'
             (cacheSet CACHE_TTL_MS CACHE_MAX_ENTRIES t1 cacheKey masked cache1),
           [call; Respond 200 masked])
      | UpstreamError response message =>
          let status :=
            match response with
            | Some (code, _) => if code =? 0 then 500 else code
            | None => 500
            end in
          let detail := errorDetail response in
          (Server.mk appConfig (Server.users srv) (Server.featureToggles srv)
             (Server.metrics srv) cache1,
           [call;
            ConsoleError "Search error:"
              (if Json.truthy_opt detail then default JNull detail else JStr message);
            LogError "search" status detail;
            Respond status
              (JObj (("error", JStr "Search failed")
                     :: match detail with
                        | Some d => [("detail", d)]
                        | None => []
                        end))])
      end.

End SearchHandler.

(** *** [POST /api/export/:format] *)

Module ExportReq.
(** [query], [indexPattern] and [size] are the members of [req.body];
    [None] is a member the body leaves out. *)
Record t : Type := mk {
  user : option User.t;
  ip : string;
  format : string;
  query : option json;
  indexPattern : option string;
  size : option Z
}.
End ExportReq.

(** One answer of the engine to a scroll search: a cursor and a batch of
    hits, or a failure. *)
Inductive Page : Type :=
| PageOk (scrollId : string) (hits : list json)
| PageError (message : string).

(** Computations of the streaming part: they add to the trace, change
    the metrics, and return or throw. *)
Module Exec.

Record World : Type := mkWorld { trace : list Event; metrics : Metrics.t }.

Definition t (A : Type) : Type := World -> World * Outcome A.

Definition ret {A : Type} (a : A) : t A := fun w => (w, Returned a).

Definition throw {A : Type} (message : string) : t A := fun w => (w, Thrown message).

Definition bind {A B : Type} (m : t A) (k : A -> t B) : t B :=
  fun w =>
    match m w with
    | (w', Returned a) => k a w'
    | (w', Thrown message) => (w', Thrown message)
    end.

Definition emit (e : Event) : t unit :=
  fun w => (mkWorld (trace w ++ [e]) (metrics w), Returned tt).

Definition record (f : Metrics.t -> Metrics.t) : t unit :=
  fun w => (mkWorld (trace w) (f (metrics w)), Returned tt).

Definition lift {A : Type} (o : Outcome A) : t A := fun w => (w, o).

(** [try { body } catch (error) { handler(error.message) }] *)
Definition tryCatch (body : t unit) (handler : string -> t unit) : t unit :=
  fun w =>
    match body w with
    | (w', Returned a) => (w', Returned a)
    | (w', Thrown message) => handler message w'
    end.

(** [items.map(f)] for an [f] that may throw. *)
Fixpoint mapM {A B : Type} (f : A -> Outcome B) (items : list A) : Outcome (list B) :=
  match items with
  | [] => Returned []
  | x :: rest =>
      match f x with
      | Thrown message => Thrown message
      | Returned y =>
          match mapM f rest with
          | Thrown message => Thrown message
          | Returned ys => Returned (y :: ys)
          end
      end
  end.

End Exec.

Notation "'let*' x ':=' m 'in' k" := (Exec.bind m (fun x => k))
  (at level 10, x name, m at level 200, k at level 200).
Notation "m >>> k" := (Exec.bind m (fun _ => k))
  (at level 95, right associativity).

Definition typeError : string := "Cannot read properties of undefined".

(** [hit._source] *)
Definition sourceOf (hit : json) : Outcome (option json) :=
  match hit with
  | JNull => Thrown typeError
  | _ => Returned (Json.get "_source" hit)
  end.

(** [Object.keys(source)] *)
Definition objectKeys (source : option json) : Outcome (list string) :=
  match source with
  | None | Some JNull => Thrown typeError
  | Some v => Returned (map fst (Json.spread v))
  end.

(** Every double quote of [s] doubled, as the CSV writer escapes a
    cell. *)
Fixpoint doubleQuotes (s : string) : string :=
  match s with
  | EmptyString => EmptyString
  | String c s' =>
      if Ascii.eqb c Json.dquote_char
      then String c (String c (doubleQuotes s'))
      else String c (doubleQuotes s')
  end.

Definition csvCell (source : option json) (h : string) : Outcome string :=
  match source with
  | None | Some JNull => Thrown typeError
  | Some src =>
      match Json.prop h src with
      | None | Some JNull => Returned EmptyString
      | Some val =>
          Returned (Json.dquote +:+ doubleQuotes (Json.toString val) +:+ Json.dquote)
      end
  end.

Definition csvHeaderLine (headers : list string) : string :=
  Str.join "," (map (fun h => Json.dquote +:+ h +:+ Json.dquote) headers) +:+ newline.

(** The chunk [writeBatch] writes, if it writes one. *)
Definition batchChunk (hits : list json) (format : string) : Outcome (option string) :=
  if String.eqb format "json" then
    match
      Exec.mapM
        (fun h =>
           match sourceOf h with
           | Thrown message => Thrown message
           | Returned None => Returned EmptyString
           | Returned (Some src) => Returned (Json.stringify src)
           end) hits
    with
    | Thrown message => Thrown message
    | Returned lines => Returned (Some (Str.join newline lines +:+ newline))
    end
  else if String.eqb format "csv" then
    match hits with
    | [] => Thrown typeError
    | first :: _ =>
        match sourceOf first with
        | Thrown message => Thrown message
        | Returned src0 =>
            match objectKeys src0 with
            | Thrown message => Thrown message
            | Returned headers =>
                match
                  Exec.mapM
                    (fun hit =>
                       match sourceOf hit with
                       | Thrown message => Thrown message
                       | Returned src =>
                           match Exec.mapM (csvCell src) headers with
                           | Thrown message => Thrown message
                           | Returned cells => Returned (Str.join "," cells)
                           end
                       end) hits
                with
                | Thrown message => Thrown message
                | Returned lines => Returned (Some (Str.join newline lines +:+ newline))
                end
            end
        end
    end
  else Returned None.

Definition writeBatch (hits : list json) (format : string) : Exec.t unit :=
  let* chunk := Exec.lift (batchChunk hits format) in
  match chunk with
  | Some c => Exec.emit (GzipWrite c)
  | None => Exec.ret tt
  end.

Definition exportSort : json :=
  JArr [JObj [("timestamp", JObj [("order", JStr "desc"); ("unmapped_type", JStr "date")])];
        JObj [("@timestamp", JObj [("order", JStr "desc"); ("unmapped_type", JStr "date")])]].

Section ExportHandler.

Variable srv : Server.t.
Variable req : ExportReq.t.

(** The handler runs from time [t0]; the export is recorded at [t1]. *)
Variables t0 t1 : Z.

Let appConfig := Server.appConfig srv.
Let format := ExportReq.format req.
Let query := ExportReq.query req.
Let indexPattern :=
  default (AppConfig.defaultIndexPattern appConfig) (ExportReq.indexPattern req).
Let size := default (AppConfig.maxExportSize appConfig) (ExportReq.size req).
Let features := requestFeatures srv (ExportReq.user req).

Definition exportEffectiveQuery : json :=
  if Features.limitTo7Days features
  then applyRecentOnlyFilterToQuery appConfig t0 query indexPattern
  else match query with
       | Some q => if Json.truthy q then q else JObj [("match_all", JObj [])]
       | None => JObj [("match_all", JObj [])]
       end.

Definition exportMask (hits : list json) : list json :=
  if Features.piiUnmasked features then hits
  else applyPiiRulesToHits hits (AppConfig.piiFieldRules appConfig).

Definition exportRecord : Exec.t unit :=
  Exec.record
    (recordExport t1 format (ExportReq.ip req) indexPattern size
       (match query with Some q => extractQueryString q | None => EmptyString end)
       (match ExportReq.user req with
        | Some u => or_else (User.username u) "public"
        | None => "public"
        end)).

(** One call of the scroll endpoint, answered by [page]. *)
Definition scrollCall (scrollId : string) (page : Page)
  : Exec.t (string * list json) :=
  Exec.emit (OpenSearchScroll scrollId) >>>
  match page with
  | PageOk scrollId' hits => Exec.ret (scrollId', hits)
  | PageError message => Exec.throw message
  end.

(** The [while] loop, with [n] the length of the last batch written.
    [pages] are the answers the engine will give to the scroll calls;
    once they are used up the engine has no more hits. *)
Fixpoint scrollLoop (pages : list Page) (scrollId : string) (n : nat)
    (totalExported : Z) : Exec.t string :=
  if (0 <? n)%nat && (totalExported <? size) then
    match pages with
    | [] => Exec.emit (OpenSearchScroll scrollId) >>> Exec.ret scrollId
    | page :: rest =>
        let* next := scrollCall scrollId page in
        let scrollId' := fst next in
        let hits := take (Z.to_nat (size - totalExported)) (exportMask (snd next)) in
        match hits with
        | [] => scrollLoop rest scrollId' O totalExported
        | _ =>
            writeBatch hits format >>>
            scrollLoop rest scrollId' (length hits)
              (totalExported + Z.of_nat (length hits))
        end
    end
  else Exec.ret scrollId.

(** The [try] block. *)
Definition exportStream (initial : Page) (pages : list Page) : Exec.t unit :=
  let filename := "logs-" +:+ getTodayKey t0 +:+ "." +:+ format +:+ ".gz" in
  let searchBody :=
    JObj [("query", exportEffectiveQuery);
          ("size", JNum (Z.min 1000 size));
          ("sort", exportSort)] in
  Exec.emit (SetHeader "Content-Type" "application/gzip") >>>
  Exec.emit
    (SetHeader "Content-Disposition"
       ("attachment; filename=" +:+ Json.dquote +:+ filename +:+ Json.dquote)) >>>
  Exec.emit GzipPipe >>>
  Exec.emit (OpenSearchSearch indexPattern true searchBody) >>>
  match initial with
  | PageError message => Exec.throw message
  | PageOk scrollId first =>
      let hits := exportMask first in
      match hits with
      | [] =>
          Exec.emit
            (GzipWrite
               (if String.eqb format "csv"
                then Json.dquote +:+ "message" +:+ Json.dquote +:+ newline +:+
                     Json.dquote +:+ "No logs found" +:+ Json.dquote +:+ newline
                else Json.stringify (JObj [("message", JStr "No logs found")])
                     +:+ newline)) >>>
          Exec.emit GzipEnd >>>
          exportRecord
      | hit0 :: _ =>
          (if String.eqb format "csv" then
             let* src := Exec.lift (sourceOf hit0) in
             let* headers := Exec.lift (objectKeys src) in
             Exec.emit (GzipWrite (csvHeaderLine headers))
           else Exec.ret tt) >>>
          writeBatch hits format >>>
          let* scrollId' :=
            scrollLoop pages scrollId (length hits) (Z.of_nat (length hits)) in
          Exec.emit (OpenSearchDeleteScroll scrollId') >>>
          exportRecord >>>
          Exec.emit GzipEnd
      end
  end.

Definition exportHandler (initial : Page) (pages : list Page) : Exec.t unit :=
  let respond (status : Z) (error : string) :=
    Exec.emit (Respond status (JObj [("error", JStr error)])) in
  if authEnabled (Server.users srv) && negb (bool_decide (is_Some (ExportReq.user req)))
  then respond 401 "Unauthorized"
  else if authEnabled (Server.users srv) && negb (Features.exports features)
  then respond 403 "Feature disabled"
  else if authEnabled (Server.users srv)
          && negb (isIndexPatternAllowed appConfig (ExportReq.user req) indexPattern)
  then respond 403 "Index not allowed for your team."
  else if AppConfig.maxExportSize appConfig <? size
  then respond 400
         ("Max export size: " +:+ Str.of_Z (AppConfig.maxExportSize appConfig)
          +:+ " records")
  else
    Exec.tryCatch (exportStream initial pages)
      (fun message =>
         Exec.emit (ConsoleError "Export error:" (JStr message)) >>>
         Exec.emit GzipPipe >>>
         Exec.emit
           (GzipWrite
              (Json.stringify (JObj [("error", JStr ("Export failed: " +:+ message))]))) >>>
         Exec.emit GzipEnd).

End ExportHandler.

(** ** Further functions of the proxy *)

(** *** Index options ([filterIndexOptionsForUser]) *)

(** [String(raw || '').split('|')[0].trim()]: the pattern of an index
    option, which may carry a label after a bar. *)
Definition optionPattern (raw : string) : string :=
  Str.trim (fst (Str.split_on "|" raw)).

Definition filterIndexOptionsForUser (appConfig : AppConfig.t)
    (user : option User.t) (options : list string) : list string :=
  match user with
  | None => options
  | Some u =>
      if is_admin u then options
      else
        let allowed := getAllowedIndexPatterns appConfig user in
        if bool_decide (allowed = []) then options
        else
          List.filter
            (fun raw =>
               let pattern := optionPattern raw in
               if Str.is_empty pattern then false
               else existsb
                      (fun allowedPattern =>
                         Regex.test (wildcardToRegex allowedPattern) pattern)
                      allowed)
            options
  end.

(** *** Explicit time range ([buildTimeRangeFilter]) *)

(** The field explorer calls it with both bounds set. *)
Definition buildTimeRangeFilter (appConfig : AppConfig.t) (indexPattern : string)
    (start end_ : json) : json :=
  let fields := getIndexTimeFields appConfig indexPattern in
  let rangeFor (field : string) :=
    JObj [("range",
           JObj [(field,
                  JObj [("gte", start); ("lte", end_);
                        ("format", JStr "strict_date_optional_time")])])] in
  match fields with
  | [field] => rangeFor field
  | _ =>
      JObj [("bool",
             JObj [("should", JArr (map rangeFor fields));
                   ("minimum_should_match", JNum 1)])]
  end.

(** *** Login tokens ([createToken], [getUserForToken], [requireAuth],
    [isUserOnline]) *)

(** [tokenStore] is a [Map] from tokens to the user and the expiry. *)
Module Token.

Record entry : Type := mk { userId : string; expiresAt : Z }.

Definition store : Type := list (string * entry).

Fixpoint get (token : string) (s : store) : option entry :=
  match s with
  | [] => None
  | (k, e) :: rest => if String.eqb token k then Some e else get token rest
  end.

Fixpoint set (token : string) (e : entry) (s : store) : store :=
  match s with
  | [] => [(token, e)]
  | (k, e') :: rest =>
      if String.eqb token k then (k, e) :: rest else (k, e') :: set token e rest
  end.

Fixpoint delete (token : string) (s : store) : store :=
  match s with
  | [] => []
  | (k, e) :: rest => if String.eqb token k then rest else (k, e) :: delete token rest
  end.

End Token.

Section Tokens.

Variable AUTH_TOKEN_TTL_MINUTES : Z.

(** [createToken]; [token] is the value drawn from
    [crypto.randomBytes]. *)
Definition createToken (token : string) (now : Z) (userId : string)
    (tokenStore : Token.store) : Token.store :=
  let expiresAt := now + AUTH_TOKEN_TTL_MINUTES * 60 * 1000 in
  Token.set token (Token.mk userId expiresAt) tokenStore.

Definition getUserForToken (users : list User.t) (now : Z) (token : string)
    (tokenStore : Token.store) : option User.t * Token.store :=
  match Token.get token tokenStore with
  | None => (None, tokenStore)
  | Some entry =>
      if Token.expiresAt entry <? now then (None, Token.delete token tokenStore)
      else (find (fun u => String.eqb (User.id u) (Token.userId entry)) users,
            tokenStore)
  end.

(** [requireAuth] on the value of the [Authorization] header (empty
    when the request has none): the user put into [req.user], or [None]
    for the answer 401. *)
Definition requireAuth (users : list User.t) (now : Z) (authorization : string)
    (tokenStore : Token.store) : option User.t * Token.store :=
  if String.prefix "Bearer " authorization
  then getUserForToken users now (Str.drop 7 authorization) tokenStore
  else (None, tokenStore).

End Tokens.

(** [isUserOnline]: the loop stops at the first live token of the user;
    the expired tokens met before are removed. *)
Fixpoint isUserOnline (now : Z) (userId : string) (tokenStore : Token.store)
  : bool * Token.store :=
  match tokenStore with
  | [] => (false, [])
  | (token, entry) :: rest =>
      if Token.expiresAt entry <=? now then isUserOnline now userId rest
      else if String.eqb (Token.userId entry) userId then (true, tokenStore)
      else
        let '(online, rest') := isUserOnline now userId rest in
        (online, (token, entry) :: rest')
  end.

(** *** Hourly series ([getRecentHourlySeries]) *)

Module HourPoint.
Record t : Type := mk { hour : string; searches : Z; exports : Z }.
End HourPoint.

(** The totals of the last [hours] local hours, oldest first, each
    read under the UTC hour key of its start. *)
Definition getRecentHourlySeries (metrics : Metrics.t) (zone now : Z) (hours : Z)
  : list HourPoint.t :=
  map
    (fun i =>
       let d := startOfLocalHour zone now - Z.of_nat i * Time.hour in
       let key := getHourKey d in
       let entry := default HourTotals.empty (Metrics.hourlyTotals metrics !! key) in
       HourPoint.mk key (HourTotals.searches entry) (HourTotals.exports entry))
    (rev (seq 0 (Z.to_nat hours))).

(** *** Base path and aggregation names ([normalizeBasePath],
    [sanitizeAggName]) *)

(** [s.replace(/\/+$/, '')] *)
Fixpoint stripTrailingSlashes (s : string) : string :=
  match s with
  | EmptyString => EmptyString
  | String c s' =>
      let t := stripTrailingSlashes s' in
      if Ascii.eqb c "/" && Str.is_empty t then EmptyString else String c t
  end.

Definition normalizeBasePath (value : string) : string :=
  let raw := Str.trim value in
  if Str.is_empty raw || String.eqb raw "/" then EmptyString
  else
    let withSlash := if String.prefix "/" raw then raw else "/" +:+ raw in
    stripTrailingSlashes withSlash.

(** The characters of the class [[a-zA-Z0-9_]]. *)
Definition is_word_char (c : ascii) : bool :=
  let n := nat_of_ascii c in
  ((97 <=? n) && (n <=? 122) || (65 <=? n) && (n <=? 90)
   || (48 <=? n) && (n <=? 57) || (n =? 95))%nat.

(** [name.replace(/[^a-zA-Z0-9_]/g, '_')] *)
Fixpoint sanitizeAggName (name : string) : string :=
  match name with
  | EmptyString => EmptyString
  | String c rest =>
      String (if is_word_char c then c else "_"%char) (sanitizeAggName rest)
  end.

(** ** Vocabulary of the properties *)

Abbreviation s2l := list_ascii_of_string.

(** Some matcher whose expression matches [path] carries action [a]. *)
Definition matching (a : PiiAction) (path : string) (matchers : list PiiMatcher.t)
  : Prop :=
  exists m, In m matchers
            /\ Regex.test (PiiMatcher.regex m) path = true
            /\ PiiMatcher.action m = a.

(** A gap matched by [.*]: no line terminator in it. *)
Fixpoint gap_ok (g : string) : bool :=
  match g with
  | EmptyString => true
  | String c g' => negb (Regex.is_line_terminator c) && gap_ok g'
  end.

(** [s] is the pieces in order, with a gap between each two. *)
Fixpoint wild (pieces : list string) (s : string) : Prop :=
  match pieces with
  | [] => s = EmptyString
  | p :: rest =>
      match rest with
      | [] => s = p
      | _ => exists gap tail,
               s = p +:+ gap +:+ tail /\ gap_ok gap = true /\ wild rest tail
      end
  end.

(** Some team of the list has the flag set. *)
Definition anyTeam (featureToggles : gmap string Features.t)
    (flag : Features.t -> bool) (teams : list string) : bool :=
  existsb (fun team => flag (getTeamToggle featureToggles team)) teams.

(** Values used in the examples. *)
Module Sample.

Definition appConfig : AppConfig.t :=
  AppConfig.mk "vector-*" [] 100000 {[ "core" := ["logs-*"] ]} ∅
    [PiiRule.mk "user.email" mask]
    EmptyString 587 EmptyString EmptyString EmptyString EmptyString.

Definition bob : User.t := User.mk "u-1" "bob" viewer ["core"].
Definition root : User.t := User.mk "u-2" "root" admin ["ops"].

(** A team that may neither export nor see unmasked values. *)
Definition featureToggles : gmap string Features.t :=
  {[ "ops" := Features.mk false true true true true false false ]}.

Definition matchers : list PiiMatcher.t :=
  buildPiiMatchers
    [PiiRule.mk "user.*" partial; PiiRule.mk " user.email " mask;
     PiiRule.mk "*" partial].

Definition hiding : list PiiMatcher.t :=
  buildPiiMatchers [PiiRule.mk "user.email" mask; PiiRule.mk "*.email" hide].

(** Mail settings complete, and the same without them. *)
Definition mailConfig : AppConfig.t :=
  AppConfig.mk "vector-*" [] 100000 ∅ ∅ []
    "smtp.example.org" 587 EmptyString EmptyString
    "ops@example.org" "logs@example.org".

Definition env : ProcessEnv.t :=
  ProcessEnv.mk EmptyString 0 EmptyString EmptyString EmptyString EmptyString.

Definition accept : Mail.t -> option string := fun _ => None.
Definition reject : Mail.t -> option string := fun _ => Some "ECONNREFUSED".

Definition rule : AlertRule.t :=
  AlertRule.mk "r1" "Errors" "error" 1 60 EmptyString EmptyString.

Definition rule2 : AlertRule.t :=
  AlertRule.mk "r2" "Timeouts" "timeout" 2 60 EmptyString EmptyString.

(** 2026-11-03T07:05:05.123Z *)
Definition T : Z := 1793689505123.

(** Five matches of each query in the hour of [T] and in the next. *)
Definition metrics : Metrics.t :=
  Metrics.mk ∅
    {[ "2026-11-03T07" := {[ "error" := 5; "timeout" := 5 ]};
       "2026-11-03T08" := {[ "error" := 5; "timeout" := 5 ]} ]}
    ∅ [].

(** The counters read at [t] by a server whose local time is UTC. *)
Definition at_ (t : Z) : Observed.t := Observed.mk t metrics 0.

Definition idle : Alerts.t := Alerts.mk ∅ [] [] [].

(** A server whose only user is an admin of a team without exports. *)
Definition guarded : Server.t :=
  Server.mk appConfig [root] featureToggles (Metrics.mk ∅ ∅ ∅ []) [].

Definition bigExport : ExportReq.t :=
  ExportReq.mk (Some root) "10.0.0.7" "json" None None (Some 200000).

(** A server without users, and one whose only user is [bob]. *)
Definition open : Server.t :=
  Server.mk appConfig [] ∅ (Metrics.mk ∅ ∅ ∅ []) [].

Definition withBob : Server.t :=
  Server.mk appConfig [bob] ∅ (Metrics.mk ∅ ∅ ∅ []) [].

(** A server with two users: [bob], whose team sees masked values, and
    [alice], whose team sees them unmasked. *)
Definition alice : User.t := User.mk "u-3" "alice" viewer ["audit"].

Definition shared : Server.t :=
  Server.mk
    (AppConfig.mk "vector-*" [] 100000 ∅ ∅ [PiiRule.mk "user.email" mask]
       EmptyString 587 EmptyString EmptyString EmptyString EmptyString)
    [bob; alice]
    {[ "audit" := Features.mk true true true true false true false ]}
    (Metrics.mk ∅ ∅ ∅ []) [].

Definition world : Exec.World := Exec.mkWorld [] (Metrics.mk ∅ ∅ ∅ []).

Definition hit (email : string) : json :=
  JObj [("_id", JStr "1");
        ("_source", JObj [("user", JObj [("email", JStr email)])])].

Definition engine : string -> json -> Upstream :=
  fun _ _ => UpstreamOk (JObj [("hits", JObj [("hits", JArr [hit "a@b.com"])])]).

Definition search : SearchReq.t :=
  SearchReq.mk (Some bob) "10.0.0.7" "logs-app"
    (JObj [("query", JObj [("query_string", JObj [("query", JStr "error")])])]).

Definition searchByAlice : SearchReq.t :=
  SearchReq.mk (Some alice) "10.0.0.8" "logs-app"
    (JObj [("query", JObj [("query_string", JObj [("query", JStr "error")])])]).


(** A server with two users of the same team, both served masked
    values, and the search of the second one. *)
Definition dave : User.t := User.mk "u-5" "dave" viewer ["core"].

Definition teamCore : Server.t :=
  Server.mk appConfig [bob; dave] ∅ (Metrics.mk ∅ ∅ ∅ []) [].

Definition searchByDave : SearchReq.t :=
  SearchReq.mk (Some dave) "10.0.0.9" "logs-app"
    (JObj [("query", JObj [("query_string", JObj [("query", JStr "error")])])]).

End Sample.

(** The pass of [runRuleChecks] for the rule gets to [sendAlertEmail]:
    the rule is not skipped, its count is above the threshold, and the
    last recorded fire is not within the window. *)
Definition shouldFire (now : Z) (seen : Observed.t) (st : Alerts.t)
    (rule : AlertRule.t) : bool :=
  let query := Str.trim (AlertRule.query rule) in
  let threshold := AlertRule.threshold rule in
  let windowMinutes :=
    if AlertRule.windowMinutes rule =? 0 then 60 else AlertRule.windowMinutes rule in
  if Str.is_empty query || (threshold <? 1) then false
  else
    let count :=
      getQueryCountSince (Observed.metrics seen) (Observed.zone seen)
        (Observed.time seen) query windowMinutes in
    let withinWindow :=
      match Alerts.lastTriggeredAt st !! AlertRule.id rule with
      | Some lastTime => now - lastTime <? windowMinutes * 60 * 1000
      | None => false
      end in
    (threshold <? count) && negb withinWindow.

(** The window of a rule as [runRuleChecks] reads it. *)
Definition ruleWindow (rule : AlertRule.t) : Z :=
  if AlertRule.windowMinutes rule =? 0 then 60 else AlertRule.windowMinutes rule.

(** The count [runRuleChecks] compares with the threshold. *)
Definition ruleCount (seen : Observed.t) (rule : AlertRule.t) : Z :=
  getQueryCountSince (Observed.metrics seen) (Observed.zone seen) (Observed.time seen)
    (Str.trim (AlertRule.query rule)) (ruleWindow rule).

(** The last recorded fire of the rule is less than its window before
    [now]. *)
Definition withinWindow (now : Z) (st : Alerts.t) (rule : AlertRule.t) : Prop :=
  exists lastTime,
    Alerts.lastTriggeredAt st !! AlertRule.id rule = Some lastTime
    /\ now - lastTime < ruleWindow rule * 60 * 1000.


(** The matches of [query] counted in one hour bucket. *)
Definition bucketCount (metrics : Metrics.t) (key query : string) : Z :=
  default 0 (default ∅ (Metrics.hourlyQueries metrics !! key) !! query).


(** The size an export request asks for. *)
Definition exportSize (srv : Server.t) (req : ExportReq.t) : Z :=
  default (AppConfig.maxExportSize (Server.appConfig srv)) (ExportReq.size req).

(** The export request passes the checks made when authentication is
    on: it carries a user, the user may export, and the index pattern is
    allowed. *)
Definition exportAdmitted (srv : Server.t) (req : ExportReq.t) : bool :=
  negb (authEnabled (Server.users srv))
  || (bool_decide (is_Some (ExportReq.user req))
      && Features.exports (requestFeatures srv (ExportReq.user req))
      && isIndexPatternAllowed (Server.appConfig srv) (ExportReq.user req)
           (default (AppConfig.defaultIndexPattern (Server.appConfig srv))
              (ExportReq.indexPattern req))).

(** The search request is not turned away for its index pattern. *)
Definition searchAdmitted (srv : Server.t) (req : SearchReq.t) : bool :=
  negb (authEnabled (Server.users srv) && bool_decide (is_Some (SearchReq.user req))
        && negb (isIndexPatternAllowed (Server.appConfig srv) (SearchReq.user req)
                   (SearchReq.indexPattern req))).

(** The event is a call of the search engine. *)
Definition isUpstreamCall (e : Event) : bool :=
  match e with
  | OpenSearchSearch _ _ _ | OpenSearchScroll _ | OpenSearchDeleteScroll _ => true
  | _ => false
  end.

(** The event belongs to the streamed response. *)
Definition isStreaming (e : Event) : bool :=
  match e with
  | SetHeader _ _ | GzipPipe | GzipWrite _ | GzipEnd => true
  | _ => false
  end.

(** The state of a reader of JSON text: outside a string literal,
    inside one, or just after a backslash inside one. *)
Inductive lex : Type := Outside | Inside | Escaped.

Definition backslash_char : ascii := ascii_of_nat 92.
Definition bar_char : ascii := ascii_of_nat 124.

(** One step of the reader.  Outside a string literal it accepts
    neither a backslash nor the separator [|] of the cache key. *)
Definition lex_step (st : lex) (c : ascii) : option lex :=
  match st with
  | Outside =>
      if Ascii.eqb c Json.dquote_char then Some Inside
      else if Ascii.eqb c backslash_char || Ascii.eqb c bar_char then None
      else Some Outside
  | Inside =>
      if Ascii.eqb c Json.dquote_char then Some Outside
      else if Ascii.eqb c backslash_char then Some Escaped
      else Some Inside
  | Escaped => Some Inside
  end.

Fixpoint scan (st : lex) (s : list ascii) : option lex :=
  match s with
  | [] => Some st
  | c :: s' =>
      match lex_step st c with
      | Some st' => scan st' s'
      | None => None
      end
  end.

(** The text reads from outside a string literal back to outside. *)
Definition balanced (s : string) : Prop := scan Outside (s2l s) = Some Outside.

Definition hex_value (c : ascii) : nat :=
  let n := nat_of_ascii c in
  if (n <? 58)%nat then (n - 48)%nat else (n - 87)%nat.

(** Reads back the first character of an escaped string; [None] at a
    double quote. *)
Definition unescape_head (s : list ascii) : option (ascii * list ascii) :=
  match s with
  | [] => None
  | c :: rest =>
      if Ascii.eqb c Json.dquote_char then None
      else if Ascii.eqb c backslash_char then
        match rest with
        | e :: rest' =>
            if Ascii.eqb e "b" then Some (ascii_of_nat 8, rest')
            else if Ascii.eqb e "t" then Some (ascii_of_nat 9, rest')
            else if Ascii.eqb e "n" then Some (ascii_of_nat 10, rest')
            else if Ascii.eqb e "f" then Some (ascii_of_nat 12, rest')
            else if Ascii.eqb e "r" then Some (ascii_of_nat 13, rest')
            else if Ascii.eqb e "u" then
              match rest' with
              | _ :: _ :: h1 :: h2 :: rest'' =>
                  Some (ascii_of_nat (16 * hex_value h1 + hex_value h2), rest'')
              | _ => None
              end
            else Some (e, rest')
        | [] => None
        end
      else Some (c, rest)
  end.

(** The names of the members of [Object.prototype].  A plain object
    used as a dictionary answers a read of one of these names with the
    inherited member when it has no entry of its own, so the finite
    maps of the embedding stand for the dictionaries of the code at
    every other key. *)
Definition isPrototypeMember (key : string) : bool :=
  existsb (String.eqb key)
    ["constructor"; "__proto__"; "hasOwnProperty"; "isPrototypeOf";
     "propertyIsEnumerable"; "toLocaleString"; "toString"; "valueOf";
     "__defineGetter__"; "__defineSetter__"; "__lookupGetter__";
     "__lookupSetter__"].

(** The event is a call on a scroll cursor: reading its next page or
    releasing it. *)
Definition isCursorCall (e : Event) : bool :=
  match e with
  | OpenSearchScroll _ | OpenSearchDeleteScroll _ => true
  | _ => false
  end.

(** The event is a response to the client. *)
Definition isResponse (e : Event) : bool :=
  match e with
  | Respond _ _ => true
  | _ => false
  end.

(** The computation leaves the metrics as they are. *)
Definition keepsMetrics {A : Type} (m : Exec.t A) : Prop :=
  forall w, Exec.metrics (fst (m w)) = Exec.metrics w.

(** The computation changes the metrics only when it returns. *)
Definition failsClean {A : Type} (m : Exec.t A) : Prop :=
  forall w w' message, m w = (w', Thrown message) -> Exec.metrics w' = Exec.metrics w.

(** The computation only adds events to the trace, and none of them
    is a response. *)
Definition streamsOnly {A : Type} (m : Exec.t A) : Prop :=
  forall w, exists new,
    Exec.trace (fst (m w)) = Exec.trace w ++ new
    /\ existsb isResponse new = false.

(** The loop of [extractQueryString] over the members of a body. *)
Fixpoint firstQueryIn (vals : list json) : string :=
  match vals with
  | [] => EmptyString
  | val :: rest =>
      if Json.truthy val && Json.typeof_object val then
        let result := extractQueryString val in
        if Str.is_empty result then firstQueryIn rest else result
      else firstQueryIn rest
  end.

(** [s] is the [query] of a [query_string] of the body, at the top or
    in a member of it at any depth. *)
Inductive holdsQuery (s : string) : json -> Prop :=
| holds_here (entries : list (string * json)) :
    queryStringOf entries = Some s -> holdsQuery s (JObj entries)
| holds_member (entries : list (string * json)) (k : string) (v : json) :
    In (k, v) entries -> holdsQuery s v -> holdsQuery s (JObj entries)
| holds_item (items : list json) (v : json) :
    In v items -> holdsQuery s v -> holdsQuery s (JArr items).

(** A reader of one quoted CSV cell, started after the opening quote: a
    doubled quote stands for one quote and a single quote ends the cell.
    It gives the content of the cell and the text after the closing
    quote. *)
Fixpoint readQuoted (s : string) : option (string * string) :=
  match s with
  | EmptyString => None
  | String c rest =>
      if Ascii.eqb c Json.dquote_char then
        match rest with
        | String c' rest' =>
            if Ascii.eqb c' Json.dquote_char
            then option_map (fun r => (String c (fst r), snd r)) (readQuoted rest')
            else Some (EmptyString, rest)
        | EmptyString => Some (EmptyString, EmptyString)
        end
      else option_map (fun r => (String c (fst r), snd r)) (readQuoted rest)
  end.

(* ================================================================== *)
(** * Part II: properties                                             *)
(* ================================================================== *)

(** ** Strings as lists of characters *)

Lemma str_app_cons (x : ascii) (a b : string) : String x a +:+ b = String x (a +:+ b).
Proof. reflexivity. Qed.

Lemma str_app_nil_l (b : string) : EmptyString +:+ b = b.
Proof. reflexivity. Qed.

Lemma s2l_app (a b : string) : s2l (a +:+ b) = s2l a ++ s2l b.
Proof.
  induction a as [|c a IH]; [done|].
  rewrite str_app_cons. cbn. by rewrite IH.
Qed.

Lemma s2l_inj (a b : string) : s2l a = s2l b -> a = b.
Proof.
  intros H. rewrite <- (string_of_list_ascii_of_string a),
    <- (string_of_list_ascii_of_string b). by rewrite H.
Qed.

Lemma s2l_length (a : string) : length (s2l a) = String.length a.
Proof. induction a; cbn; auto. Qed.

Lemma str_app_nil_r (a : string) : a +:+ EmptyString = a.
Proof. apply s2l_inj. rewrite s2l_app. cbn. apply app_nil_r. Qed.

Lemma str_app_assoc (a b c : string) : (a +:+ b) +:+ c = a +:+ b +:+ c.
Proof. apply s2l_inj. rewrite !s2l_app. by rewrite app_assoc. Qed.

Lemma str_length_app (a b : string) :
  String.length (a +:+ b) = (String.length a + String.length b)%nat.
Proof. rewrite <- !s2l_length, s2l_app. apply length_app. Qed.

Lemma str_drop_app (a b : string) : Str.drop (String.length a) (a +:+ b) = b.
Proof.
  induction a as [|c a IH]; [by destruct b|].
  rewrite str_app_cons. cbn. apply IH.
Qed.

Lemma is_empty_true (s : string) : Str.is_empty s = true <-> s = EmptyString.
Proof. destruct s; cbn; split; congruence. Qed.

Lemma is_empty_false (s : string) : Str.is_empty s = false <-> s <> EmptyString.
Proof. destruct s; cbn; split; congruence. Qed.

(** ** Partial masking *)

Lemma partialMaskString_long (a b c y z : ascii) (mid : string) :
  partialMaskString
    (String a (String b (String c (mid +:+ String y (String z EmptyString)))))
  = String a (String b ("***" +:+ String y (String z EmptyString))).
Proof.
  unfold partialMaskString. cbn [String.length].
  rewrite str_length_app. cbn [String.length].
  replace (S (S (S (String.length mid + 2))) =? 0)%nat with false by done.
  replace (S (S (S (String.length mid + 2))) <=? 2)%nat with false by done.
  replace (S (S (S (String.length mid + 2))) <=? 4)%nat with false
    by (symmetry; apply Nat.leb_gt; lia).
  unfold Str.takeLast. cbn [String.length]. rewrite str_length_app.
  cbn [String.length].
  replace (S (S (S (String.length mid + 2))) - 2)%nat
    with (S (S (S (String.length mid)))) by lia.
  cbn [Str.drop Str.take]. by rewrite str_drop_app.
Qed.

(** C6. The partial mask of a string: the empty string stays empty; one
    or two characters become as many asterisks; three or four characters
    keep the first and the last one around three asterisks; five or more
    keep the first two and the last two around three asterisks.  An
    array or an object under a partial rule becomes the string
    "[masked]". *)
Theorem C6_partial_mask_boundaries :
  partialMaskString EmptyString = EmptyString
  /\ (forall a, partialMaskString (String a EmptyString) = "*")
  /\ (forall a b, partialMaskString (String a (String b EmptyString)) = "**")
  /\ (forall a b c,
        partialMaskString (String a (String b (String c EmptyString)))
        = String a ("***" +:+ String c EmptyString))
  /\ (forall a b c d,
        partialMaskString (String a (String b (String c (String d EmptyString))))
        = String a ("***" +:+ String d EmptyString))
  /\ (forall a b c mid y z,
        partialMaskString
          (String a (String b (String c (mid +:+ String y (String z EmptyString)))))
        = String a (String b ("***" +:+ String y (String z EmptyString))))
  /\ partialMaskString "ab" = "**"
  /\ partialMaskString "abcd" = "a***d"
  /\ partialMaskString "abcdef" = "ab***ef"
  /\ (forall s, partialMaskValue (JStr s) = JStr (partialMaskString s))
  /\ (forall items, partialMaskValue (JArr items) = JStr "[masked]")
  /\ (forall entries, partialMaskValue (JObj entries) = JStr "[masked]").
Proof.
  repeat split; try reflexivity.
  intros. apply partialMaskString_long.
Qed.

(** ** PII masking precedence *)

Lemma matching_cons a path m ms :
  matching a path (m :: ms) <->
  (Regex.test (PiiMatcher.regex m) path = true /\ PiiMatcher.action m = a)
  \/ matching a path ms.
Proof.
  unfold matching; split.
  - intros (x & [-> | Hin] & Ht & Ha); [left | right]; eauto.
  - intros [[Ht Ha] | (x & Hin & Ht & Ha)]; [exists m | exists x]; cbn; auto.
Qed.

Lemma getPiiAction_from_hide path ms :
  matching hide path ms -> forall action, getPiiAction_from action path ms = Some hide.
Proof.
  induction ms as [|m ms IH]; intros Hm action.
  - destruct Hm as (x & [] & _).
  - apply matching_cons in Hm. cbn.
    destruct (Regex.test (PiiMatcher.regex m) path) eqn:Ht.
    + destruct (PiiMatcher.action m) eqn:Ha; [done | |].
      * destruct Hm as [[_ ?] | Hm]; [done | by apply IH].
      * destruct Hm as [[_ ?] | Hm]; [done |].
        destruct action as [[]|]; by apply IH.
    + destruct Hm as [[? _] | Hm]; [done | by apply IH].
Qed.

(** Once [action] is mask, the rest of the loop can only keep it or
    return hide. *)
Lemma getPiiAction_from_mask_kept path ms :
  ~ matching hide path ms -> getPiiAction_from (Some mask) path ms = Some mask.
Proof.
  induction ms as [|m ms IH]; intros Hn; [done|]. cbn.
  assert (~ matching hide path ms) as Hn'.
  { intros H. apply Hn, matching_cons. by right. }
  destruct (Regex.test (PiiMatcher.regex m) path) eqn:Ht; [|by apply IH].
  destruct (PiiMatcher.action m) eqn:Ha; [|by apply IH..].
  exfalso. apply Hn, matching_cons. by left.
Qed.

Lemma getPiiAction_from_mask path ms :
  ~ matching hide path ms -> matching mask path ms ->
  forall action, getPiiAction_from action path ms = Some mask.
Proof.
  induction ms as [|m ms IH]; intros Hn Hm action.
  - destruct Hm as (x & [] & _).
  - assert (~ matching hide path ms) as Hn'.
    { intros H. apply Hn, matching_cons. by right. }
    apply matching_cons in Hm. cbn.
    destruct (Regex.test (PiiMatcher.regex m) path) eqn:Ht.
    + destruct (PiiMatcher.action m) eqn:Ha.
      * exfalso. apply Hn, matching_cons. by left.
      * by apply getPiiAction_from_mask_kept.
      * destruct Hm as [[_ ?] | Hm]; [done |].
        destruct action as [[]|]; by apply IH.
    + destruct Hm as [[? _] | Hm]; [done | by apply IH].
Qed.

Lemma applyPiiRules_unfold value path ms :
  applyPiiRules value path ms =
  match getPiiAction path ms with
  | Some hide => None
  | Some mask => Some (JStr masked)
  | Some partial => Some (partialMaskValue value)
  | None =>
      match value with
      | JArr items => Some (JArr (maskItems path ms items 0))
      | JObj entries => Some (JObj (maskEntries path ms entries))
      | _ => Some value
      end
  end.
Proof.
  destruct value as [| | | |items|entries]; cbn; try reflexivity.
  - destruct (getPiiAction path ms) as [[]|]; try reflexivity.
    do 2 f_equal. generalize 0%nat.
    induction items as [|item items IH]; intros i; cbn; [done|].
    by rewrite IH.
  - destruct (getPiiAction path ms) as [[]|]; try reflexivity.
    do 2 f_equal.
    induction entries as [|[k v] entries IH]; cbn; [done|].
    by rewrite IH.
Qed.

Lemma maskEntries_hidden parent ms key entries :
  getPiiAction (childPath parent key) ms = Some hide ->
  Json.assoc key (maskEntries parent ms entries) = None.
Proof.
  intros Hh. induction entries as [|[k v] entries IH]; cbn; [done|].
  destruct (String.eqb_spec key k) as [<-|Hne].
  - rewrite applyPiiRules_unfold, Hh. apply IH.
  - destruct (applyPiiRules v (childPath parent k) ms); [|apply IH].
    cbn. destruct (String.eqb_spec key k); [done | apply IH].
Qed.

Lemma maskEntries_masked parent ms key entries :
  getPiiAction (childPath parent key) ms = Some mask ->
  is_Some (Json.assoc key entries) ->
  Json.assoc key (maskEntries parent ms entries) = Some (JStr masked).
Proof.
  intros Hm. induction entries as [|[k v] entries IH]; cbn.
  - by intros [? ?].
  - destruct (String.eqb_spec key k) as [<-|Hne].
    + intros _. rewrite applyPiiRules_unfold, Hm. cbn.
      by rewrite String.eqb_refl.
    + intros Hs. destruct (applyPiiRules v (childPath parent k) ms); [|by apply IH].
      cbn. destruct (String.eqb_spec key k); [done | by apply IH].
Qed.

Lemma maskItems_length path ms items idx :
  (length (maskItems path ms items idx) <= length items)%nat.
Proof.
  revert idx. induction items as [|item rest IH]; intros idx; cbn [maskItems length].
  - done.
  - destruct (applyPiiRules item (childPath path (Str.of_nat idx)) ms);
      cbn [length]; specialize (IH (S idx)); lia.
Qed.

Lemma maskItems_app path ms before rest idx :
  maskItems path ms (before ++ rest) idx
  = maskItems path ms before idx
    ++ maskItems path ms rest (idx + length before).
Proof.
  revert idx. induction before as [|item before IH]; intros idx.
  - cbn [app maskItems length]. by rewrite Nat.add_0_r.
  - cbn [app maskItems length]. rewrite IH.
    replace (S idx + length before)%nat with (idx + S (length before))%nat by lia.
    by destruct (applyPiiRules item (childPath path (Str.of_nat idx)) ms).
Qed.

(** An array whose own path has no action: what comes of the elements
    before one position, of the element there, and of the ones after. *)
Lemma applyPiiRules_array parent ms before item after :
  getPiiAction parent ms = None ->
  exists outBefore outAfter,
    applyPiiRules (JArr (before ++ item :: after)) parent ms
    = Some (JArr (outBefore
                  ++ option_list
                       (applyPiiRules item
                          (childPath parent (Str.of_nat (length before))) ms)
                  ++ outAfter))
    /\ applyPiiRules (JArr before) parent ms = Some (JArr outBefore)
    /\ (length outAfter <= length after)%nat.
Proof.
  intros Hp.
  exists (maskItems parent ms before 0),
         (maskItems parent ms after (S (length before))).
  rewrite (applyPiiRules_unfold (JArr (before ++ item :: after))),
    (applyPiiRules_unfold (JArr before)), Hp. split; [|split].
  - rewrite maskItems_app. cbn [maskItems Nat.add].
    by destruct (applyPiiRules item _ ms).
  - done.
  - apply maskItems_length.
Qed.

(** C2. Precedence of the PII actions on one path.  If a matching rule
    hides, the action is hide, the value is dropped, and as a member of
    an object or an element of an array it is left out of its parent:
    [applyPiiRules] on the parent gives the object without that key,
    and the array without that element, the elements before it being
    what they are without it and none being added behind.  Otherwise,
    if a matching rule masks, the action is mask and the value becomes
    "[masked]", in an object under its key and in an array at its
    place, wherever the rule stands among matching partial rules; once
    the loop holds mask, nothing short of hide changes it.  The key of
    the object is any but [__proto__], which an assignment to a plain
    object does not store. *)
Theorem C2_masking_precedence (path : string) (matchers : list PiiMatcher.t) :
  (matching hide path matchers ->
     getPiiAction path matchers = Some hide
     /\ (forall value, applyPiiRules value path matchers = None)
     /\ (forall parent key entries,
           childPath parent key = path -> getPiiAction parent matchers = None ->
           exists out,
             applyPiiRules (JObj entries) parent matchers = Some (JObj out)
             /\ Json.assoc key out = None)
     /\ (forall parent before item after,
           childPath parent (Str.of_nat (length before)) = path ->
           getPiiAction parent matchers = None ->
           exists outBefore outAfter,
             applyPiiRules (JArr (before ++ item :: after)) parent matchers
             = Some (JArr (outBefore ++ outAfter))
             /\ applyPiiRules (JArr before) parent matchers = Some (JArr outBefore)
             /\ (length outAfter <= length after)%nat))
  /\ (~ matching hide path matchers -> matching mask path matchers ->
     getPiiAction path matchers = Some mask
     /\ (forall action, getPiiAction_from action path matchers = Some mask)
     /\ (forall value, applyPiiRules value path matchers = Some (JStr "[masked]"))
     /\ (forall parent key entries,
           childPath parent key = path -> getPiiAction parent matchers = None ->
           is_Some (Json.assoc key entries) -> key <> "__proto__" ->
           exists out,
             applyPiiRules (JObj entries) parent matchers = Some (JObj out)
             /\ Json.assoc key out = Some (JStr "[masked]"))
     /\ (forall parent before item after,
           childPath parent (Str.of_nat (length before)) = path ->
           getPiiAction parent matchers = None ->
           exists outBefore outAfter,
             applyPiiRules (JArr (before ++ item :: after)) parent matchers
             = Some (JArr (outBefore ++ JStr "[masked]" :: outAfter))
             /\ applyPiiRules (JArr before) parent matchers = Some (JArr outBefore)
             /\ (length outAfter <= length after)%nat))
  /\ (~ matching hide path matchers ->
      getPiiAction_from (Some mask) path matchers = Some mask).
Proof.
  split; [|split].
  - intros Hh.
    assert (getPiiAction path matchers = Some hide) as Hg
      by (by apply getPiiAction_from_hide).
    repeat split; [done | | |].
    + intros value. by rewrite applyPiiRules_unfold, Hg.
    + intros parent key entries <- Hp. eexists.
      rewrite applyPiiRules_unfold, Hp. split; [done|].
      by apply maskEntries_hidden.
    + intros parent before item after <- Hp.
      destruct (applyPiiRules_array parent matchers before item after Hp)
        as (outBefore & outAfter & Hall & Hbefore & Hlen).
      exists outBefore, outAfter.
      rewrite (applyPiiRules_unfold item), Hg in Hall. by cbn [option_list app] in Hall.
  - intros Hn Hm.
    assert (forall action, getPiiAction_from action path matchers = Some mask) as Hg
      by (by apply getPiiAction_from_mask).
    repeat split; [apply Hg | done | | |].
    + intros value. rewrite applyPiiRules_unfold. unfold getPiiAction. by rewrite Hg.
    + intros parent key entries <- Hp Hs _. eexists.
      rewrite applyPiiRules_unfold, Hp. split; [done|].
      apply maskEntries_masked; [apply Hg | done].
    + intros parent before item after <- Hp.
      destruct (applyPiiRules_array parent matchers before item after Hp)
        as (outBefore & outAfter & Hall & Hbefore & Hlen).
      exists outBefore, outAfter.
      rewrite (applyPiiRules_unfold item) in Hall. unfold getPiiAction in Hall.
      rewrite Hg in Hall. by cbn [option_list app] in Hall.
  - apply getPiiAction_from_mask_kept.
Qed.

Lemma C2_masking_precedence_witness :
  getPiiAction "user.email" Sample.matchers = Some mask
  /\ applyPiiRules (JObj [("email", JStr "a@b.com"); ("name", JStr "Bob")])
       "user.email" Sample.matchers
     = Some (JStr "[masked]")
  /\ getPiiAction "user.email" Sample.hiding = Some hide
  /\ exists outBefore outAfter,
       applyPiiRules (JArr ([JStr "a"] ++ JStr "b" :: [JStr "c"])) "tags"
         (buildPiiMatchers [PiiRule.mk "tags.1" hide])
       = Some (JArr (outBefore ++ outAfter))
       /\ applyPiiRules (JArr [JStr "a"]) "tags"
            (buildPiiMatchers [PiiRule.mk "tags.1" hide])
          = Some (JArr outBefore)
       /\ (length outAfter <= 1)%nat.
Proof.
  assert (~ matching hide "user.email" Sample.matchers) as Hn.
  { intros (m & Hin & Ht & Ha). cbn in Hin.
    destruct Hin as [<-|[<-|[<-|[]]]]; discriminate. }
  assert (matching mask "user.email" Sample.matchers) as Hm.
  { exists (PiiMatcher.mk "user.email" mask (wildcardToRegex "user.email")).
    split; [vm_compute; tauto | split; reflexivity]. }
  destruct (C2_masking_precedence "user.email" Sample.matchers) as (_ & Hmask & _).
  destruct (Hmask Hn Hm) as (H1 & _ & H3 & _).
  split; [exact H1|]. split; [apply H3|]. split.
  - apply (proj1 (C2_masking_precedence "user.email" _)).
    exists (PiiMatcher.mk "*.email" hide (wildcardToRegex "*.email")).
    split; [vm_compute; tauto | split; reflexivity].
  - destruct (proj1 (C2_masking_precedence "tags.1"
                       (buildPiiMatchers [PiiRule.mk "tags.1" hide])))
      as (_ & _ & _ & Harr).
    { exists (PiiMatcher.mk "tags.1" hide (wildcardToRegex "tags.1")).
      split; [vm_compute; tauto | split; reflexivity]. }
    exact (Harr "tags" [JStr "a"] (JStr "b") [JStr "c"] eq_refl eq_refl).
Defined.

(** The array of the example, computed: the element at index 1 is left
    out, the others stay. *)
Example applyPiiRules_hides_element :
  applyPiiRules (JArr [JStr "a"; JStr "b"; JStr "c"]) "tags"
    (buildPiiMatchers [PiiRule.mk "tags.1" hide])
  = Some (JArr [JStr "a"; JStr "c"])
  /\ applyPiiRules (JArr [JStr "a"; JStr "b"; JStr "c"]) "tags"
       (buildPiiMatchers [PiiRule.mk "tags.1" mask])
     = Some (JArr [JStr "a"; JStr "[masked]"; JStr "c"]).
Proof. split; by vm_compute. Qed.

(** ** Wildcard matching *)

Lemma test_nil s : Regex.test [] s = true <-> s = EmptyString.
Proof. apply is_empty_true. Qed.

Lemma test_literal_app p r s :
  Regex.test (Regex.literal p ++ r) s = true <->
  exists tail, s = p +:+ tail /\ Regex.test r tail = true.
Proof.
  revert s. induction p as [|c p IH]; intros s.
  - cbn [Regex.literal app]. split; [intros H; by exists s | by intros (t & -> & H)].
  - cbn [Regex.literal app Regex.test]. destruct s as [|a s].
    + split; [done | by intros (t & H & _)].
    + rewrite andb_true_iff, IH. split.
      * intros (Ha & t & -> & Ht). apply Ascii.eqb_eq in Ha as ->. by exists t.
      * intros (t & Heq & Ht). rewrite str_app_cons in Heq.
        injection Heq as -> ->. split; [apply Ascii.eqb_refl | by exists t].
Qed.

Lemma test_star r s :
  Regex.test (Regex.AnyStar :: r) s = true <->
  exists gap tail, s = gap +:+ tail /\ gap_ok gap = true /\ Regex.test r tail = true.
Proof.
  induction s as [|a s IH].
  - cbn. rewrite orb_false_r. split.
    + intros H. by exists EmptyString, EmptyString.
    + intros (g & t & Heq & _ & Ht). destruct g; [|done].
      rewrite str_app_nil_l in Heq. by subst.
  - change (Regex.test (Regex.AnyStar :: r) (String a s))
      with (Regex.test r (String a s)
            || negb (Regex.is_line_terminator a) && Regex.test (Regex.AnyStar :: r) s).
    rewrite orb_true_iff, andb_true_iff, IH. split.
    + intros [H | (Ha & g & t & -> & Hg & Ht)].
      * by exists EmptyString, (String a s).
      * exists (String a g), t. cbn. by rewrite Ha, Hg.
    + intros (g & t & Heq & Hg & Ht). destruct g as [|b g].
      * rewrite str_app_nil_l in Heq. subst. by left.
      * rewrite str_app_cons in Heq. injection Heq as -> ->.
        cbn in Hg. apply andb_true_iff in Hg as [Hb Hg].
        right. split; [done|]. by exists g, t.
Qed.

Lemma test_join_any pieces s :
  Regex.test (Regex.join_any pieces) s = true <-> wild pieces s.
Proof.
  revert s. induction pieces as [|p rest IH]; intros s; [apply test_nil|].
  destruct rest as [|q rest].
  - cbn [Regex.join_any wild]. rewrite <- (app_nil_r (Regex.literal p)).
    rewrite test_literal_app. split.
    + intros (t & -> & Ht). apply test_nil in Ht as ->. apply str_app_nil_r.
    + intros ->. exists EmptyString. by rewrite str_app_nil_r.
  - change (Regex.join_any (p :: q :: rest))
      with (Regex.literal p ++ Regex.AnyStar :: Regex.join_any (q :: rest)).
    change (wild (p :: q :: rest) s)
      with (exists gap tail,
               s = p +:+ gap +:+ tail /\ gap_ok gap = true /\ wild (q :: rest) tail).
    rewrite test_literal_app. split.
    + intros (t & -> & Ht). apply test_star in Ht as (g & t' & -> & Hg & Ht').
      exists g, t'. by rewrite <- IH.
    + intros (g & t & -> & Hg & Ht). exists (g +:+ t). split; [done|].
      apply test_star. exists g, t. by rewrite IH.
Qed.

(** The structural expression is what [RegExp] makes of the source
    text. *)
Lemma compile_escape piece tail :
  Regex.compile (escapeRegex piece +:+ tail)
  = option_map (app (Regex.literal piece)) (Regex.compile tail).
Proof.
  induction piece as [|c piece IH].
  - rewrite str_app_nil_l. cbn. by destruct (Regex.compile tail).
  - cbn [escapeRegex Regex.literal].
    destruct (Regex.is_meta c) eqn:Hm.
    + rewrite !str_app_cons. cbn [Regex.compile].
      change (Ascii.eqb "\" "\") with true. cbn iota. rewrite Hm, IH.
      by destruct (Regex.compile tail).
    + rewrite str_app_cons. cbn [Regex.compile].
      assert (Ascii.eqb c "\" = false /\ Ascii.eqb c "." = false
              /\ Ascii.eqb c "$" = false) as (-> & -> & ->).
      { unfold Regex.is_meta in Hm. cbn in Hm.
        repeat (apply orb_false_iff in Hm as [? Hm]). by repeat split. }
      rewrite Hm, IH. by destruct (Regex.compile tail).
Qed.

Lemma compile_join_any pieces :
  Regex.compile (Str.join ".*" (map escapeRegex pieces) +:+ "$")
  = Some (Regex.join_any pieces).
Proof.
  induction pieces as [|p pieces IH]; [done|].
  destruct pieces as [|q pieces].
  - cbn [map Str.join Regex.join_any]. rewrite compile_escape. cbn.
    by rewrite app_nil_r.
  - change (Str.join ".*" (map escapeRegex (p :: q :: pieces)))
      with (escapeRegex p +:+ ".*" +:+ Str.join ".*" (map escapeRegex (q :: pieces))).
    rewrite !str_app_assoc, compile_escape.
    change (Regex.compile
              (".*" +:+ Str.join ".*" (map escapeRegex (q :: pieces)) +:+ "$"))
      with (option_map (cons Regex.AnyStar)
              (Regex.compile
                 (Str.join ".*" (map escapeRegex (q :: pieces)) +:+ "$"))).
    by rewrite IH.
Qed.

Lemma wildcardToRegex_compiles pattern :
  Regex.RegExp (wildcardSource pattern) = Some (wildcardToRegex pattern).
Proof. apply compile_join_any. Qed.

(** ** Index access *)

Lemma existsb_true_In {A : Type} (f : A -> bool) (l : list A) :
  existsb f l = true <-> exists x, In x l /\ f x = true.
Proof. apply existsb_exists. Qed.

(** C3. Index access of a caller.  Anonymous callers and admins are
    always allowed.  For another user the allow-list is the list
    configured for the user when there is one and it is not empty, else
    the lists of the user's teams one after the other; an empty
    allow-list allows every index pattern; otherwise a pattern is
    allowed exactly when some allow pattern matches the whole of it,
    its stars standing for any run of characters without a line
    terminator and everything else for itself: this is the expression compiled from the pattern with
    its metacharacters escaped, its stars replaced by [.*], and anchors
    at both ends. *)
Theorem C3_index_allow_list (appConfig : AppConfig.t) (indexPattern : string) :
  isIndexPatternAllowed appConfig None indexPattern = true
  /\ (forall u, is_admin u = true ->
        isIndexPatternAllowed appConfig (Some u) indexPattern = true)
  /\ (forall pattern,
        Regex.RegExp (wildcardSource pattern) = Some (wildcardToRegex pattern))
  /\ (forall u, is_admin u = false ->
        let username := Str.trim (User.username u) in
        let own := default [] (AppConfig.userIndexAccess appConfig !! username) in
        let allowed := getAllowedIndexPatterns appConfig (Some u) in
        (username <> EmptyString -> own <> [] -> allowed = own)
        /\ (username = EmptyString \/ own = [] ->
            allowed =
            flat_map (fun team => default [] (AppConfig.teamIndexAccess appConfig !! team))
              (User.teams u))
        /\ (allowed = [] -> isIndexPatternAllowed appConfig (Some u) indexPattern = true)
        /\ (allowed <> [] ->
            (isIndexPatternAllowed appConfig (Some u) indexPattern = true <->
             exists pattern,
               In pattern allowed /\ wild (Str.split "*" pattern) indexPattern))
        /\ (allowed = ["logs-*"] ->
            isIndexPatternAllowed appConfig (Some u) "logs-app" = true
            /\ isIndexPatternAllowed appConfig (Some u) "other-*" = false)).
Proof.
  split; [done|]. split.
  { intros u Hu. unfold isIndexPatternAllowed. by rewrite Hu. }
  split; [apply wildcardToRegex_compiles|].
  intros u Hu username own allowed.
  assert (forall idx,
            isIndexPatternAllowed appConfig (Some u) idx =
            if bool_decide (allowed = []) then true
            else existsb (fun pattern => Regex.test (wildcardToRegex pattern) idx) allowed)
    as Hallowed.
  { intros idx. unfold isIndexPatternAllowed. by rewrite Hu. }
  assert (allowed =
          if negb (Str.is_empty username) && negb (bool_decide (own = [])) then own
          else flat_map
                 (fun team => default [] (AppConfig.teamIndexAccess appConfig !! team))
                 (User.teams u)) as Hlist.
  { unfold allowed, getAllowedIndexPatterns. by rewrite Hu. }
  repeat split.
  - intros Hn Ho. rewrite Hlist.
    apply is_empty_false in Hn as ->. by rewrite bool_decide_eq_false_2.
  - intros [He | Ho]; rewrite Hlist.
    + apply is_empty_true in He as ->. done.
    + rewrite (bool_decide_eq_true_2 _ Ho). by rewrite andb_false_r.
  - intros He. rewrite Hallowed. by rewrite bool_decide_eq_true_2.
  - rewrite Hallowed, bool_decide_eq_false_2 by done.
    rewrite existsb_true_In. intros (p & Hin & Ht). exists p.
    split; [done|]. by apply test_join_any.
  - rewrite Hallowed, bool_decide_eq_false_2 by done.
    intros (p & Hin & Hw). apply existsb_true_In. exists p.
    split; [done|]. by apply test_join_any.
  - rewrite Hallowed, H. reflexivity.
  - rewrite Hallowed, H. reflexivity.
Qed.

Lemma C3_index_allow_list_witness :
  isIndexPatternAllowed Sample.appConfig (Some Sample.bob) "logs-app" = true
  /\ isIndexPatternAllowed Sample.appConfig (Some Sample.bob) "other-*" = false.
Proof.
  destruct (C3_index_allow_list Sample.appConfig "logs-app") as (_ & _ & _ & H).
  destruct (H Sample.bob eq_refl) as (_ & _ & _ & _ & Hex).
  apply Hex. reflexivity.
Defined.

(** ** Effective features *)

Lemma getUserFeatures_fold (featureToggles : gmap string Features.t)
    (teams : list string) (acc : Features.t) :
  fold_left
    (fun acc team =>
       let t := getTeamToggle featureToggles team in
       Features.mk
         (Features.exports acc || Features.exports t)
         (Features.bookmarks acc || Features.bookmarks t)
         (Features.rules acc || Features.rules t)
         (Features.queryBuilder acc || Features.queryBuilder t)
         (Features.limitTo7Days acc || Features.limitTo7Days t)
         (Features.piiUnmasked acc || Features.piiUnmasked t)
         (Features.showFullResults acc || Features.showFullResults t))
    teams acc
  = Features.mk
      (Features.exports acc || anyTeam featureToggles Features.exports teams)
      (Features.bookmarks acc || anyTeam featureToggles Features.bookmarks teams)
      (Features.rules acc || anyTeam featureToggles Features.rules teams)
      (Features.queryBuilder acc || anyTeam featureToggles Features.queryBuilder teams)
      (Features.limitTo7Days acc || anyTeam featureToggles Features.limitTo7Days teams)
      (Features.piiUnmasked acc || anyTeam featureToggles Features.piiUnmasked teams)
      (Features.showFullResults acc
       || anyTeam featureToggles Features.showFullResults teams).
Proof.
  revert acc. induction teams as [|team teams IH]; intros acc.
  - destruct acc. cbn. by rewrite !orb_false_r.
  - cbn [fold_left]. rewrite IH. cbn. by rewrite !orb_assoc.
Qed.




(** ** The recent-only filter *)

Lemma assoc_set_eq k v entries : Json.assoc k (Json.set k v entries) = Some v.
Proof.
  induction entries as [|[k' v'] entries IH]; cbn.
  - by rewrite String.eqb_refl.
  - destruct (String.eqb_spec k k') as [->|Hne]; cbn.
    + by rewrite String.eqb_refl.
    + by destruct (String.eqb_spec k k').
Qed.

Lemma assoc_set_ne k k' v entries :
  k <> k' -> Json.assoc k' (Json.set k v entries) = Json.assoc k' entries.
Proof.
  intros Hne. induction entries as [|[k0 v0] entries IH]; cbn.
  - by destruct (String.eqb_spec k' k).
  - destruct (String.eqb_spec k k0) as [->|Hne0]; cbn.
    + destruct (String.eqb_spec k' k0); [by subst | done].
    + destruct (String.eqb_spec k' k0); [done | apply IH].
Qed.

(** The claim as the specification words it for a filter that is not an
    array: whatever its value, the result holds the two-element array
    of the filter and the recent one. *)
Lemma C5_falsy_filter_dropped :
  ~ (forall appConfig now indexPattern entries b f,
       Json.assoc "bool" entries = Some (JObj b) ->
       Json.assoc "filter" b = Some f ->
       Json.isArray f = false ->
       exists b',
         Json.get "bool"
           (applyRecentOnlyFilterToQuery appConfig now (Some (JObj entries)) indexPattern)
         = Some (JObj b')
         /\ Json.assoc "filter" b'
            = Some (JArr [f; buildRecentOnlyFilter appConfig now indexPattern])).
Proof.
  intros H.
  destruct (H Sample.appConfig 0 "logs-*"
              [("bool", JObj [("filter", JNum 0)])] [("filter", JNum 0)] (JNum 0)
              eq_refl eq_refl eq_refl) as (b' & Hb & Hf).
  vm_compute in Hb. injection Hb as <-. vm_compute in Hf. discriminate.
Qed.

(** C5, amended.  Applying the recent-only filter keeps what the caller
    sent and adds the recent filter once.  A query that is missing,
    falsy or not an object becomes [{bool:{filter:[recent]}}].  A query
    with an object under [bool] keeps every other member and every
    other member of [bool]; its [filter] becomes the old array with the
    recent filter appended (one element more), or, for a filter that is
    not an array, the two-element array of the old filter and the
    recent one when the old filter is truthy, and the one-element array
    of the recent filter when it is missing or falsy.  Every other
    object or array is wrapped whole under [must] next to the recent
    filter. *)
Theorem C5_recent_filter_merge (appConfig : AppConfig.t) (now : Z)
    (indexPattern : string) :
  let recent := buildRecentOnlyFilter appConfig now indexPattern in
  let merge q := applyRecentOnlyFilterToQuery appConfig now q indexPattern in
  merge None = JObj [("bool", JObj [("filter", JArr [recent])])]
  /\ (forall q,
        Json.truthy q = false \/ Json.typeof_object q = false ->
        merge (Some q) = JObj [("bool", JObj [("filter", JArr [recent])])])
  /\ (forall entries b,
        Json.assoc "bool" entries = Some b ->
        Json.truthy b = true -> Json.typeof_object b = true ->
        exists filter',
          merge (Some (JObj entries))
          = JObj (Json.set "bool" (JObj (Json.set "filter" filter' (Json.spread b)))
                    entries)
          /\ (forall fs,
                Json.assoc "filter" (Json.spread b) = Some (JArr fs) ->
                filter' = JArr (fs ++ [recent])
                /\ length (fs ++ [recent]) = S (length fs))
          /\ (forall f,
                Json.assoc "filter" (Json.spread b) = Some f ->
                Json.isArray f = false -> Json.truthy f = true ->
                filter' = JArr [f; recent])
          /\ (forall f,
                Json.assoc "filter" (Json.spread b) = Some f ->
                Json.isArray f = false -> Json.truthy f = false ->
                filter' = JArr [recent])
          /\ (Json.assoc "filter" (Json.spread b) = None -> filter' = JArr [recent])
          /\ (forall k, k <> "bool" ->
                Json.get k (merge (Some (JObj entries))) = Json.assoc k entries)
          /\ (exists b',
                Json.get "bool" (merge (Some (JObj entries))) = Some (JObj b')
                /\ Json.assoc "filter" b' = Some filter'
                /\ forall k, k <> "filter" ->
                     Json.assoc k b' = Json.assoc k (Json.spread b)))
  /\ (forall q,
        Json.truthy q = true -> Json.typeof_object q = true ->
        (Json.get "bool" q = None
         \/ exists b, Json.get "bool" q = Some b
                      /\ (Json.truthy b = false \/ Json.typeof_object b = false)) ->
        merge (Some q)
        = JObj [("bool", JObj [("must", JArr [q]); ("filter", JArr [recent])])]).
Proof.
  intros recent merge. split; [done|]. split; [|split].
  - intros q Hq. unfold merge, applyRecentOnlyFilterToQuery.
    destruct Hq as [-> | ->]; [done | by rewrite orb_true_r].
  - intros entries b Hb Ht Ho.
    unfold merge, applyRecentOnlyFilterToQuery.
    cbn [Json.truthy Json.typeof_object negb orb Json.get Json.spread].
    rewrite Hb, Ht, Ho. cbn [andb]. fold recent.
    eexists. split; [reflexivity|].
    split; [|split; [|split; [|split; [|split]]]].
    + intros fs ->. split; [done|]. rewrite length_app. cbn. lia.
    + intros f -> Ha Hf. rewrite Hf. by destruct f.
    + intros f -> Ha Hf. rewrite Hf. by destruct f.
    + by intros ->.
    + intros k Hk. cbn [Json.get]. by apply assoc_set_ne.
    + eexists. cbn [Json.get]. rewrite assoc_set_eq. split; [reflexivity|].
      split; [apply assoc_set_eq|]. intros k Hk. by apply assoc_set_ne.
  - intros q Ht Ho Hb. unfold merge, applyRecentOnlyFilterToQuery.
    rewrite Ht, Ho. cbn [negb orb].
    destruct Hb as [-> | (b & -> & [-> | ->])]; [done | done |].
    by rewrite andb_false_r.
Qed.

Lemma C5_recent_filter_merge_witness :
  exists b',
    Json.get "bool"
      (applyRecentOnlyFilterToQuery Sample.appConfig 0
         (Some (JObj [("bool", JObj [("filter", JArr [JObj [("term", JObj [])]])])]))
         "logs-*")
    = Some (JObj b')
    /\ Json.assoc "filter" b'
       = Some (JArr [JObj [("term", JObj [])];
                     buildRecentOnlyFilter Sample.appConfig 0 "logs-*"]).
Proof.
  destruct (C5_recent_filter_merge Sample.appConfig 0 "logs-*") as (_ & _ & H & _).
  destruct (H [("bool", JObj [("filter", JArr [JObj [("term", JObj [])]])])]
              (JObj [("filter", JArr [JObj [("term", JObj [])]])])
              eq_refl eq_refl eq_refl)
    as (filter' & _ & Harr & _ & _ & _ & _ & b' & Hb & Hf & _).
  destruct (Harr [JObj [("term", JObj [])]] eq_refl) as [-> _].
  exists b'. split; [exact Hb | exact Hf].
Defined.

(** ** The alert scheduler *)

Lemma ceil_div60_spec (w : Z) : 60 * (ceil_div60 w - 1) < w <= 60 * ceil_div60 w.
Proof.
  unfold ceil_div60.
  pose proof (Z.div_mod (- w) 60 ltac:(lia)).
  pose proof (Z.mod_pos_bound (- w) 60 ltac:(lia)). lia.
Qed.

Lemma startOfLocalHour_whole (zone now : Z) :
  zone mod Time.hour = 0 -> startOfLocalHour zone now = now - now mod Time.hour.
Proof.
  intros Hz. unfold startOfLocalHour.
  by rewrite Z.add_mod, Hz, Z.add_0_r, Z.mod_mod.
Qed.


Section AlertFacts.

Variable appConfig : AppConfig.t.
Variable env : ProcessEnv.t.
Variable sendMail : Mail.t -> option string.



Lemma checkRule_fires now seen st rule :
  shouldFire now seen st rule = true ->
  let email := Str.trim (AlertRule.email rule) in
  let subject :=
    alertSubject (Str.trim (AlertRule.query rule)) (AlertRule.threshold rule)
      (ruleWindow rule) in
  let text :=
    alertText rule now (Str.trim (AlertRule.query rule)) (AlertRule.threshold rule)
      (ruleWindow rule) (ruleCount seen rule) in
  let after := checkRule appConfig env sendMail now seen st rule in
  Alerts.calls after = Alerts.calls st ++ [(subject, text, email)]
  /\ (forall mail b,
        sendAlertEmail appConfig env sendMail subject text email = (mail, Returned b) ->
        Alerts.lastTriggeredAt after
        = <[AlertRule.id rule := now]> (Alerts.lastTriggeredAt st)
        /\ Alerts.handed after = Alerts.handed st ++ option_list mail
        /\ Alerts.errors after = Alerts.errors st)
  /\ (forall mail message,
        sendAlertEmail appConfig env sendMail subject text email
        = (mail, Thrown message) ->
        Alerts.lastTriggeredAt after = Alerts.lastTriggeredAt st
        /\ Alerts.handed after = Alerts.handed st ++ option_list mail).
Proof.
  intros H email subject text after.
  unfold after, checkRule. unfold shouldFire in H.
  destruct (Str.is_empty _ || _); [done|]. rewrite H.
  fold (ruleWindow rule). fold (ruleCount seen rule). fold email subject text.
  destruct (sendAlertEmail appConfig env sendMail subject text email)
    as [mail [b|message]];
    cbn [Alerts.calls Alerts.lastTriggeredAt Alerts.handed Alerts.errors];
    repeat split; intros; congruence.
Qed.

(** One rule after the other: a pass never stops the loop. *)
Lemma runRuleChecks_from_cons i now seen rule rules st :
  runRuleChecks_from appConfig env sendMail i now seen (rule :: rules) st
  = runRuleChecks_from appConfig env sendMail (S i) now seen rules
      (checkRule appConfig env sendMail now (seen i) st rule).
Proof. reflexivity. Qed.




End AlertFacts.


(** Where local time is five and a half hours ahead of UTC, the local
    hour of [T] began at 06:30 UTC: the count reads the bucket of 06,
    not the one of 07 that a search at [T] is recorded in. *)
Example getQueryCountSince_half_hour_zone :
  getQueryCountSince Sample.metrics 0 Sample.T "error" 60 = 5
  /\ getQueryCountSince Sample.metrics (330 * Time.minute) Sample.T "error" 60 = 0
  /\ getHourKey (startOfLocalHour (330 * Time.minute) Sample.T) = "2026-11-03T06"
  /\ getHourKey Sample.T = "2026-11-03T07".
Proof. repeat split; by vm_compute. Qed.

(** The whole run at [T] with working mail settings: the rule fires,
    one message is handed over, and the fire is recorded at [T]. *)
Example runRuleChecks_fires_at_T :
  let after :=
    runRuleChecks Sample.mailConfig Sample.env Sample.accept Sample.T
      (fun _ => Sample.at_ Sample.T) [Sample.rule] Sample.idle in
  Alerts.lastTriggeredAt after = {[ "r1" := Sample.T ]}
  /\ length (Alerts.handed after) = 1%nat.
Proof. by vm_compute. Qed.

(** What holds of the send: without a host, a recipient or a sender
    nothing is handed to the transport and the call returns [false]. *)
Lemma sendAlertEmail_settings_missing appConfig env sendMail subject text to :
  or_else (AppConfig.smtpHost appConfig) (ProcessEnv.SMTP_HOST env) = EmptyString
  \/ or_else to
       (or_else (AppConfig.alertEmailTo appConfig) (ProcessEnv.ALERT_EMAIL_TO env))
     = EmptyString
  \/ or_else (AppConfig.alertEmailFrom appConfig) (ProcessEnv.ALERT_EMAIL_FROM env)
     = EmptyString ->
  sendAlertEmail appConfig env sendMail subject text to = (None, Returned false).
Proof.
  intros H. unfold sendAlertEmail.
  destruct H as [-> | [-> | ->]]; cbn [Str.is_empty orb]; [done | |].
  - by rewrite orb_true_r.
  - by rewrite !orb_true_r.
Qed.

(** A send that throws leaves [lastTriggeredAt] as it was, and the loop
    goes on with the next rule. *)
Lemma checkRule_send_thrown appConfig env sendMail now seen st rule mail message :
  shouldFire now seen st rule = true ->
  sendAlertEmail appConfig env sendMail
    (alertSubject (Str.trim (AlertRule.query rule)) (AlertRule.threshold rule)
       (ruleWindow rule))
    (alertText rule now (Str.trim (AlertRule.query rule)) (AlertRule.threshold rule)
       (ruleWindow rule) (ruleCount seen rule))
    (Str.trim (AlertRule.email rule))
  = (mail, Thrown message) ->
  Alerts.lastTriggeredAt (checkRule appConfig env sendMail now seen st rule)
  = Alerts.lastTriggeredAt st.
Proof.
  intros Hs Hsend.
  destruct (checkRule_fires appConfig env sendMail now seen st rule Hs)
    as (_ & _ & Hthrown).
  by destruct (Hthrown mail message Hsend).
Qed.

Example runRuleChecks_continues_after_failure :
  let after :=
    runRuleChecks Sample.mailConfig Sample.env
      (fun mail => if String.eqb (Mail.subject mail)
                        (alertSubject "error" 1 60)
                   then Some "ECONNREFUSED" else None)
      Sample.T (fun _ => Sample.at_ Sample.T) [Sample.rule; Sample.rule2] Sample.idle in
  Alerts.lastTriggeredAt after = {[ "r2" := Sample.T ]}
  /\ length (Alerts.calls after) = 2%nat
  /\ Alerts.errors after = ["Failed to send alert email: ECONNREFUSED"].
Proof. by vm_compute. Qed.

(** C8, at the input where the code departs from it.  The mail settings
    are missing, the count of the rule is above its threshold and no
    fire is recorded.  [sendAlertEmail] hands nothing to the transport
    and returns [false]; [runRuleChecks] records the fire at [T] all
    the same, and the evaluation five minutes later, with the count
    still above the threshold, does not try again. *)
Theorem C8_missing_settings_recorded :
  sendAlertEmail Sample.appConfig Sample.env Sample.accept
    (alertSubject "error" 1 60)
    (alertText Sample.rule Sample.T "error" 1 60 5) EmptyString
  = (None, Returned false)
  /\ Alerts.handed
       (runRuleChecks Sample.appConfig Sample.env Sample.accept Sample.T
          (fun _ => Sample.at_ Sample.T) [Sample.rule] Sample.idle)
     = []
  /\ Alerts.lastTriggeredAt
       (runRuleChecks Sample.appConfig Sample.env Sample.accept Sample.T
          (fun _ => Sample.at_ Sample.T) [Sample.rule] Sample.idle)
     = {[ "r1" := Sample.T ]}
  /\ runRuleChecks Sample.appConfig Sample.env Sample.accept
       (Sample.T + 5 * Time.minute)
       (fun _ => Sample.at_ (Sample.T + 5 * Time.minute)) [Sample.rule]
       (runRuleChecks Sample.appConfig Sample.env Sample.accept Sample.T
          (fun _ => Sample.at_ Sample.T) [Sample.rule] Sample.idle)
     = runRuleChecks Sample.appConfig Sample.env Sample.accept Sample.T
         (fun _ => Sample.at_ Sample.T) [Sample.rule] Sample.idle.
Proof. repeat split; by vm_compute. Qed.

(** ** The export size ceiling *)

(** The claim as the specification words it: every request above the
    ceiling is answered with status 400. *)
Lemma C9_over_limit_forbidden :
  ~ (forall srv req t0 t1 initial pages w,
       AppConfig.maxExportSize (Server.appConfig srv) < exportSize srv req ->
       exists body,
         Exec.trace (fst (exportHandler srv req t0 t1 initial pages w))
         = Exec.trace w ++ [Respond 400 body]).
Proof.
  intros H.
  destruct (H Sample.guarded Sample.bigExport Sample.T Sample.T
              (PageOk "c1" []) [] Sample.world ltac:(by vm_compute))
    as (body & Hb).
  vm_compute in Hb. discriminate.
Qed.

(** C9, amended.  An export request above the configured ceiling ends
    with one error response and nothing else: no call of the search
    engine, no header or gzip output, no change of the metrics.  The
    checks come in this order.  With authentication on, a request
    without a user is answered 401; one whose user may not export is
    answered 403, "Feature disabled"; one whose index pattern is not
    allowed is answered 403, "Index not allowed for your team.".  A
    request that passes them, or any request with authentication off,
    is answered 400 with the ceiling in the message.  A request that is
    not admitted fails one of the three checks, so it never gets the
    400. *)
Theorem C9_export_size_ceiling (srv : Server.t) (req : ExportReq.t) (t0 t1 : Z)
    (initial : Page) (pages : list Page) (w : Exec.World) :
  AppConfig.maxExportSize (Server.appConfig srv) < exportSize srv req ->
  let result := exportHandler srv req t0 t1 initial pages w in
  let auth := authEnabled (Server.users srv) in
  let exports := Features.exports (requestFeatures srv (ExportReq.user req)) in
  let allowed :=
    isIndexPatternAllowed (Server.appConfig srv) (ExportReq.user req)
      (default (AppConfig.defaultIndexPattern (Server.appConfig srv))
         (ExportReq.indexPattern req)) in
  let answer (status : Z) (error : string) :=
    Exec.trace (fst result)
    = Exec.trace w ++ [Respond status (JObj [("error", JStr error)])] in
  snd result = Returned tt
  /\ Exec.metrics (fst result) = Exec.metrics w
  /\ (exists status body,
        Exec.trace (fst result) = Exec.trace w ++ [Respond status body]
        /\ (status = 400 \/ status = 401 \/ status = 403)
        /\ (exportAdmitted srv req = true -> status = 400))
  /\ (forall e, In e (Exec.trace (fst result)) -> ~ In e (Exec.trace w) ->
        isUpstreamCall e = false /\ isStreaming e = false)
  /\ (auth = true -> ExportReq.user req = None -> answer 401 "Unauthorized")
  /\ (auth = true -> is_Some (ExportReq.user req) -> exports = false ->
      answer 403 "Feature disabled")
  /\ (auth = true -> is_Some (ExportReq.user req) -> exports = true ->
      allowed = false -> answer 403 "Index not allowed for your team.")
  /\ (exportAdmitted srv req = true ->
      answer 400
        ("Max export size: "
         +:+ Str.of_Z (AppConfig.maxExportSize (Server.appConfig srv)) +:+ " records"))
  /\ (exportAdmitted srv req = false ->
      auth = true
      /\ (ExportReq.user req = None
          \/ (is_Some (ExportReq.user req) /\ exports = false)
          \/ (is_Some (ExportReq.user req) /\ exports = true /\ allowed = false))).
Proof.
  intros Hsize result auth exports allowed answer.
  assert (snd result = Returned tt
          /\ Exec.metrics (fst result) = Exec.metrics w
          /\ exists status body,
               Exec.trace (fst result) = Exec.trace w ++ [Respond status body]
               /\ (status = 400 \/ status = 401 \/ status = 403)
               /\ (exportAdmitted srv req = true -> status = 400)) as Hmain.
  { unfold result, exportHandler, exportAdmitted, exportSize in *.
    apply Z.ltb_lt in Hsize.
    destruct (authEnabled (Server.users srv)); cbn [andb negb orb].
    - destruct (bool_decide (is_Some (ExportReq.user req))); cbn [andb negb].
      + destruct (Features.exports (requestFeatures srv (ExportReq.user req)));
          cbn [andb negb].
        * destruct (isIndexPatternAllowed _ _ _); cbn [andb negb].
          -- rewrite Hsize. repeat split; eauto 10.
          -- repeat split; eauto 10. do 2 eexists. split; [done|]. split; [auto|done].
        * repeat split; eauto 10. do 2 eexists. split; [done|]. split; [auto|done].
      + repeat split; eauto 10. do 2 eexists. split; [done|]. split; [auto|done].
    - rewrite Hsize. repeat split; eauto 10. }
  destruct Hmain as (Hr & Hm & status & body & Ht & Hs & Ha).
  split; [done|]. split; [done|]. split; [by exists status, body|].
  split.
  { intros e Hin Hnot. rewrite Ht in Hin. apply in_app_or in Hin as [Hin | Hin].
    - done.
    - destruct Hin as [<- | []]. done. }
  clear Hr Hm status body Ht Hs Ha.
  unfold answer, result, exportHandler, exportAdmitted, exportSize in *.
  apply Z.ltb_lt in Hsize. fold auth exports allowed.
  split; [|split; [|split; [|split]]].
  - intros -> ->. by cbn.
  - intros -> Hu ->. by rewrite (bool_decide_eq_true_2 _ Hu).
  - intros -> Hu -> ->. by rewrite (bool_decide_eq_true_2 _ Hu).
  - destruct auth; cbn [andb negb orb].
    + intros Hadm. apply andb_true_iff in Hadm as [Hadm ->].
      apply andb_true_iff in Hadm as [-> ->]. cbn [negb]. by rewrite Hsize.
    + intros _. by rewrite Hsize.
  - destruct auth; cbn [negb orb]; [|done]. intros Hadm. split; [done|].
    destruct (ExportReq.user req) as [u|] eqn:Hu; [|by left]. right.
    rewrite (bool_decide_eq_true_2 (is_Some (Some u))) in Hadm by eauto.
    cbn [andb] in Hadm. destruct exports.
    + right. cbn [andb] in Hadm. by eauto.
    + left. by eauto.
Qed.

Lemma C9_export_size_ceiling_witness :
  Exec.trace
    (fst (exportHandler Sample.open Sample.bigExport Sample.T Sample.T
            (PageOk "c1" []) [] Sample.world))
  = [Respond 400 (JObj [("error", JStr "Max export size: 100000 records")])]
  /\ Exec.trace
       (fst (exportHandler Sample.guarded Sample.bigExport Sample.T Sample.T
               (PageOk "c1" []) [] Sample.world))
     = [Respond 403 (JObj [("error", JStr "Feature disabled")])].
Proof.
  split.
  - destruct (C9_export_size_ceiling Sample.open Sample.bigExport Sample.T Sample.T
                (PageOk "c1" []) [] Sample.world ltac:(by vm_compute))
      as (_ & _ & _ & _ & _ & _ & _ & H400 & _).
    exact (H400 eq_refl).
  - destruct (C9_export_size_ceiling Sample.guarded Sample.bigExport Sample.T Sample.T
                (PageOk "c1" []) [] Sample.world ltac:(by vm_compute))
      as (_ & _ & _ & _ & _ & H403 & _).
    apply H403; [reflexivity | by eexists | by vm_compute].
Defined.

(** An export within the ceiling does reach the search engine. *)
Example export_within_ceiling_streams :
  existsb isUpstreamCall
    (Exec.trace
       (fst (exportHandler Sample.open
               (ExportReq.mk None "10.0.0.7" "json" None None (Some 10))
               Sample.T Sample.T (PageOk "c1" [Sample.hit "a@b.com"]) []
               Sample.world)))
  = true.
Proof. by vm_compute. Qed.

(** ** Cache hits and the metrics *)

(** A recorded search adds one to the bucket of its query in the
    current hour: this is what a cache hit leaves out. *)
Lemma recordSearch_counts now query ip indexPattern user metrics :
  bucketCount (recordSearch now query ip indexPattern user metrics)
    (getHourKey now) (or_else query "(match_all)")
  = bucketCount metrics (getHourKey now) (or_else query "(match_all)") + 1.
Proof.
  unfold bucketCount, recordSearch, logActivity, bump.
  cbn [Metrics.hourlyQueries]. rewrite lookup_insert_eq.
  cbn [from_option id]. by rewrite lookup_insert_eq.
Qed.

Section SearchFacts.

Variables CACHE_TTL_MS CACHE_MAX_ENTRIES : Z.
Variable opensearch : string -> json -> Upstream.

(** C10. A search answered from the response cache responds with the
    cached value and nothing else: the search engine is not called,
    [recordSearch] does not run, the metrics are the same after the
    request as before, and so is every count the alert scheduler
    reads from them. *)
Theorem C10_cache_hit_keeps_metrics (t0 t1 : Z) (srv : Server.t)
    (req : SearchReq.t) (cached : json) :
  searchAdmitted srv req = true ->
  fst (cacheGet CACHE_TTL_MS t0 (searchCacheKey srv t0 req)
         (Server.responseCache srv))
  = Some cached ->
  Json.truthy cached = true ->
  let result :=
    searchHandler CACHE_TTL_MS CACHE_MAX_ENTRIES opensearch t0 t1 srv req in
  snd result = [Respond 200 cached]
  /\ Server.metrics (fst result) = Server.metrics srv
  /\ (forall zone now query windowMinutes,
        getQueryCountSince (Server.metrics (fst result)) zone now query windowMinutes
        = getQueryCountSince (Server.metrics srv) zone now query windowMinutes).
Proof.
  intros Hadm Hget Htruthy result.
  assert (snd result = [Respond 200 cached]
          /\ Server.metrics (fst result) = Server.metrics srv) as [He Hm].
  { unfold result, searchHandler. unfold searchAdmitted in Hadm.
    apply negb_true_iff in Hadm. rewrite Hadm.
    destruct (cacheGet CACHE_TTL_MS t0 (searchCacheKey srv t0 req)
                (Server.responseCache srv)) as [c cache1].
    cbn [fst] in Hget. subst c. cbn [Json.truthy_opt]. rewrite Htruthy.
    by cbn. }
  split; [done|]. split; [done|]. intros. by rewrite Hm.
Qed.

(** A miss answered by the engine does record the search. *)
Lemma searchHandler_miss_records t0 t1 srv req data :
  searchAdmitted srv req = true ->
  fst (cacheGet CACHE_TTL_MS t0 (searchCacheKey srv t0 req)
         (Server.responseCache srv))
  = None ->
  opensearch (SearchReq.indexPattern req) (searchEffectiveBody srv t0 req)
  = UpstreamOk data ->
  Server.metrics
    (fst (searchHandler CACHE_TTL_MS CACHE_MAX_ENTRIES opensearch t0 t1 srv req))
  = recordSearch t1 (extractQueryString (SearchReq.body req)) (SearchReq.ip req)
      (SearchReq.indexPattern req)
      (match SearchReq.user req with
       | Some u => or_else (User.username u) "public"
       | None => "public"
       end)
      (Server.metrics srv).
Proof.
  intros Hadm Hget Hup. unfold searchHandler. unfold searchAdmitted in Hadm.
  apply negb_true_iff in Hadm. rewrite Hadm.
  destruct (cacheGet CACHE_TTL_MS t0 (searchCacheKey srv t0 req)
              (Server.responseCache srv)) as [c cache1].
  cbn [fst] in Hget. subst c. cbn [Json.truthy_opt]. by rewrite Hup.
Qed.

End SearchFacts.

Lemma C10_cache_hit_keeps_metrics_witness :
  Server.metrics
    (fst (searchHandler 15000 500 Sample.engine (Sample.T + 1000) (Sample.T + 1001)
            (fst (searchHandler 15000 500 Sample.engine Sample.T (Sample.T + 1)
                    Sample.withBob Sample.search))
            Sample.search))
  = Server.metrics
      (fst (searchHandler 15000 500 Sample.engine Sample.T (Sample.T + 1)
              Sample.withBob Sample.search)).
Proof.
  refine (proj1 (proj2 (C10_cache_hit_keeps_metrics 15000 500 Sample.engine
                          (Sample.T + 1000) (Sample.T + 1001) _ Sample.search
                          (JObj [("hits", JObj [("hits", JArr [Sample.hit "[masked]"])])])
                          _ _ _))); by vm_compute.
Defined.

(** ** The text of [JSON.stringify] *)

(** Induction on JSON values, with the members of arrays and objects. *)
Lemma json_ind (P : json -> Prop) :
  P JNull ->
  (forall b, P (JBool b)) ->
  (forall n, P (JNum n)) ->
  (forall s, P (JStr s)) ->
  (forall items, Forall P items -> P (JArr items)) ->
  (forall entries, Forall (fun kv => P (snd kv)) entries -> P (JObj entries)) ->
  forall v, P v.
Proof.
  intros Hnull Hbool Hnum Hstr Harr Hobj.
  fix IH 1. intros [| b | n | s | items | entries].
  - exact Hnull.
  - apply Hbool.
  - apply Hnum.
  - apply Hstr.
  - apply Harr. induction items as [|x items IHitems]; constructor; [apply IH | exact IHitems].
  - apply Hobj. induction entries as [|[k x] entries IHentries]; constructor;
      [apply IH | exact IHentries].
Qed.

Lemma scan_app st a b :
  scan st (a ++ b) = match scan st a with Some st' => scan st' b | None => None end.
Proof.
  revert st. induction a as [|c a IH]; intros st; cbn; [done|].
  destruct (lex_step st c); [apply IH | done].
Qed.

Lemma balanced_app a b : balanced a -> balanced b -> balanced (a +:+ b).
Proof.
  unfold balanced. intros Ha Hb. by rewrite s2l_app, scan_app, Ha.
Qed.

(** Two readers of the same text, one starting outside and one inside a
    string literal, never end in the same state. *)
Lemma scan_out_of_phase s st1 st2 r1 r2 :
  (st1 = Outside /\ st2 = Inside) \/ (st1 = Inside /\ st2 = Outside) ->
  scan st1 s = Some r1 -> scan st2 s = Some r2 -> r1 <> r2.
Proof.
  revert st1 st2 r1 r2. induction s as [|c s IH]; intros st1 st2 r1 r2 Hp.
  - cbn. intros [= <-] [= <-]. destruct Hp as [[-> ->] | [-> ->]]; done.
  - cbn. destruct Hp as [[-> ->] | [-> ->]]; cbn.
    + destruct (Ascii.eqb c Json.dquote_char).
      * apply IH. by right.
      * destruct (Ascii.eqb c backslash_char); cbn; [done|].
        destruct (Ascii.eqb c bar_char); cbn; [done|]. apply IH. by left.
    + destruct (Ascii.eqb c Json.dquote_char).
      * apply IH. by left.
      * destruct (Ascii.eqb c backslash_char); cbn; [done|].
        destruct (Ascii.eqb c bar_char); cbn; [done|]. apply IH. by right.
Qed.

(** After the separator the reader is inside a string literal. *)
Lemma scan_after_bar st l r :
  scan st (l ++ [bar_char]) = Some r -> r = Inside.
Proof.
  rewrite scan_app. destruct (scan st l) as [[]|]; vm_compute; congruence.
Qed.

(** Two balanced texts that end the same key after a separator are the
    same text, and so is what stands before them. *)
Lemma balanced_suffix (x y a b : list ascii) :
  scan Outside a = Some Outside -> scan Outside b = Some Outside ->
  x ++ bar_char :: a = y ++ bar_char :: b ->
  x = y /\ a = b.
Proof.
  assert (forall x y a b,
            scan Outside a = Some Outside -> scan Outside b = Some Outside ->
            forall l, x ++ [bar_char] = (y ++ [bar_char]) ++ l -> b = l ++ a ->
            l = []) as Hcase.
  { clear. intros x y a b Ha Hb l Hx Hl.
    destruct (decide (l = [])) as [|Hne]; [done|]. exfalso.
    destruct (exists_last Hne) as (l' & c & ->).
    rewrite !app_assoc in Hx. apply app_inj_tail in Hx as [_ <-].
    rewrite Hl, scan_app in Hb.
    destruct (scan Outside (l' ++ [bar_char])) as [r|] eqn:Hs; [|done].
    apply scan_after_bar in Hs as ->.
    by eapply (scan_out_of_phase a Outside Inside); [left | | |]. }
  intros Ha Hb Heq.
  change (x ++ bar_char :: a) with (x ++ [bar_char] ++ a) in Heq.
  change (y ++ bar_char :: b) with (y ++ [bar_char] ++ b) in Heq.
  rewrite !app_assoc in Heq.
  apply app_eq_app in Heq as (l & [[Hx Hl] | [Hy Hl]]).
  - assert (l = []) as -> by (by eapply (Hcase x y a b)).
    rewrite app_nil_r in Hx. apply app_inj_tail in Hx as [-> _]. by subst.
  - assert (l = []) as -> by (by eapply (Hcase y x b a)).
    rewrite app_nil_r in Hy. apply app_inj_tail in Hy as [-> _]. by subst.
Qed.

Lemma escape_char_inside c : scan Inside (s2l (Json.escape_char c)) = Some Inside.
Proof. destruct c as [[] [] [] [] [] [] [] []]; reflexivity. Qed.

Lemma escape_inside s : scan Inside (s2l (Json.escape s)) = Some Inside.
Proof.
  induction s as [|c s IH]; [done|].
  cbn [Json.escape]. by rewrite s2l_app, scan_app, escape_char_inside.
Qed.

Lemma quote_balanced s : balanced (Json.quote s).
Proof.
  unfold balanced, Json.quote. rewrite !s2l_app.
  change (s2l Json.dquote) with [Json.dquote_char].
  change (scan Outside ([Json.dquote_char] ++ s2l (Json.escape s) ++ [Json.dquote_char]))
    with (scan Inside (s2l (Json.escape s) ++ [Json.dquote_char])).
  by rewrite scan_app, escape_inside.
Qed.

Lemma digits_balanced (d : Decimal.uint) : balanced (NilEmpty.string_of_uint d).
Proof. unfold balanced. induction d; cbn; done. Qed.

Lemma of_N_balanced n : balanced (Str.of_N n).
Proof.
  unfold Str.of_N, NilZero.string_of_uint.
  destruct (N.to_uint n) eqn:E; [done | rewrite <- E..]; apply digits_balanced.
Qed.

Lemma of_Z_balanced z : balanced (Str.of_Z z).
Proof.
  unfold Str.of_Z. destruct (z <? 0); [|apply of_N_balanced].
  apply balanced_app; [done | apply of_N_balanced].
Qed.

Lemma join_balanced sep parts :
  balanced sep -> Forall balanced parts -> balanced (Str.join sep parts).
Proof.
  intros Hsep. induction 1 as [|p parts Hp Hparts IH]; [done|].
  destruct parts as [|q parts]; [done|].
  change (Str.join sep (p :: q :: parts))
    with (p +:+ sep +:+ Str.join sep (q :: parts)).
  auto using balanced_app.
Qed.

Lemma stringify_balanced v : balanced (Json.stringify v).
Proof.
  induction v as [| [] | n | s | items IH | entries IH] using json_ind;
    try done.
  - apply of_Z_balanced.
  - apply quote_balanced.
  - cbn [Json.stringify]. apply balanced_app; [done|].
    apply balanced_app; [|done]. apply join_balanced; [done|].
    induction IH; constructor; auto.
  - cbn [Json.stringify]. apply balanced_app; [done|].
    apply balanced_app; [|done]. apply join_balanced; [done|].
    induction IH as [|[k x] entries Hx Hentries IHentries]; constructor; [|done].
    apply balanced_app; [apply quote_balanced|]. by apply balanced_app.
Qed.

(** *** The text of the rule list determines the rules *)

Lemma unescape_head_escape_char c rest :
  unescape_head (s2l (Json.escape_char c) ++ rest) = Some (c, rest).
Proof. destruct c as [[] [] [] [] [] [] [] []]; reflexivity. Qed.

Lemma escape_prefix s1 s2 r1 r2 :
  s2l (Json.escape s1) ++ Json.dquote_char :: r1
  = s2l (Json.escape s2) ++ Json.dquote_char :: r2 ->
  s1 = s2 /\ r1 = r2.
Proof.
  revert s2. induction s1 as [|c1 s1 IH]; intros [|c2 s2];
    cbn [Json.escape]; rewrite ?s2l_app, <- ?app_assoc; intros Heq.
  - cbn in Heq. by injection Heq as <-.
  - apply (f_equal unescape_head) in Heq.
    rewrite unescape_head_escape_char in Heq. discriminate.
  - apply (f_equal unescape_head) in Heq.
    rewrite unescape_head_escape_char in Heq. discriminate.
  - apply (f_equal unescape_head) in Heq.
    rewrite !unescape_head_escape_char in Heq. injection Heq as <- Heq.
    by destruct (IH _ Heq) as [<- <-].
Qed.

Lemma quote_text s : s2l (Json.quote s)
  = Json.dquote_char :: s2l (Json.escape s) ++ [Json.dquote_char].
Proof. unfold Json.quote. by rewrite !s2l_app. Qed.

Lemma quote_prefix s1 s2 r1 r2 :
  s2l (Json.quote s1) ++ r1 = s2l (Json.quote s2) ++ r2 -> s1 = s2 /\ r1 = r2.
Proof.
  rewrite !quote_text. cbn [app]. rewrite <- !app_assoc. cbn [app].
  intros [= Heq]. by apply escape_prefix.
Qed.

Lemma actionName_inj a1 a2 : actionName a1 = actionName a2 -> a1 = a2.
Proof. by destruct a1, a2. Qed.

Lemma rule_text r :
  s2l (Json.stringify (ruleJson r))
  = s2l ("{" +:+ Json.quote "pattern" +:+ ":")
    ++ s2l (Json.quote (PiiRule.pattern r))
    ++ s2l ("," +:+ Json.quote "action" +:+ ":")
    ++ s2l (Json.quote (actionName (PiiRule.action r)))
    ++ s2l "}".
Proof.
  unfold ruleJson. cbn [Json.stringify map Str.join].
  rewrite !s2l_app, <- !app_assoc. reflexivity.
Qed.

Lemma rule_prefix r1 r2 t1 t2 :
  s2l (Json.stringify (ruleJson r1)) ++ t1 = s2l (Json.stringify (ruleJson r2)) ++ t2 ->
  r1 = r2 /\ t1 = t2.
Proof.
  rewrite !rule_text, <- !app_assoc. intros Heq.
  apply app_inv_head in Heq. apply quote_prefix in Heq as [Hp Heq].
  apply app_inv_head in Heq. apply quote_prefix in Heq as [Ha Heq].
  apply app_inv_head in Heq. apply actionName_inj in Ha.
  destruct r1, r2; cbn in *. by subst.
Qed.

Lemma join_cons_text p rest t :
  s2l (Str.join "," (p :: rest)) ++ t
  = s2l p ++ match rest with
             | [] => t
             | _ => "," %char :: s2l (Str.join "," rest) ++ t
             end.
Proof.
  destruct rest as [|q rest]; [done|].
  change (Str.join "," (p :: q :: rest)) with (p +:+ "," +:+ Str.join "," (q :: rest)).
  rewrite !s2l_app, <- !app_assoc. reflexivity.
Qed.

Lemma rules_text_inj (R1 R2 : list PiiRule.t) :
  s2l (Str.join "," (map Json.stringify (map ruleJson R1))) ++ ["]"%char]
  = s2l (Str.join "," (map Json.stringify (map ruleJson R2))) ++ ["]"%char] ->
  R1 = R2.
Proof.
  revert R2. induction R1 as [|x R1 IH]; intros [|y R2]; [done | | |].
  - cbn [map]. rewrite join_cons_text, rule_text. discriminate.
  - cbn [map]. rewrite join_cons_text, rule_text. discriminate.
  - cbn [map]. rewrite !join_cons_text. intros Heq.
    apply rule_prefix in Heq as [<- Heq]. f_equal.
    destruct R1 as [|x1 R1], R2 as [|y1 R2]; [done | discriminate | discriminate |].
    injection Heq as Heq. by apply IH.
Qed.

Lemma rules_json_inj (R1 R2 : list PiiRule.t) :
  Json.stringify (JArr (map ruleJson R1)) = Json.stringify (JArr (map ruleJson R2)) ->
  R1 = R2.
Proof.
  cbn [Json.stringify]. intros Heq. apply (f_equal s2l) in Heq.
  rewrite !s2l_app in Heq. apply app_inv_head in Heq.
  by apply rules_text_inj.
Qed.

(** ** Cache keys *)

Lemma key_text a b c d e f :
  s2l (getCacheKey [a; b; c; d; e; f])
  = ((((s2l a ++ bar_char :: s2l b) ++ bar_char :: s2l c) ++ bar_char :: s2l d)
     ++ bar_char :: s2l e) ++ bar_char :: s2l f.
Proof.
  unfold getCacheKey.
  change (Str.join "|" [a; b; c; d; e; f])
    with (a +:+ "|" +:+ b +:+ "|" +:+ c +:+ "|" +:+ d +:+ "|" +:+ e +:+ "|" +:+ f).
  rewrite !s2l_app, <- !app_assoc. reflexivity.
Qed.

Lemma flag_suffix (u1 u2 p : list ascii) (f1 f2 : bool) :
  (u1 ++ bar_char :: p)
  ++ bar_char :: s2l (if f1 then "pii-unmasked" else "pii-masked")
  = (u2 ++ bar_char :: p)
    ++ bar_char :: s2l (if f2 then "pii-unmasked" else "pii-masked") ->
  u1 = u2 /\ f1 = f2.
Proof.
  intros Heq.
  assert (f1 = f2) as <-.
  { apply (f_equal (@rev ascii)) in Heq.
    rewrite !rev_app_distr in Heq.
    destruct f1, f2; [done | | | done]; cbn in Heq; discriminate. }
  split; [|done]. apply app_inv_tail in Heq. by apply app_inv_tail in Heq.
Qed.

(** Equal keys of two searches on the same index pattern come from the
    same caller scope, the same masking variant and the same rules. *)
Lemma getCacheKey_fields (u1 u2 p : string) (f1 f2 : bool)
    (R1 R2 : list PiiRule.t) (b1 b2 : json) :
  getCacheKey
    ["search"; u1; p; if f1 then "pii-unmasked" else "pii-masked";
     Json.stringify (JArr (map ruleJson R1)); Json.stringify b1]
  = getCacheKey
      ["search"; u2; p; if f2 then "pii-unmasked" else "pii-masked";
       Json.stringify (JArr (map ruleJson R2)); Json.stringify b2] ->
  u1 = u2 /\ f1 = f2 /\ R1 = R2.
Proof.
  intros Heq. apply (f_equal s2l) in Heq. rewrite !key_text in Heq.
  apply balanced_suffix in Heq as [Heq _]; [|apply stringify_balanced..].
  apply balanced_suffix in Heq as [Heq HR]; [|apply stringify_balanced..].
  apply s2l_inj, rules_json_inj in HR.
  rewrite <- !(app_assoc (s2l "search")) in Heq.
  apply app_inv_head in Heq. cbn [app] in Heq.
  rewrite !app_comm_cons in Heq.
  change (bar_char :: s2l u1) with ([bar_char] ++ s2l u1) in Heq.
  change (bar_char :: s2l u2) with ([bar_char] ++ s2l u2) in Heq.
  rewrite <- !(app_assoc [bar_char]) in Heq.
  apply app_inv_head in Heq.
  apply flag_suffix in Heq as [Hu Hf].
  split; [by apply s2l_inj | done].
Qed.

Lemma cache_get_In key c e : Cache.get key c = Some e -> In (key, e) c.
Proof.
  induction c as [|[k e'] c IH]; cbn; [done|].
  destruct (String.eqb_spec key k) as [->|]; [intros [= ->]; by left | auto].
Qed.

Lemma cache_set_In key key1 e e1 c :
  key <> key1 -> In (key, e) (Cache.set key1 e1 c) -> In (key, e) c.
Proof.
  intros Hne. induction c as [|[k e'] c IH]; cbn.
  - intros [[= -> ->] | []]. done.
  - destruct (String.eqb_spec key1 k) as [->|]; cbn.
    + intros [[= -> ->] | H]; [done | by right].
    + intros [H | H]; [by left | right; auto].
Qed.

Lemma cache_delete_In key key1 e c :
  In (key, e) (Cache.delete key1 c) -> In (key, e) c.
Proof.
  induction c as [|[k e'] c IH]; cbn; [done|].
  destruct (String.eqb_spec key1 k) as [->|]; cbn; [by right|].
  intros [H | H]; [by left | right; auto].
Qed.

Lemma cacheGet_In ttl now key c served :
  fst (cacheGet ttl now key c) = Some served ->
  exists e, In (key, e) c /\ Cache.value e = served.
Proof.
  unfold cacheGet. destruct (ttl =? 0); [done|].
  destruct (Cache.get key c) as [e|] eqn:He; [|done].
  destruct (Cache.expiresAt e <? now); [done|].
  cbn. intros [= <-]. exists e. split; [by apply cache_get_In | done].
Qed.

Lemma cacheSet_In ttl maxEntries now key key1 value e c :
  key <> key1 -> In (key, e) (cacheSet ttl maxEntries now key1 value c) ->
  In (key, e) c.
Proof.
  intros Hne. unfold cacheSet. destruct (ttl =? 0); [done|].
  destruct (maxEntries <? _).
  - destruct (Cache.set key1 _ c) as [|[k0 e0] c'] eqn:Hset.
    + done.
    + intros H. apply cache_delete_In in H. rewrite <- Hset in H.
      by apply cache_set_In in H.
  - by apply cache_set_In.
Qed.

(** C1. Two searches on the same index pattern, whatever their bodies:
    when the two callers are authenticated users with different ids, or
    differ in the effective [piiUnmasked] flag, or the PII rule lists
    of the two requests differ, the two cache keys differ.  Hence what
    the cache serves under the second key after the first was stored is
    an entry that was already there under the second key, never the
    value stored for the first caller. *)
Theorem C1_cache_key_isolation (srv1 srv2 : Server.t) (now1 now2 : Z)
    (req1 req2 : SearchReq.t) :
  SearchReq.indexPattern req1 = SearchReq.indexPattern req2 ->
  (authEnabled (Server.users srv1) = true
   /\ authEnabled (Server.users srv2) = true
   /\ exists u1 u2,
        SearchReq.user req1 = Some u1
        /\ SearchReq.user req2 = Some u2
        /\ User.id u1 <> User.id u2)
  \/ Features.piiUnmasked (requestFeatures srv1 (SearchReq.user req1))
     <> Features.piiUnmasked (requestFeatures srv2 (SearchReq.user req2))
  \/ AppConfig.piiFieldRules (Server.appConfig srv1)
     <> AppConfig.piiFieldRules (Server.appConfig srv2) ->
  let key1 := searchCacheKey srv1 now1 req1 in
  let key2 := searchCacheKey srv2 now2 req2 in
  key1 <> key2
  /\ forall ttl maxEntries t t' value cache served,
       fst (cacheGet ttl t' key2 (cacheSet ttl maxEntries t key1 value cache))
       = Some served ->
       exists entry, In (key2, entry) cache /\ Cache.value entry = served.
Proof.
  intros Hidx Hdiff key1 key2.
  assert (key1 <> key2) as Hne.
  { intros Heq. unfold key1, key2, searchCacheKey in Heq. rewrite Hidx in Heq.
    apply getCacheKey_fields in Heq as (Hu & Hf & HR).
    destruct Hdiff as [(Ha1 & Ha2 & u1 & u2 & Hu1 & Hu2 & Hid) | [H | H]];
      [|by apply H..].
    unfold searchUserKey in Hu. rewrite Hu1, Hu2, Ha1, Ha2 in Hu. by apply Hid. }
  split; [done|].
  intros ttl maxEntries t t' value cache served Hget.
  apply cacheGet_In in Hget as (e & Hin & Hv).
  exists e. split; [|done]. eapply cacheSet_In; [|exact Hin]. congruence.
Qed.

Lemma C1_cache_key_isolation_witness :
  searchCacheKey Sample.teamCore Sample.T Sample.search
  <> searchCacheKey Sample.teamCore (Sample.T + 1000) Sample.searchByDave.
Proof.
  refine (proj1 (C1_cache_key_isolation Sample.teamCore Sample.teamCore
                   Sample.T (Sample.T + 1000) Sample.search Sample.searchByDave
                   eq_refl _)).
  left. split; [reflexivity|]. split; [reflexivity|].
  exists Sample.bob, Sample.dave. split; [reflexivity|]. split; [reflexivity|].
  discriminate.
Defined.

(** [bob] searches first and his masked result is cached; the same
    search by [dave], who is served masked values as well, one second
    later is not served from it: the engine is called again. *)
Example second_user_misses_first_entry :
  snd (searchHandler 15000 500 Sample.engine (Sample.T + 1000) (Sample.T + 1001)
         (fst (searchHandler 15000 500 Sample.engine Sample.T (Sample.T + 1)
                 Sample.teamCore Sample.search))
         Sample.searchByDave)
  = [OpenSearchSearch "logs-app" false (SearchReq.body Sample.searchByDave);
     Respond 200 (JObj [("hits", JObj [("hits", JArr [Sample.hit "[masked]"])])])].
Proof. by vm_compute. Qed.

(** [alice] searches first and her unmasked result is cached; the same
    search by [bob] one second later is not served from it: the engine
    is called again and [bob] gets the masked result. *)
Example masked_caller_misses_unmasked_entry :
  snd (searchHandler 15000 500 Sample.engine Sample.T (Sample.T + 1)
         Sample.shared Sample.searchByAlice)
  = [OpenSearchSearch "logs-app" false (SearchReq.body Sample.searchByAlice);
     Respond 200 (JObj [("hits", JObj [("hits", JArr [Sample.hit "a@b.com"])])])]
  /\ snd (searchHandler 15000 500 Sample.engine (Sample.T + 1000) (Sample.T + 1001)
            (fst (searchHandler 15000 500 Sample.engine Sample.T (Sample.T + 1)
                    Sample.shared Sample.searchByAlice))
            Sample.search)
     = [OpenSearchSearch "logs-app" false (SearchReq.body Sample.search);
        Respond 200 (JObj [("hits", JObj [("hits", JArr [Sample.hit "[masked]"])])])].
Proof. split; by vm_compute. Qed.

(* ================================================================== *)
(** * Part III: further properties of the code                        *)
(* ================================================================== *)

(** ** The response cache *)

Lemma cache_get_set_eq key e c : Cache.get key (Cache.set key e c) = Some e.
Proof.
  induction c as [|[k e'] c IH]; cbn.
  - by rewrite String.eqb_refl.
  - destruct (String.eqb_spec key k) as [->|Hne]; cbn.
    + by rewrite String.eqb_refl.
    + by destruct (String.eqb_spec key k).
Qed.

Lemma cache_get_set_ne key key' e c :
  key <> key' -> Cache.get key' (Cache.set key e c) = Cache.get key' c.
Proof.
  intros Hne. induction c as [|[k e'] c IH]; cbn.
  - by destruct (String.eqb_spec key' key).
  - destruct (String.eqb_spec key k) as [->|Hk]; cbn.
    + destruct (String.eqb_spec key' k); [by subst | done].
    + destruct (String.eqb_spec key' k); [done | apply IH].
Qed.

Lemma cache_get_delete_ne key key' c :
  key <> key' -> Cache.get key' (Cache.delete key c) = Cache.get key' c.
Proof.
  intros Hne. induction c as [|[k e] c IH]; cbn; [done|].
  destruct (String.eqb_spec key k) as [->|Hk]; cbn.
  - destruct (String.eqb_spec key' k); [by subst | done].
  - destruct (String.eqb_spec key' k); [done | apply IH].
Qed.

Lemma cache_get_None_keys key c :
  Cache.get key c = None <-> ~ In key (map fst c).
Proof.
  induction c as [|[k e] c IH]; cbn; [tauto|].
  destruct (String.eqb_spec key k) as [->|Hk].
  - split; [done | intros H; exfalso; apply H; by left].
  - rewrite IH. split; [intros H [?|?]; [by subst | done] | tauto].
Qed.

Lemma cache_get_delete_eq key c :
  NoDup (map fst c) -> Cache.get key (Cache.delete key c) = None.
Proof.
  induction c as [|[k e] c IH]; cbn; [done|].
  intros Hnd. apply NoDup_cons in Hnd as [Hk Hnd].
  destruct (String.eqb_spec key k) as [->|Hne].
  - apply cache_get_None_keys. by rewrite <- list_elem_of_In.
  - cbn. destruct (String.eqb_spec key k); [done | by apply IH].
Qed.

Lemma cache_set_present key e c :
  In key (map fst c) ->
  map fst (Cache.set key e c) = map fst c.
Proof.
  induction c as [|[k e'] c IH]; cbn; [done|].
  destruct (String.eqb_spec key k) as [->|Hne]; cbn; [done|].
  intros [?|Hin]; [by subst|]. by rewrite IH.
Qed.

Lemma cache_set_absent key e c :
  ~ In key (map fst c) -> Cache.set key e c = c ++ [(key, e)].
Proof.
  induction c as [|[k e'] c IH]; cbn; [done|].
  intros Hn. destruct (String.eqb_spec key k) as [->|Hne].
  - exfalso. apply Hn. by left.
  - rewrite IH; [done | tauto].
Qed.

Lemma cache_delete_keys key c :
  NoDup (map fst c) -> NoDup (map fst (Cache.delete key c)).
Proof.
  induction c as [|[k e] c IH]; cbn; [done|].
  intros Hnd. apply NoDup_cons in Hnd as [Hk Hnd].
  destruct (String.eqb key k); cbn; [done|].
  apply NoDup_cons. split; [|by apply IH].
  intros Hin. apply Hk. rewrite list_elem_of_In in Hin. rewrite list_elem_of_In.
  apply in_map_iff in Hin as ([k' e'] & Heq & Hin). cbn in Heq. subst k'.
  apply in_map_iff. exists (k, e'). split; [done|].
  by eapply cache_delete_In.
Qed.

Lemma cache_delete_length key c : (length (Cache.delete key c) <= length c)%nat.
Proof.
  induction c as [|[k e] c IH]; cbn; [done|].
  destruct (String.eqb key k); cbn; lia.
Qed.

Lemma cache_set_keys key e c :
  NoDup (map fst c) -> NoDup (map fst (Cache.set key e c)).
Proof.
  intros Hnd. destruct (in_dec String.string_dec key (map fst c)) as [Hin|Hn].
  - by rewrite cache_set_present.
  - rewrite cache_set_absent, map_app by done. cbn.
    apply NoDup_app. split; [done|]. split; [|apply NoDup_singleton].
    intros x Hx Hx'. apply list_elem_of_singleton in Hx' as ->.
    apply Hn. by rewrite <- list_elem_of_In.
Qed.

Lemma cache_set_length key e c :
  length (Cache.set key e c)
  = if in_dec String.string_dec key (map fst c) then length c else S (length c).
Proof.
  destruct (in_dec String.string_dec key (map fst c)) as [Hin|Hn].
  - rewrite <- (length_map fst (Cache.set key e c)), cache_set_present by done.
    by rewrite length_map.
  - rewrite cache_set_absent, length_app by done. cbn. lia.
Qed.

Section CacheFacts.

Variables CACHE_TTL_MS CACHE_MAX_ENTRIES : Z.

(** What [cacheSet] stores is found under its key. *)
Lemma cacheSet_get (t : Z) (key : string) (value : json) (cache : Cache.t) :
  CACHE_TTL_MS <> 0 ->
  1 <= CACHE_MAX_ENTRIES ->
  Z.of_nat (length cache) <= CACHE_MAX_ENTRIES ->
  Cache.get key (cacheSet CACHE_TTL_MS CACHE_MAX_ENTRIES t key value cache)
  = Some (Cache.mk value (t + CACHE_TTL_MS)).
Proof.
  intros Httl Hmax Hlen.
  unfold cacheSet. apply Z.eqb_neq in Httl as ->.
  destruct (CACHE_MAX_ENTRIES <? _) eqn:Hfull; [|apply cache_get_set_eq].
  apply Z.ltb_lt in Hfull. rewrite cache_set_length in Hfull.
  destruct (in_dec String.string_dec key (map fst cache)) as [Hin|Hn]; [lia|].
  rewrite cache_set_absent by done.
  destruct cache as [|[k0 e0] cache]; [cbn in Hfull; lia|].
  cbn [app]. rewrite cache_get_delete_ne.
  - rewrite app_comm_cons, <- cache_set_absent by done.
    apply cache_get_set_eq.
  - intros ->. apply Hn. by left.
Qed.

(** X1. What was stored is served until it expires: with caching on, room
    for at least one entry and a cache within its bound, a value stored
    at [t] is returned for the same key at any time up to
    [t + CACHE_TTL_MS], the last millisecond included. *)
Theorem cache_roundtrip (t t' : Z) (key : string) (value : json) (cache : Cache.t) :
  CACHE_TTL_MS <> 0 ->
  1 <= CACHE_MAX_ENTRIES ->
  Z.of_nat (length cache) <= CACHE_MAX_ENTRIES ->
  t' <= t + CACHE_TTL_MS ->
  fst (cacheGet CACHE_TTL_MS t' key
         (cacheSet CACHE_TTL_MS CACHE_MAX_ENTRIES t key value cache))
  = Some value.
Proof.
  intros Httl Hmax Hlen Ht.
  unfold cacheGet. rewrite cacheSet_get by done.
  apply Z.eqb_neq in Httl as ->. cbn.
  by replace (t + CACHE_TTL_MS <? t') with false by (symmetry; lia).
Qed.

(** X2. The cache keeps its bound and its keys stay distinct: storing
    into a cache with at most [CACHE_MAX_ENTRIES] entries under
    distinct keys leaves such a cache, and so does reading. *)
Theorem cache_bounded (t : Z) (key : string) (value : json) (cache : Cache.t) :
  NoDup (map fst cache) ->
  Z.of_nat (length cache) <= CACHE_MAX_ENTRIES ->
  let stored := cacheSet CACHE_TTL_MS CACHE_MAX_ENTRIES t key value cache in
  let read := snd (cacheGet CACHE_TTL_MS t key cache) in
  NoDup (map fst stored)
  /\ Z.of_nat (length stored) <= CACHE_MAX_ENTRIES
  /\ NoDup (map fst read)
  /\ Z.of_nat (length read) <= CACHE_MAX_ENTRIES.
Proof.
  intros Hnd Hlen stored read.
  assert (NoDup (map fst stored) /\ Z.of_nat (length stored) <= CACHE_MAX_ENTRIES)
    as [H1 H2].
  { unfold stored, cacheSet. destruct (CACHE_TTL_MS =? 0); [done|].
    pose proof (cache_set_keys key (Cache.mk value (t + CACHE_TTL_MS)) cache Hnd)
      as Hnd'.
    pose proof (cache_set_length key (Cache.mk value (t + CACHE_TTL_MS)) cache)
      as Hlen'.
    destruct (CACHE_MAX_ENTRIES <? _) eqn:Hfull.
    - apply Z.ltb_lt in Hfull.
      destruct (Cache.set key _ cache) as [|[k0 e0] c'] eqn:Hset.
      + cbn [length] in Hlen', Hfull. destruct (in_dec _ _ _); lia.
      + split; [by apply cache_delete_keys|].
        cbn [Cache.delete]. rewrite String.eqb_refl.
        cbn [length] in Hlen'. destruct (in_dec _ _ _); lia.
    - apply Z.ltb_ge in Hfull. done. }
  assert (NoDup (map fst read) /\ Z.of_nat (length read) <= CACHE_MAX_ENTRIES)
    as [H3 H4].
  { unfold read, cacheGet. destruct (CACHE_TTL_MS =? 0); [done|].
    destruct (Cache.get key cache) as [e|]; [|done].
    destruct (Cache.expiresAt e <? t); [|done]. cbn.
    split; [by apply cache_delete_keys|].
    pose proof (cache_delete_length key cache). lia. }
  done.
Qed.

(** X3. An expired entry is not served and is removed by the read that
    finds it; the other keys are not touched. *)
Theorem cache_expiry (now : Z) (key : string) (entry : Cache.entry) (cache : Cache.t) :
  CACHE_TTL_MS <> 0 ->
  NoDup (map fst cache) ->
  Cache.get key cache = Some entry ->
  Cache.expiresAt entry < now ->
  fst (cacheGet CACHE_TTL_MS now key cache) = None
  /\ Cache.get key (snd (cacheGet CACHE_TTL_MS now key cache)) = None
  /\ forall other,
       other <> key ->
       Cache.get other (snd (cacheGet CACHE_TTL_MS now key cache))
       = Cache.get other cache.
Proof.
  intros Httl Hnd Hget Hexp. unfold cacheGet.
  apply Z.eqb_neq in Httl as ->. rewrite Hget.
  apply Z.ltb_lt in Hexp as ->. cbn.
  split; [done|]. split; [by apply cache_get_delete_eq|].
  intros other Hne. by apply cache_get_delete_ne.
Qed.

(** X4. Eviction follows insertion, not use: storing a new key into a
    full cache drops the entry stored first and appends the new one,
    and a hit leaves the order of the cache as it is. *)
Theorem cache_evicts_oldest (t : Z) (key : string) (value : json)
    (oldest : string * Cache.entry) (rest : Cache.t) :
  CACHE_TTL_MS <> 0 ->
  ~ In key (map fst (oldest :: rest)) ->
  Z.of_nat (length (oldest :: rest)) = CACHE_MAX_ENTRIES ->
  cacheSet CACHE_TTL_MS CACHE_MAX_ENTRIES t key value (oldest :: rest)
  = rest ++ [(key, Cache.mk value (t + CACHE_TTL_MS))]
  /\ forall now k served,
       fst (cacheGet CACHE_TTL_MS now k (oldest :: rest)) = Some served ->
       snd (cacheGet CACHE_TTL_MS now k (oldest :: rest)) = oldest :: rest.
Proof.
  intros Httl Hn Hlen. split.
  - unfold cacheSet. apply Z.eqb_neq in Httl as ->.
    rewrite cache_set_absent by done. rewrite length_app. cbn [length app].
    replace (CACHE_MAX_ENTRIES <? _) with true
      by (symmetry; apply Z.ltb_lt; cbn [length] in Hlen; lia).
    destruct oldest as [k0 e0]. cbn [Cache.delete]. by rewrite String.eqb_refl.
  - intros now k served. unfold cacheGet.
    destruct (CACHE_TTL_MS =? 0); [done|].
    destruct (Cache.get k (oldest :: rest)) as [e|]; [|done].
    by destruct (Cache.expiresAt e <? now).
Qed.

End CacheFacts.

Lemma cache_roundtrip_witness :
  fst (cacheGet 15000 (Sample.T + 15000) "k"
         (cacheSet 15000 500 Sample.T "k" (JStr "v") []))
  = Some (JStr "v").
Proof. apply cache_roundtrip; [lia | lia | cbn; lia | lia]. Defined.

Lemma cache_bounded_witness :
  NoDup (map fst (cacheSet 15000 1 Sample.T "b" (JStr "v")
                    [("a", Cache.mk JNull 0)]))
  /\ Z.of_nat (length (cacheSet 15000 1 Sample.T "b" (JStr "v")
                         [("a", Cache.mk JNull 0)])) <= 1.
Proof.
  pose proof (cache_bounded 15000 1 Sample.T "b" (JStr "v")
                [("a", Cache.mk JNull 0)]) as H.
  cbv zeta in H. refine (let H' := H _ _ in conj (proj1 H') (proj1 (proj2 H'))).
  - apply NoDup_singleton.
  - cbn. lia.
Defined.

Lemma cache_expiry_witness :
  fst (cacheGet 15000 (Sample.T + 1) "a" [("a", Cache.mk JNull Sample.T)]) = None
  /\ Cache.get "a"
       (snd (cacheGet 15000 (Sample.T + 1) "a" [("a", Cache.mk JNull Sample.T)]))
     = None.
Proof.
  refine (let H := cache_expiry 15000 (Sample.T + 1) "a" (Cache.mk JNull Sample.T)
                     [("a", Cache.mk JNull Sample.T)] _ _ _ _ in
          conj (proj1 H) (proj1 (proj2 H))).
  - lia.
  - apply NoDup_singleton.
  - reflexivity.
  - cbn. lia.
Defined.

Lemma cache_evicts_oldest_witness :
  cacheSet 15000 2 Sample.T "c" (JStr "v")
    [("a", Cache.mk JNull 0); ("b", Cache.mk JNull 0)]
  = [("b", Cache.mk JNull 0); ("c", Cache.mk (JStr "v") (Sample.T + 15000))].
Proof.
  refine (proj1 (cache_evicts_oldest 15000 2 Sample.T "c" (JStr "v")
                   ("a", Cache.mk JNull 0) [("b", Cache.mk JNull 0)] _ _ _)).
  - lia.
  - cbn. intros [H | [H | []]]; discriminate.
  - reflexivity.
Defined.

(** ** What masking leaves in place *)

Lemma maskEntries_keys path ms entries :
  sublist (map fst (maskEntries path ms entries)) (map fst entries).
Proof.
  induction entries as [|[key val] rest IH]; cbn [maskEntries map fst].
  - constructor.
  - destruct (applyPiiRules val (childPath path key) ms); cbn [map fst].
    + by apply sublist_skip.
    + by apply sublist_cons.
Qed.

(** X5. Masking never adds to a document.  Whatever the rules, an object
    is removed, replaced by "[masked]", or comes back as an object
    whose keys are a subsequence of its own keys: no new key, no key
    moved.  An array is removed, replaced by "[masked]", or comes back
    as an array that is not longer. *)
Theorem masking_never_adds (path : string) (matchers : list PiiMatcher.t) :
  (forall entries,
     applyPiiRules (JObj entries) path matchers = None
     \/ applyPiiRules (JObj entries) path matchers = Some (JStr "[masked]")
     \/ exists out,
          applyPiiRules (JObj entries) path matchers = Some (JObj out)
          /\ sublist (map fst out) (map fst entries))
  /\ (forall items,
        applyPiiRules (JArr items) path matchers = None
        \/ applyPiiRules (JArr items) path matchers = Some (JStr "[masked]")
        \/ exists out,
             applyPiiRules (JArr items) path matchers = Some (JArr out)
             /\ (length out <= length items)%nat).
Proof.
  split.
  - intros entries. rewrite applyPiiRules_unfold.
    destruct (getPiiAction path matchers) as [[]|]; auto.
    right. right. eexists. split; [done|]. apply maskEntries_keys.
  - intros items. rewrite applyPiiRules_unfold.
    destruct (getPiiAction path matchers) as [[]|]; auto.
    right. right. eexists. split; [done|]. apply maskItems_length.
Qed.

Lemma maskHit_other matchers hit k :
  k <> "_source" -> Json.get k (maskHit matchers hit) = Json.get k hit.
Proof.
  intros Hk. unfold maskHit. destruct hit as [| | | | |entries]; try done.
  destruct (Json.assoc "_source" entries) as [source|]; [|done].
  destruct (Json.truthy source); [|done].
  cbn [Json.get]. apply assoc_set_ne. congruence.
Qed.

Lemma applyPiiRulesToHits_lookup hits rules i hit :
  hits !! i = Some hit ->
  exists hit',
    applyPiiRulesToHits hits rules !! i = Some hit'
    /\ forall k, k <> "_source" -> Json.get k hit' = Json.get k hit.
Proof.
  intros Hi. unfold applyPiiRulesToHits.
  destruct hits as [|h0 hs]; [done|].
  destruct (buildPiiMatchers rules) as [|m ms]; [by exists hit|].
  exists (maskHit (m :: ms) hit). split.
  - by rewrite list_lookup_fmap, Hi.
  - intros k Hk. by apply maskHit_other.
Qed.

Lemma applyPiiRulesToHits_length hits rules :
  length (applyPiiRulesToHits hits rules) = length hits.
Proof.
  unfold applyPiiRulesToHits. destruct hits as [|h0 hs]; [done|].
  destruct (buildPiiMatchers rules); [done|]. apply length_map.
Qed.

(** X6. Masking a search response touches the sources only.  The response
    keeps every member beside [hits], [hits] keeps every member beside
    its list of hits, the list keeps its length, and each hit keeps
    every member beside [_source], at its position. *)
Theorem masking_keeps_envelope (data : json) (rules : list PiiRule.t)
    (hitsObj : list (string * json)) (hits : list json) :
  Json.get "hits" data = Some (JObj hitsObj) ->
  Json.assoc "hits" hitsObj = Some (JArr hits) ->
  exists hitsObj' hits',
    Json.get "hits" (maskSearchResponse data rules) = Some (JObj hitsObj')
    /\ Json.assoc "hits" hitsObj' = Some (JArr hits')
    /\ length hits' = length hits
    /\ (forall k, k <> "hits" ->
          Json.get k (maskSearchResponse data rules) = Json.get k data)
    /\ (forall k, k <> "hits" -> Json.assoc k hitsObj' = Json.assoc k hitsObj)
    /\ (forall i hit,
          hits !! i = Some hit ->
          exists hit',
            hits' !! i = Some hit'
            /\ forall k, k <> "_source" -> Json.get k hit' = Json.get k hit).
Proof.
  intros Hdata Hhits. unfold maskSearchResponse. rewrite Hdata, Hhits.
  destruct data as [| | | | |entries]; try done. cbn [Json.get Json.spread] in *.
  eexists _, _. split; [apply assoc_set_eq|]. split; [apply assoc_set_eq|].
  split; [apply applyPiiRulesToHits_length|].
  split; [intros k Hk; apply assoc_set_ne; congruence|].
  split; [intros k Hk; apply assoc_set_ne; congruence|].
  intros i hit Hi. by apply applyPiiRulesToHits_lookup.
Qed.

Lemma masking_keeps_envelope_witness :
  exists hitsObj' hits',
    Json.get "hits"
      (maskSearchResponse
         (JObj [("took", JNum 3);
                ("hits", JObj [("total", JNum 1);
                               ("hits", JArr [Sample.hit "a@b.com"])])])
         [PiiRule.mk "user.email" hide])
    = Some (JObj hitsObj')
    /\ Json.assoc "hits" hitsObj' = Some (JArr hits')
    /\ length hits' = 1%nat.
Proof.
  destruct (masking_keeps_envelope
              (JObj [("took", JNum 3);
                     ("hits", JObj [("total", JNum 1);
                                    ("hits", JArr [Sample.hit "a@b.com"])])])
              [PiiRule.mk "user.email" hide]
              [("total", JNum 1); ("hits", JArr [Sample.hit "a@b.com"])]
              [Sample.hit "a@b.com"] eq_refl eq_refl)
    as (hitsObj' & hits' & H1 & H2 & H3 & _).
  by exists hitsObj', hits'.
Defined.

(** ** Index options *)

(** X7. The index options offered to a caller are the ones a search would
    be allowed on: an option stays in the list exactly when the pattern
    before its bar passes [isIndexPatternAllowed], and, for a caller
    with an allow-list, is not empty. *)
Theorem index_options_match_access (appConfig : AppConfig.t) (user : option User.t)
    (options : list string) (raw : string) :
  In raw (filterIndexOptionsForUser appConfig user options)
  <-> In raw options
      /\ isIndexPatternAllowed appConfig user (optionPattern raw) = true
      /\ (getAllowedIndexPatterns appConfig user = []
          \/ optionPattern raw <> EmptyString).
Proof.
  unfold filterIndexOptionsForUser, isIndexPatternAllowed.
  destruct user as [u|]; [|cbn; tauto].
  destruct (is_admin u) eqn:Hadmin.
  { unfold getAllowedIndexPatterns. rewrite Hadmin. tauto. }
  destruct (bool_decide (getAllowedIndexPatterns appConfig (Some u) = [])) eqn:He.
  { apply bool_decide_eq_true in He. tauto. }
  apply bool_decide_eq_false in He.
  rewrite filter_In.
  destruct (Str.is_empty (optionPattern raw)) eqn:Hp.
  - apply is_empty_true in Hp. split; [intros [_ ?]; done|].
    intros (_ & _ & [? | ?]); done.
  - apply is_empty_false in Hp. tauto.
Qed.

(** ** Features and teams *)

Lemma anyTeam_incl featureToggles flag teams1 teams2 :
  (forall team, In team teams1 -> In team teams2) ->
  anyTeam featureToggles flag teams1 = true ->
  anyTeam featureToggles flag teams2 = true.
Proof.
  intros Hincl. unfold anyTeam. rewrite !existsb_true_In.
  intros (team & Hin & Hf). exists team. auto.
Qed.

Lemma getUserFeatures_anyTeam users featureToggles u :
  authEnabled users = true ->
  getUserFeatures users featureToggles (Some u)
  = Features.mk
      (anyTeam featureToggles Features.exports (User.teams u))
      (anyTeam featureToggles Features.bookmarks (User.teams u))
      (anyTeam featureToggles Features.rules (User.teams u))
      (anyTeam featureToggles Features.queryBuilder (User.teams u))
      (anyTeam featureToggles Features.limitTo7Days (User.teams u))
      (anyTeam featureToggles Features.piiUnmasked (User.teams u))
      (anyTeam featureToggles Features.showFullResults (User.teams u)).
Proof.
  intros Hauth. unfold getUserFeatures. rewrite Hauth. cbn [negb].
  by rewrite getUserFeatures_fold.
Qed.

(** X8. The features of a caller depend on the set of the caller's teams
    only, and grow with it: a flag that is on stays on when teams are
    added, the 7-day limit included, and two callers with the same
    teams, in any order and with any repetition, have the same
    features. *)
Theorem features_grow_with_teams (users : list User.t)
    (featureToggles : gmap string Features.t) (u1 u2 : User.t) :
  (forall team, In team (User.teams u1) -> In team (User.teams u2)) ->
  let f1 := getUserFeatures users featureToggles (Some u1) in
  let f2 := getUserFeatures users featureToggles (Some u2) in
  (Features.exports f1 = true -> Features.exports f2 = true)
  /\ (Features.bookmarks f1 = true -> Features.bookmarks f2 = true)
  /\ (Features.rules f1 = true -> Features.rules f2 = true)
  /\ (Features.queryBuilder f1 = true -> Features.queryBuilder f2 = true)
  /\ (Features.limitTo7Days f1 = true -> Features.limitTo7Days f2 = true)
  /\ (Features.piiUnmasked f1 = true -> Features.piiUnmasked f2 = true)
  /\ (Features.showFullResults f1 = true -> Features.showFullResults f2 = true)
  /\ ((forall team, In team (User.teams u2) -> In team (User.teams u1)) -> f1 = f2).
Proof.
  intros Hincl f1 f2. unfold f1, f2.
  destruct (authEnabled users) eqn:Hauth.
  - rewrite !getUserFeatures_anyTeam by done. cbn.
    repeat (split; [by apply anyTeam_incl|]).
    intros Hincl'.
    assert (forall flag,
              anyTeam featureToggles flag (User.teams u1)
              = anyTeam featureToggles flag (User.teams u2)) as Heq.
    { intros flag. apply eq_true_iff_eq. split; by apply anyTeam_incl. }
    by rewrite !Heq.
  - unfold getUserFeatures. rewrite Hauth. cbn. tauto.
Qed.

Lemma features_grow_with_teams_witness :
  Features.piiUnmasked
    (getUserFeatures [Sample.bob; Sample.alice]
       {[ "audit" := Features.mk true true true true false true false ]}
       (Some (User.mk "u-4" "carol" viewer ["core"; "audit"]))) = true.
Proof.
  refine (proj1 (proj2 (proj2 (proj2 (proj2 (proj2
            (features_grow_with_teams [Sample.bob; Sample.alice]
               {[ "audit" := Features.mk true true true true false true false ]}
               Sample.alice (User.mk "u-4" "carol" viewer ["core"; "audit"]) _))))))
            _).
  - cbn. tauto.
  - by vm_compute.
Defined.

(** ** Time filters *)

(** X9. The time filters never take the single-field form.
    [getIndexTimeFields] always returns the two default fields, after
    the configured one if there is one, so both filters are a [bool]
    with one [should] clause per field and [minimum_should_match] 1. *)
Theorem time_filters_use_should (appConfig : AppConfig.t) (now : Z)
    (indexPattern : string) (start end_ : json) :
  let fields := getIndexTimeFields appConfig indexPattern in
  (exists configured,
     fields = configured ++ ["timestamp"; "@timestamp"]
     /\ (length configured <= 1)%nat)
  /\ buildRecentOnlyFilter appConfig now indexPattern
     = JObj [("bool",
              JObj [("should",
                     JArr (map (fun field =>
                                  JObj [("range",
                                         JObj [(field,
                                                JObj [("gte", JStr (getRecentCutoffIso now));
                                                      ("format",
                                                       JStr "strict_date_optional_time")])])])
                             fields));
                    ("minimum_should_match", JNum 1)])]
  /\ buildTimeRangeFilter appConfig indexPattern start end_
     = JObj [("bool",
              JObj [("should",
                     JArr (map (fun field =>
                                  JObj [("range",
                                         JObj [(field,
                                                JObj [("gte", start); ("lte", end_);
                                                      ("format",
                                                       JStr "strict_date_optional_time")])])])
                             fields));
                    ("minimum_should_match", JNum 1)])].
Proof.
  intros fields.
  assert (exists configured,
            fields = configured ++ ["timestamp"; "@timestamp"]
            /\ (length configured <= 1)%nat) as (configured & Hf & Hlen).
  { unfold fields, getIndexTimeFields.
    destruct (find _ _) as [setting|]; [|exists []; split; [done | cbn; lia]].
    destruct (negb _); [|exists []; split; [done | cbn; lia]].
    exists [IndexPatternSetting.timeField setting]. split; [done | cbn; lia]. }
  split; [by exists configured|].
  unfold buildRecentOnlyFilter, buildTimeRangeFilter. fold fields. rewrite Hf.
  destruct configured as [|c [|c' rest]]; [done | done | cbn in Hlen; lia].
Qed.

(** X10. Whatever the query of a caller limited to seven days, the rewritten
    query is an object whose [bool] holds a [filter] array that ends
    with the recent-only filter. *)
Theorem recent_filter_always_last (appConfig : AppConfig.t) (now : Z)
    (query : option json) (indexPattern : string) :
  exists top b fs,
    applyRecentOnlyFilterToQuery appConfig now query indexPattern = JObj top
    /\ Json.assoc "bool" top = Some (JObj b)
    /\ Json.assoc "filter" b
       = Some (JArr (fs ++ [buildRecentOnlyFilter appConfig now indexPattern])).
Proof.
  unfold applyRecentOnlyFilterToQuery.
  set (recent := buildRecentOnlyFilter appConfig now indexPattern).
  destruct query as [q|]; [|by eexists _, _, []].
  destruct (negb (Json.truthy q) || negb (Json.typeof_object q));
    [by eexists _, _, []|].
  destruct (Json.get "bool" q) as [b|]; [|by eexists _, _, []].
  destruct (Json.truthy b && Json.typeof_object b); [|by eexists _, _, []].
  destruct (Json.assoc "filter" (Json.spread b)) as [f|].
  - destruct f as [| | | |fs|];
      try (destruct (Json.truthy _);
           [eexists _, _, [_] | eexists _, _, []];
           (split; [done|]); (split; [apply assoc_set_eq|]); apply assoc_set_eq).
    eexists _, _, fs. split; [done|]. split; [apply assoc_set_eq|].
    apply assoc_set_eq.
  - eexists _, _, []. split; [done|]. split; [apply assoc_set_eq|].
    apply assoc_set_eq.
Qed.

(** ** Hour keys *)

Lemma str_take_app_ge (n : nat) (p x : string) :
  (n <= String.length p)%nat -> Str.take n (p +:+ x) = Str.take n p.
Proof.
  revert p. induction n as [|n IH]; intros [|c p] Hlen; cbn in Hlen; try lia; try done.
  rewrite str_app_cons. cbn [Str.take]. f_equal. apply IH. lia.
Qed.

Lemma repeat_length (c : ascii) (n : nat) : String.length (Str.repeat c n) = n.
Proof. induction n as [|n IH]; cbn; [done | by rewrite IH]. Qed.

Lemma pad_length (w : nat) (n : Z) : (w <= String.length (Str.pad w n))%nat.
Proof. unfold Str.pad. rewrite str_length_app, repeat_length. lia. Qed.

Lemma year_string_length (y : Z) : (4 <= String.length (Time.year_string y))%nat.
Proof.
  unfold Time.year_string. destruct ((0 <=? y) && (y <=? 9999)).
  - apply pad_length.
  - rewrite str_length_app. pose proof (pad_length 6 (Z.abs y)). lia.
Qed.

(** The hour key of a time is fixed by its day and its hour of the
    day. *)
Lemma getHourKey_eq (t t' : Z) :
  t / Time.day = t' / Time.day ->
  (t mod Time.day) / Time.hour = (t' mod Time.day) / Time.hour ->
  getHourKey t = getHourKey t'.
Proof.
  intros Hday Hhour. unfold getHourKey, Time.toISOString. rewrite Hday, Hhour.
  destruct (Time.civil_from_days (t' / Time.day)) as [[y m] d].
  pose proof (year_string_length y) as Hy.
  pose proof (pad_length 2 m) as Hm.
  pose proof (pad_length 2 d) as Hd.
  pose proof (pad_length 2 (t' mod Time.day / Time.hour)) as Hh.
  generalize dependent (Time.year_string y). intros Y HY.
  generalize dependent (Str.pad 2 m). intros M HM.
  generalize dependent (Str.pad 2 d). intros D HD.
  generalize dependent (Str.pad 2 (t' mod Time.day / Time.hour)). intros H HH.
  generalize (Str.pad 2 (t mod Time.day / Time.minute mod 60) +:+ ":" +:+
              Str.pad 2 (t mod Time.day / Time.second mod 60) +:+ "." +:+
              Str.pad 3 (t mod Time.day mod 1000) +:+ "Z").
  generalize (Str.pad 2 (t' mod Time.day / Time.minute mod 60) +:+ ":" +:+
              Str.pad 2 (t' mod Time.day / Time.second mod 60) +:+ "." +:+
              Str.pad 3 (t' mod Time.day mod 1000) +:+ "Z").
  intros tail' tail.
  assert (forall x, Y +:+ "-" +:+ M +:+ "-" +:+ D +:+ "T" +:+ H +:+ ":" +:+ x
                    = (Y +:+ "-" +:+ M +:+ "-" +:+ D +:+ "T" +:+ H) +:+ ":" +:+ x)
    as Hsplit.
  { intros x. by rewrite !str_app_assoc. }
  rewrite !Hsplit.
  rewrite (str_take_app_ge 13 _ (":" +:+ tail)),
    (str_take_app_ge 13 _ (":" +:+ tail')); [done|..];
    rewrite !str_length_app; cbn [String.length]; lia.
Qed.

Lemma getHourKey_floor (t : Z) : getHourKey (t - t mod Time.hour) = getHourKey t.
Proof.
  assert (Time.day = 24 * Time.hour) as Hd by reflexivity.
  assert (0 < Time.hour) as Hh by reflexivity.
  pose proof (Z.div_mod t Time.day ltac:(rewrite Hd; lia)) as Ht.
  pose proof (Z.mod_pos_bound t Time.day ltac:(rewrite Hd; lia)) as Hr.
  pose proof (Z.div_mod (t mod Time.day) Time.hour ltac:(lia)) as Hs.
  pose proof (Z.mod_pos_bound (t mod Time.day) Time.hour Hh) as Hs'.
  assert (0 <= t mod Time.day / Time.hour < 24) as Hh24.
  { split; [apply Z.div_pos; lia | apply Z.div_lt_upper_bound; lia]. }
  set (q := t / Time.day) in *. set (r := t mod Time.day) in *.
  set (h := r / Time.hour) in *. set (s := r mod Time.hour) in *.
  assert (t mod Time.hour = s) as Hmod.
  { symmetry. apply (Z.mod_unique_pos _ _ (24 * q + h)); [lia|]. rewrite Ht, Hs, Hd.
    ring. }
  rewrite Hmod.
  assert ((t - s) / Time.day = q) as Hq.
  { symmetry. apply (Z.div_unique_pos _ _ _ (Time.hour * h)); [|rewrite Ht at 1; lia].
    rewrite Hd in *. lia. }
  assert ((t - s) mod Time.day = Time.hour * h) as Hr'.
  { symmetry. apply (Z.mod_unique_pos _ _ q); [|rewrite Ht at 1; lia].
    rewrite Hd in *. lia. }
  apply getHourKey_eq.
  - by rewrite Hq.
  - rewrite Hr'. rewrite Z.mul_comm, Z.div_mul by lia. done.
Qed.

(** ** Metrics *)

(** X11. The activity feed holds at most 500 entries, the newest first:
    after a search or an export is recorded the feed starts with the
    entry of that request, stamped with the time of the record and
    attributed to "public" when the request has no user, followed by
    the entries it held before, as far as 500 reach. *)
Theorem activity_feed_bounded (now : Z) (query ip indexPattern user format : string)
    (size : Z) (metrics : Metrics.t) :
  let searched := recordSearch now query ip indexPattern user metrics in
  let exported := recordExport now format ip indexPattern size query user metrics in
  (length (Metrics.activity searched) <= 500)%nat
  /\ (length (Metrics.activity exported) <= 500)%nat
  /\ Metrics.activity searched
     = take 500
         (Activity.mk (Time.toISOString now) "search" (or_else query "(match_all)")
            EmptyString 0 indexPattern (or_else user "public") ip EmptyString
          :: Metrics.activity metrics)
  /\ Metrics.activity exported
     = take 500
         (Activity.mk (Time.toISOString now) "export" query format size indexPattern
            (or_else user "public") ip EmptyString
          :: Metrics.activity metrics).
Proof.
  intros searched exported.
  assert (forall s, or_else (or_else s "public") "public" = or_else s "public") as Hor.
  { intros [|c s]; reflexivity. }
  assert (Metrics.activity searched
          = take 500
              (Activity.mk (Time.toISOString now) "search" (or_else query "(match_all)")
                 EmptyString 0 indexPattern (or_else user "public") ip EmptyString
               :: Metrics.activity metrics)) as Hs.
  { unfold searched, recordSearch, logActivity.
    cbn [Metrics.activity Activity.query Activity.format Activity.size
         Activity.indexPattern Activity.user Activity.ip Activity.message].
    by rewrite Hor. }
  assert (Metrics.activity exported
          = take 500
              (Activity.mk (Time.toISOString now) "export" query format size indexPattern
                 (or_else user "public") ip EmptyString
               :: Metrics.activity metrics)) as He.
  { unfold exported, recordExport, logActivity.
    cbn [Metrics.activity Activity.query Activity.format Activity.size
         Activity.indexPattern Activity.user Activity.ip Activity.message].
    by rewrite Hor. }
  split; [rewrite Hs, length_take; lia|].
  split; [rewrite He, length_take; lia|].
  done.
Qed.

Lemma ceil_div60_one (w : Z) : 0 < w <= 60 -> ceil_div60 w = 1.
Proof. intros Hw. pose proof (ceil_div60_spec w). lia. Qed.

(** X12. A recorded search is counted at once, where local time is a
    whole number of hours from UTC.  For a window of up to 60 minutes
    and a query that does not name a member of [Object.prototype], the
    count the alert scheduler reads at the time of the record is one
    more than before when the query is the recorded one, which is
    "(match_all)" when the request carried none, and the same as before
    when it is another one. *)
Theorem recorded_search_is_counted (zone now : Z) (query ip indexPattern user : string)
    (metrics : Metrics.t) (counted : string) (windowMinutes : Z) :
  zone mod Time.hour = 0 ->
  isPrototypeMember counted = false ->
  0 < windowMinutes <= 60 ->
  getQueryCountSince (recordSearch now query ip indexPattern user metrics) zone now
    counted windowMinutes
  = getQueryCountSince metrics zone now counted windowMinutes
    + (if String.eqb counted (or_else query "(match_all)") then 1 else 0).
Proof.
  intros Hzone _ Hw. unfold getQueryCountSince. rewrite ceil_div60_one by done.
  change (seq 0 (Z.to_nat 1)) with [0%nat]. cbn [fold_left].
  change (Z.of_nat 0 * Time.hour) with 0.
  rewrite Z.sub_0_r, startOfLocalHour_whole, getHourKey_floor by done.
  unfold recordSearch, logActivity. cbn [Metrics.hourlyQueries].
  rewrite lookup_insert_eq. cbn [default from_option id]. unfold bump.
  destruct (String.eqb_spec counted (or_else query "(match_all)")) as [->|Hne].
  - rewrite lookup_insert_eq. cbn [default from_option id]. lia.
  - rewrite lookup_insert_ne by done. lia.
Qed.

Lemma recorded_search_is_counted_witness :
  getQueryCountSince
    (recordSearch Sample.T "error" "10.0.0.7" "logs-app" "bob" Sample.metrics)
    (2 * Time.hour) Sample.T "error" 60
  = getQueryCountSince Sample.metrics (2 * Time.hour) Sample.T "error" 60
    + (if String.eqb "error" (or_else "error" "(match_all)") then 1 else 0).
Proof. apply recorded_search_is_counted; [reflexivity | reflexivity | lia]. Defined.

(** Half an hour off the whole hours it is not: at [T], five minutes
    into the UTC hour, the search goes into the bucket of 07 and the
    count reads the bucket of 06. *)
Example recorded_search_missed_off_the_hour :
  getQueryCountSince
    (recordSearch Sample.T "error" "10.0.0.7" "logs-app" "bob" Sample.metrics)
    (330 * Time.minute) Sample.T "error" 60
  = getQueryCountSince Sample.metrics (330 * Time.minute) Sample.T "error" 60.
Proof. by vm_compute. Qed.

(** X13. An export is never counted as a search: recording one leaves every
    count the alert scheduler reads, and the number of searches of every
    day and of every hour, as they were. *)
Theorem exports_are_not_counted (now : Z) (format ip indexPattern : string) (size : Z)
    (query user : string) (metrics : Metrics.t) :
  let after := recordExport now format ip indexPattern size query user metrics in
  (forall zone t counted windowMinutes,
     getQueryCountSince after zone t counted windowMinutes
     = getQueryCountSince metrics zone t counted windowMinutes)
  /\ (forall dayKey,
        Day.searches (default Day.empty (Metrics.byDate after !! dayKey))
        = Day.searches (default Day.empty (Metrics.byDate metrics !! dayKey)))
  /\ (forall hourKey,
        HourTotals.searches
          (default HourTotals.empty (Metrics.hourlyTotals after !! hourKey))
        = HourTotals.searches
            (default HourTotals.empty (Metrics.hourlyTotals metrics !! hourKey))).
Proof.
  intros after. split; [|split].
  - intros zone t counted windowMinutes. unfold getQueryCountSince.
    unfold after, recordExport, logActivity. by cbn [Metrics.hourlyQueries].
  - intros dayKey. unfold after, recordExport, logActivity. cbn [Metrics.byDate].
    destruct (decide (getTodayKey now = dayKey)) as [<-|Hne].
    + by rewrite lookup_insert_eq.
    + by rewrite lookup_insert_ne.
  - intros hourKey. unfold after, recordExport, logActivity.
    cbn [Metrics.hourlyTotals].
    destruct (decide (getHourKey now = hourKey)) as [<-|Hne].
    + by rewrite lookup_insert_eq.
    + by rewrite lookup_insert_ne.
Qed.

(** X14. The hourly series has one point per hour asked for, oldest first.
    Where local time is a whole number of hours from UTC its last point
    is the current hour: right after a search is recorded, that point
    shows one search more than the totals of the hour held before, and
    the same exports. *)
Theorem hourly_series_ends_now (zone now : Z) (query ip indexPattern user : string)
    (metrics : Metrics.t) (hours : Z) :
  0 < hours ->
  zone mod Time.hour = 0 ->
  let before :=
    default HourTotals.empty (Metrics.hourlyTotals metrics !! getHourKey now) in
  let series :=
    getRecentHourlySeries (recordSearch now query ip indexPattern user metrics)
      zone now hours in
  length series = Z.to_nat hours
  /\ last series
     = Some (HourPoint.mk (getHourKey now) (HourTotals.searches before + 1)
               (HourTotals.exports before)).
Proof.
  intros Hhours Hzone before series. unfold series, getRecentHourlySeries.
  split; [by rewrite length_map, length_rev, length_seq|].
  destruct (Z.to_nat hours) as [|n] eqn:Hn; [lia|].
  rewrite <- cons_seq. cbn [rev]. rewrite map_app. cbn [map].
  rewrite last_snoc. f_equal.
  change (Z.of_nat 0 * Time.hour) with 0.
  rewrite Z.sub_0_r, startOfLocalHour_whole, getHourKey_floor by done.
  unfold recordSearch, logActivity. cbn [Metrics.hourlyTotals].
  by rewrite lookup_insert_eq.
Qed.

Lemma hourly_series_ends_now_witness :
  last (getRecentHourlySeries
          (recordSearch Sample.T "error" "10.0.0.7" "logs-app" "bob" Sample.metrics)
          (- (5 * Time.hour)) Sample.T 24)
  = Some (HourPoint.mk (getHourKey Sample.T)
            (HourTotals.searches
               (default HourTotals.empty
                  (Metrics.hourlyTotals Sample.metrics !! getHourKey Sample.T)) + 1)
            (HourTotals.exports
               (default HourTotals.empty
                  (Metrics.hourlyTotals Sample.metrics !! getHourKey Sample.T)))).
Proof.
  refine (proj2 (hourly_series_ends_now (- (5 * Time.hour)) Sample.T "error" "10.0.0.7"
                   "logs-app" "bob" Sample.metrics 24 _ _)).
  - lia.
  - reflexivity.
Defined.

(** ** What a pass of the alert scheduler can change *)

Lemma sendAlertEmail_thrown appConfig env sendMail subject text to mail message :
  sendAlertEmail appConfig env sendMail subject text to = (mail, Thrown message) ->
  exists m, mail = Some m.
Proof.
  unfold sendAlertEmail. destruct (_ || _); [done|].
  destruct (sendMail _); intros [= <- ?]; eauto.
Qed.

Section AlertFrame.

Variable appConfig : AppConfig.t.
Variable env : ProcessEnv.t.
Variable sendMail : Mail.t -> option string.

Lemma checkRule_frame now seen st rule :
  let after := checkRule appConfig env sendMail now seen st rule in
  exists calls handed errors,
    Alerts.calls after = Alerts.calls st ++ calls
    /\ Alerts.handed after = Alerts.handed st ++ handed
    /\ Alerts.errors after = Alerts.errors st ++ errors
    /\ (length errors <= length handed <= length calls)%nat
    /\ (length calls <= 1)%nat
    /\ forall id,
         Alerts.lastTriggeredAt after !! id = Alerts.lastTriggeredAt st !! id
         \/ (Alerts.lastTriggeredAt after !! id = Some now /\ id = AlertRule.id rule).
Proof.
  intros after. unfold after, checkRule.
  assert (exists calls handed errors,
            Alerts.calls st = Alerts.calls st ++ calls
            /\ Alerts.handed st = Alerts.handed st ++ handed
            /\ Alerts.errors st = Alerts.errors st ++ errors
            /\ (length errors <= length handed <= length calls)%nat
            /\ (length calls <= 1)%nat
            /\ forall id,
                 Alerts.lastTriggeredAt st !! id = Alerts.lastTriggeredAt st !! id
                 \/ (Alerts.lastTriggeredAt st !! id = Some now
                     /\ id = AlertRule.id rule)) as Hsame.
  { exists [], [], []. rewrite !app_nil_r. repeat split; auto; cbn; lia. }
  destruct (Str.is_empty _ || _); [exact Hsame|].
  destruct (_ && _); [|exact Hsame].
  destruct (sendAlertEmail _ _ _ _ _ _) as [mail [b|message]] eqn:Hsend.
  - eexists [_], (option_list mail), [].
    cbn [Alerts.calls Alerts.handed Alerts.errors Alerts.lastTriggeredAt].
    rewrite app_nil_r. repeat split; try done.
    + cbn. lia.
    + destruct mail; cbn; lia.
    + intros id. destruct (decide (AlertRule.id rule = id)) as [<-|Hne].
      * right. by rewrite lookup_insert_eq.
      * left. by rewrite lookup_insert_ne.
  - apply sendAlertEmail_thrown in Hsend as [m ->].
    eexists [_], [m], [_].
    cbn [Alerts.calls Alerts.handed Alerts.errors Alerts.lastTriggeredAt option_list].
    repeat split; try done; auto.
Qed.

(** X15. A pass of [runRuleChecks] only adds to the record.  It makes at
    most one call of [sendAlertEmail] per rule, hands at most one
    message to the transport per call and logs at most one error per
    message handed; what was recorded before stays in front.  The time
    of the last alert of an id is what it was, or, for the id of a rule
    of the pass, the time of the pass. *)
Theorem runRuleChecks_frame (now : Z) (seen : nat -> Observed.t)
    (rules : list AlertRule.t) (st : Alerts.t) :
  let after := runRuleChecks appConfig env sendMail now seen rules st in
  exists calls handed errors,
    Alerts.calls after = Alerts.calls st ++ calls
    /\ Alerts.handed after = Alerts.handed st ++ handed
    /\ Alerts.errors after = Alerts.errors st ++ errors
    /\ (length errors <= length handed <= length calls)%nat
    /\ (length calls <= length rules)%nat
    /\ forall id,
         Alerts.lastTriggeredAt after !! id = Alerts.lastTriggeredAt st !! id
         \/ (Alerts.lastTriggeredAt after !! id = Some now
             /\ In id (map AlertRule.id rules)).
Proof.
  intros after. unfold after, runRuleChecks. clear after. generalize 0%nat as i.
  revert st. induction rules as [|rule rest IH]; intros st i.
  - exists [], [], []. cbn. rewrite !app_nil_r. repeat split; auto.
  - rewrite runRuleChecks_from_cons.
    destruct (checkRule_frame now (seen i) st rule)
      as (c1 & h1 & e1 & Hc1 & Hh1 & He1 & Hl1 & Hn1 & Ht1).
    destruct (IH (checkRule appConfig env sendMail now (seen i) st rule) (S i))
      as (c2 & h2 & e2 & Hc2 & Hh2 & He2 & Hl2 & Hn2 & Ht2).
    exists (c1 ++ c2), (h1 ++ h2), (e1 ++ e2).
    rewrite Hc2, Hh2, He2, Hc1, Hh1, He1, <- !app_assoc, !length_app.
    repeat split; try done; try lia.
    + cbn [length]. lia.
    + intros id. destruct (Ht2 id) as [-> | [-> Hin]].
      * destruct (Ht1 id) as [-> | [-> ->]]; [by left|]. right. split; [done|].
        by left.
      * right. split; [done|]. by right.
Qed.

End AlertFrame.

(** X16. No message is handed to the mail transport without a host, a
    recipient and a sender.  The recipient is the address of the rule
    when the rule has one; the connection is secure exactly on port
    465; the message carries the subject and the text it was given; and
    the call throws exactly when the transport rejects the message. *)
Theorem alert_mail_is_complete (appConfig : AppConfig.t) (env : ProcessEnv.t)
    (sendMail : Mail.t -> option string) (subject text to : string)
    (mail : Mail.t) (outcome : Outcome bool) :
  sendAlertEmail appConfig env sendMail subject text to = (Some mail, outcome) ->
  Mail.host mail <> EmptyString
  /\ Mail.to mail <> EmptyString
  /\ Mail.from mail <> EmptyString
  /\ (to <> EmptyString -> Mail.to mail = to)
  /\ Mail.subject mail = subject
  /\ Mail.text mail = text
  /\ Mail.secure mail = (Mail.port mail =? 465)
  /\ outcome = match sendMail mail with
               | None => Returned true
               | Some message => Thrown message
               end.
Proof.
  unfold sendAlertEmail.
  destruct (Str.is_empty (or_else (AppConfig.smtpHost appConfig) _)) eqn:Hhost;
    [done|].
  destruct (Str.is_empty (or_else to _)) eqn:Hto; [done|].
  destruct (Str.is_empty (or_else (AppConfig.alertEmailFrom appConfig) _)) eqn:Hfrom;
    [done|].
  cbn [orb]. apply is_empty_false in Hhost, Hto, Hfrom.
  match goal with
  | |- context [sendMail ?m] => set (sent := m)
  end.
  destruct (sendMail sent) eqn:Hsent; intros [= <- <-]; rewrite Hsent;
    (repeat split; try done; intros Hne; unfold sent; cbn [Mail.to];
     destruct to; done).
Qed.

Lemma alert_mail_is_complete_witness :
  exists mail,
    fst (sendAlertEmail Sample.mailConfig Sample.env Sample.accept "s" "t"
           "oncall@example.org")
    = Some mail
    /\ Mail.to mail = "oncall@example.org".
Proof.
  eexists. split; [reflexivity|].
  refine (proj1 (proj2 (proj2 (proj2
            (alert_mail_is_complete Sample.mailConfig Sample.env Sample.accept
               "s" "t" "oncall@example.org" _ _ eq_refl)))) _).
  discriminate.
Defined.

(** ** The search handler *)

Lemma maskSearchResponse_truthy data rules :
  Json.truthy data = true -> Json.truthy (maskSearchResponse data rules) = true.
Proof.
  intros Hd. unfold maskSearchResponse.
  destruct (Json.get "hits" data) as [[| | | | |hitsObj]|]; try done.
  by destruct (Json.assoc "hits" hitsObj) as [[| | | |hits|]|].
Qed.

Lemma cacheGet_length ttl now key cache :
  (length (snd (cacheGet ttl now key cache)) <= length cache)%nat.
Proof.
  unfold cacheGet. destruct (ttl =? 0); [done|].
  destruct (Cache.get key cache) as [e|]; [|done].
  destruct (Cache.expiresAt e <? now); [|done]. apply cache_delete_length.
Qed.

Section SearchHandlerFacts.

Variables CACHE_TTL_MS CACHE_MAX_ENTRIES : Z.
Variable opensearch : string -> json -> Upstream.

(** X17. Every search request is answered exactly once, and the answer is
    the last thing the handler does; the search engine is called at
    most once; and the configuration, the users and the feature toggles
    of the server are left as they are. *)
Theorem search_responds_once (t0 t1 : Z) (srv : Server.t) (req : SearchReq.t) :
  let result :=
    searchHandler CACHE_TTL_MS CACHE_MAX_ENTRIES opensearch t0 t1 srv req in
  (exists before status body,
     snd result = before ++ [Respond status body]
     /\ existsb isResponse before = false
     /\ (length (List.filter isUpstreamCall before) <= 1)%nat)
  /\ Server.appConfig (fst result) = Server.appConfig srv
  /\ Server.users (fst result) = Server.users srv
  /\ Server.featureToggles (fst result) = Server.featureToggles srv.
Proof.
  intros result. unfold result, searchHandler.
  destruct (_ && negb _).
  { split; [|done]. eexists [], _, _. split; [done|]. split; [done|]. cbn. lia. }
  destruct (cacheGet _ _ _ _) as [cached cache1].
  destruct (Json.truthy_opt cached).
  { split; [|done]. eexists [], _, _. split; [done|]. split; [done|]. cbn. lia. }
  destruct (opensearch _ _) as [data|response message].
  - split; [|done]. eexists [_], _, _. split; [done|]. split; [done|]. cbn. lia.
  - split; [|done]. eexists [_; _; _], _, _. split; [done|]. split; [done|].
    cbn. lia.
Qed.

(** X18. A search the engine fails leaves nothing behind: it is not
    recorded in the metrics, nothing is stored in the cache, and the
    client gets the status of the engine, or 500 when the engine sent
    none, with the error "Search failed". *)
Theorem failed_search_not_recorded (t0 t1 : Z) (srv : Server.t) (req : SearchReq.t)
    (response : option (Z * json)) (message : string) :
  searchAdmitted srv req = true ->
  Json.truthy_opt
    (fst (cacheGet CACHE_TTL_MS t0 (searchCacheKey srv t0 req)
            (Server.responseCache srv))) = false ->
  opensearch (SearchReq.indexPattern req) (searchEffectiveBody srv t0 req)
  = UpstreamError response message ->
  let result :=
    searchHandler CACHE_TTL_MS CACHE_MAX_ENTRIES opensearch t0 t1 srv req in
  Server.metrics (fst result) = Server.metrics srv
  /\ (forall key entry,
        In (key, entry) (Server.responseCache (fst result)) ->
        In (key, entry) (Server.responseCache srv))
  /\ exists before detail,
       snd result
       = before
         ++ [Respond
               match response with
               | Some (code, _) => if code =? 0 then 500 else code
               | None => 500
               end
               (JObj (("error", JStr "Search failed") :: detail))]
       /\ existsb isResponse before = false.
Proof.
  intros Hadm Hmiss Hup result. unfold result, searchHandler.
  unfold searchAdmitted in Hadm. apply negb_true_iff in Hadm. rewrite Hadm.
  destruct (cacheGet CACHE_TTL_MS t0 (searchCacheKey srv t0 req)
              (Server.responseCache srv)) as [cached cache1] eqn:Hget.
  cbn [fst] in Hmiss. rewrite Hmiss, Hup. cbn [fst snd Server.metrics
    Server.responseCache].
  split; [done|]. split.
  - intros key entry Hin.
    assert (cache1 = snd (cacheGet CACHE_TTL_MS t0 (searchCacheKey srv t0 req)
                            (Server.responseCache srv))) as -> by by rewrite Hget.
    revert Hin. unfold cacheGet. destruct (CACHE_TTL_MS =? 0); [done|].
    destruct (Cache.get _ _) as [e|]; [|done].
    destruct (Cache.expiresAt e <? t0); [|done]. apply cache_delete_In.
  - by eexists [_; _; _], _.
Qed.

Lemma searchCacheKey_later (srv : Server.t) (req : SearchReq.t) (t t' : Z)
    (metrics : Metrics.t) (cache : Cache.t) :
  Features.limitTo7Days (requestFeatures srv (SearchReq.user req)) = false ->
  searchCacheKey
    (Server.mk (Server.appConfig srv) (Server.users srv) (Server.featureToggles srv)
       metrics cache) t' req
  = searchCacheKey srv t req.
Proof.
  intros Hlimit. unfold searchCacheKey, searchEffectiveBody, searchUserKey,
    requestFeatures in *.
  cbn [Server.appConfig Server.users Server.featureToggles]. by rewrite Hlimit.
Qed.

(** X19. A search repeated within the time to live is served from the
    cache.  When a first search of a caller who is not limited to seven
    days misses the cache and is answered by the engine, the same
    request made again up to [CACHE_TTL_MS] after the answer gets the
    same response without a call of the engine, and is not recorded in
    the metrics. *)
Theorem repeated_search_is_cached (t0 t1 t2 t3 : Z) (srv : Server.t)
    (req : SearchReq.t) (data : json) :
  CACHE_TTL_MS <> 0 ->
  1 <= CACHE_MAX_ENTRIES ->
  Z.of_nat (length (Server.responseCache srv)) <= CACHE_MAX_ENTRIES ->
  searchAdmitted srv req = true ->
  Features.limitTo7Days (requestFeatures srv (SearchReq.user req)) = false ->
  Json.truthy_opt
    (fst (cacheGet CACHE_TTL_MS t0 (searchCacheKey srv t0 req)
            (Server.responseCache srv))) = false ->
  opensearch (SearchReq.indexPattern req) (searchEffectiveBody srv t0 req)
  = UpstreamOk data ->
  Json.truthy data = true ->
  t2 <= t1 + CACHE_TTL_MS ->
  let first :=
    searchHandler CACHE_TTL_MS CACHE_MAX_ENTRIES opensearch t0 t1 srv req in
  let second :=
    searchHandler CACHE_TTL_MS CACHE_MAX_ENTRIES opensearch t2 t3 (fst first) req in
  exists answer,
    snd first
    = [OpenSearchSearch (SearchReq.indexPattern req) false
         (searchEffectiveBody srv t0 req);
       Respond 200 answer]
    /\ snd second = [Respond 200 answer]
    /\ Server.metrics (fst second) = Server.metrics (fst first).
Proof.
  intros Httl Hmax Hlen Hadm Hlimit Hmiss Hup Hdata Ht first second.
  pose proof Hadm as Hadm'. unfold searchAdmitted in Hadm'.
  apply negb_true_iff in Hadm'.
  pose proof (cacheGet_length CACHE_TTL_MS t0 (searchCacheKey srv t0 req)
                (Server.responseCache srv)) as Hlen1.
  assert (exists answer cache1,
            first
            = (Server.mk (Server.appConfig srv) (Server.users srv)
                 (Server.featureToggles srv)
                 (recordSearch t1 (extractQueryString (SearchReq.body req))
                    (SearchReq.ip req) (SearchReq.indexPattern req)
                    (match SearchReq.user req with
                     | Some u => or_else (User.username u) "public"
                     | None => "public"
                     end)
                    (Server.metrics srv))
                 (cacheSet CACHE_TTL_MS CACHE_MAX_ENTRIES t1
                    (searchCacheKey srv t0 req) answer cache1),
               [OpenSearchSearch (SearchReq.indexPattern req) false
                  (searchEffectiveBody srv t0 req);
                Respond 200 answer])
            /\ Json.truthy answer = true
            /\ (length cache1 <= length (Server.responseCache srv))%nat)
    as (answer & cache1 & Hfirst & Hanswer & Hlen1').
  { unfold first, searchHandler. rewrite Hadm'.
    destruct (cacheGet CACHE_TTL_MS t0 (searchCacheKey srv t0 req)
                (Server.responseCache srv)) as [cached cache1].
    cbn [fst snd] in Hmiss, Hlen1. rewrite Hmiss, Hup.
    eexists _, cache1. split; [done|]. split; [|done].
    destruct (Features.piiUnmasked _); [done|]. by apply maskSearchResponse_truthy. }
  exists answer. split; [by rewrite Hfirst|].
  assert (second = (fst first, [Respond 200 answer])) as Hsecond.
  { unfold second. rewrite Hfirst. cbn [fst]. unfold searchHandler.
    cbn [Server.appConfig Server.users Server.featureToggles Server.responseCache
         Server.metrics].
    assert (requestFeatures
              (Server.mk (Server.appConfig srv) (Server.users srv)
                 (Server.featureToggles srv)
                 (recordSearch t1 (extractQueryString (SearchReq.body req))
                    (SearchReq.ip req) (SearchReq.indexPattern req)
                    (match SearchReq.user req with
                     | Some u => or_else (User.username u) "public"
                     | None => "public"
                     end)
                    (Server.metrics srv))
                 (cacheSet CACHE_TTL_MS CACHE_MAX_ENTRIES t1
                    (searchCacheKey srv t0 req) answer cache1))
              (SearchReq.user req)
            = requestFeatures srv (SearchReq.user req)) as -> by reflexivity.
    rewrite Hadm', (searchCacheKey_later srv req t0 t2) by done.
    unfold cacheGet. apply Z.eqb_neq in Httl as Httl'. rewrite Httl'.
    rewrite cacheSet_get by (try done; lia). cbn [Cache.expiresAt Cache.value].
    replace (t1 + CACHE_TTL_MS <? t2) with false by (symmetry; lia).
    cbn [Json.truthy_opt]. rewrite Hanswer. by cbn [default from_option id]. }
  by rewrite Hsecond.
Qed.

End SearchHandlerFacts.

Lemma failed_search_not_recorded_witness :
  Server.metrics
    (fst (searchHandler 15000 500 (fun _ _ => UpstreamError None "timeout")
            Sample.T (Sample.T + 1) Sample.withBob Sample.search))
  = Server.metrics Sample.withBob.
Proof.
  refine (proj1 (failed_search_not_recorded 15000 500
                   (fun _ _ => UpstreamError None "timeout")
                   Sample.T (Sample.T + 1) Sample.withBob Sample.search
                   None "timeout" _ _ _)); by vm_compute.
Defined.

Lemma repeated_search_is_cached_witness :
  exists answer,
    snd (searchHandler 15000 500 Sample.engine (Sample.T + 15001) (Sample.T + 15002)
           (fst (searchHandler 15000 500 Sample.engine Sample.T (Sample.T + 1)
                   Sample.withBob Sample.search))
           Sample.search)
    = [Respond 200 answer].
Proof.
  destruct (repeated_search_is_cached 15000 500 Sample.engine
              Sample.T (Sample.T + 1) (Sample.T + 15001) (Sample.T + 15002)
              Sample.withBob Sample.search
              (JObj [("hits", JObj [("hits", JArr [Sample.hit "a@b.com"])])]))
    as (answer & _ & Hsecond & _); try (by vm_compute); try lia.
  by exists answer.
Defined.

(** ** Login tokens *)

Lemma token_get_set_eq token e s : Token.get token (Token.set token e s) = Some e.
Proof.
  induction s as [|[k e'] s IH]; cbn.
  - by rewrite String.eqb_refl.
  - destruct (String.eqb_spec token k) as [->|Hne]; cbn.
    + by rewrite String.eqb_refl.
    + by destruct (String.eqb_spec token k).
Qed.

Lemma token_get_delete_ne token token' s :
  token <> token' -> Token.get token' (Token.delete token s) = Token.get token' s.
Proof.
  intros Hne. induction s as [|[k e] s IH]; cbn; [done|].
  destruct (String.eqb_spec token k) as [->|Hk]; cbn.
  - destruct (String.eqb_spec token' k); [by subst | done].
  - destruct (String.eqb_spec token' k); [done | apply IH].
Qed.

Lemma token_get_None token s : Token.get token s = None <-> ~ In token (map fst s).
Proof.
  induction s as [|[k e] s IH]; cbn; [tauto|].
  destruct (String.eqb_spec token k) as [->|Hk].
  - split; [done | intros H; exfalso; apply H; by left].
  - rewrite IH. split; [intros H [?|?]; [by subst | done] | tauto].
Qed.

Lemma token_get_delete_eq token s :
  NoDup (map fst s) -> Token.get token (Token.delete token s) = None.
Proof.
  induction s as [|[k e] s IH]; cbn; [done|].
  intros Hnd. apply NoDup_cons in Hnd as [Hk Hnd].
  destruct (String.eqb_spec token k) as [->|Hne].
  - apply token_get_None. by rewrite <- list_elem_of_In.
  - cbn. destruct (String.eqb_spec token k); [done | by apply IH].
Qed.

Lemma prefix_app (p s : string) : String.prefix p (p +:+ s) = true.
Proof.
  induction p as [|a p IH].
  - rewrite str_app_nil_l. by destruct s.
  - rewrite str_app_cons. cbn [String.prefix]. by destruct (ascii_dec a a).
Qed.

Lemma prefix_split (p s : string) :
  String.prefix p s = true -> s = p +:+ Str.drop (String.length p) s.
Proof.
  revert s. induction p as [|a p IH]; intros s Hp.
  - rewrite str_app_nil_l. by destruct s.
  - destruct s as [|b s]; [discriminate Hp|]. cbn [String.prefix] in Hp.
    destruct (ascii_dec a b) as [->|]; [|discriminate Hp].
    rewrite str_app_cons. cbn [String.length Str.drop]. f_equal. by apply IH.
Qed.

Lemma bearer_prefix (token : string) :
  String.prefix "Bearer " ("Bearer " +:+ token) = true
  /\ Str.drop 7 ("Bearer " +:+ token) = token.
Proof.
  split; [apply prefix_app|]. by rewrite !str_app_cons, str_app_nil_l.
Qed.

Lemma bearer_split (header : string) :
  String.prefix "Bearer " header = true ->
  header = "Bearer " +:+ Str.drop 7 header.
Proof. apply prefix_split. Qed.

(** X20. [requireAuth] lets a request through as a user exactly when the
    header is "Bearer " followed by a token of the store that has not
    expired, the millisecond of the expiry included, and whose user
    still exists; a request that is let through leaves the store as it
    is. *)
Theorem requireAuth_accepts (users : list User.t) (now : Z) (authorization : string)
    (tokenStore : Token.store) (user : User.t) :
  (fst (requireAuth users now authorization tokenStore) = Some user
   <-> exists token entry,
         authorization = "Bearer " +:+ token
         /\ Token.get token tokenStore = Some entry
         /\ now <= Token.expiresAt entry
         /\ find (fun u => String.eqb (User.id u) (Token.userId entry)) users
            = Some user)
  /\ (fst (requireAuth users now authorization tokenStore) = Some user ->
      snd (requireAuth users now authorization tokenStore) = tokenStore).
Proof.
  unfold requireAuth, getUserForToken. split.
  - split.
    + destruct (String.prefix "Bearer " authorization) eqn:Hp; [|done].
      destruct (Token.get _ tokenStore) as [entry|] eqn:Hget; [|done].
      destruct (Token.expiresAt entry <? now) eqn:Hexp; [done|].
      cbn [fst]. intros Hfind.
      exists (Str.drop 7 authorization), entry.
      split; [by apply bearer_split|]. split; [done|].
      split; [lia | done].
    + intros (token & entry & -> & Hget & Hnow & Hfind).
      destruct (bearer_prefix token) as [-> ->]. rewrite Hget.
      by replace (Token.expiresAt entry <? now) with false by (symmetry; lia).
  - destruct (String.prefix "Bearer " authorization); [|done].
    destruct (Token.get _ tokenStore) as [entry|]; [|done].
    by destruct (Token.expiresAt entry <? now).
Qed.

Section TokenFacts.

Variable AUTH_TOKEN_TTL_MINUTES : Z.

(** X21. A token authenticates the user it was created for: from its
    creation up to [AUTH_TOKEN_TTL_MINUTES] later, [requireAuth] on
    "Bearer " and the token finds the user with the id the token was
    created for, whatever the store held before. *)
Theorem token_roundtrip (users : list User.t) (token : string) (now now' : Z)
    (userId : string) (tokenStore : Token.store) :
  now' <= now + AUTH_TOKEN_TTL_MINUTES * 60 * 1000 ->
  fst (requireAuth users now' ("Bearer " +:+ token)
         (createToken AUTH_TOKEN_TTL_MINUTES token now userId tokenStore))
  = find (fun u => String.eqb (User.id u) userId) users.
Proof.
  intros Hnow. unfold requireAuth, getUserForToken, createToken.
  destruct (bearer_prefix token) as [-> ->]. rewrite token_get_set_eq.
  cbn [Token.expiresAt Token.userId].
  by replace (now + AUTH_TOKEN_TTL_MINUTES * 60 * 1000 <? now') with false
    by (symmetry; lia).
Qed.

End TokenFacts.

Lemma token_roundtrip_witness :
  fst (requireAuth [Sample.bob] (Sample.T + 60000) "Bearer abc"
         (createToken 480 "abc" Sample.T "u-1" []))
  = Some Sample.bob.
Proof.
  exact (token_roundtrip 480 [Sample.bob] "abc" Sample.T (Sample.T + 60000) "u-1" []
           ltac:(lia)).
Defined.

(** X22. An expired token is rejected and removed by the request that
    presents it, so it is unknown from then on; the other tokens stay. *)
Theorem expired_token_is_removed (users : list User.t) (now : Z) (token : string)
    (entry : Token.entry) (tokenStore : Token.store) :
  NoDup (map fst tokenStore) ->
  Token.get token tokenStore = Some entry ->
  Token.expiresAt entry < now ->
  let result := requireAuth users now ("Bearer " +:+ token) tokenStore in
  fst result = None
  /\ Token.get token (snd result) = None
  /\ (forall other, other <> token ->
        Token.get other (snd result) = Token.get other tokenStore).
Proof.
  intros Hnd Hget Hexp result. unfold result, requireAuth, getUserForToken.
  destruct (bearer_prefix token) as [-> ->]. rewrite Hget.
  apply Z.ltb_lt in Hexp as ->. cbn [fst snd].
  split; [done|]. split; [by apply token_get_delete_eq|].
  intros other Hne. by apply token_get_delete_ne.
Qed.

Lemma expired_token_is_removed_witness :
  fst (requireAuth [Sample.bob] (Sample.T + 1) "Bearer abc"
         [("abc", Token.mk "u-1" Sample.T)])
  = None.
Proof.
  refine (proj1 (expired_token_is_removed [Sample.bob] (Sample.T + 1) "abc"
                   (Token.mk "u-1" Sample.T) [("abc", Token.mk "u-1" Sample.T)]
                   _ _ _)).
  - apply NoDup_singleton.
  - reflexivity.
  - cbn. lia.
Defined.

(** X23. [isUserOnline] answers whether the user holds a token that expires
    after now.  The tokens it removes are expired ones: every token that
    expires after now is still in the store afterwards, and nothing is
    added. *)
Theorem isUserOnline_spec (now : Z) (userId : string) (tokenStore : Token.store) :
  (fst (isUserOnline now userId tokenStore) = true
   <-> exists token entry,
         In (token, entry) tokenStore
         /\ Token.userId entry = userId
         /\ now < Token.expiresAt entry)
  /\ (forall token entry,
        In (token, entry) (snd (isUserOnline now userId tokenStore))
        -> In (token, entry) tokenStore)
  /\ (forall token entry,
        In (token, entry) tokenStore -> now < Token.expiresAt entry ->
        In (token, entry) (snd (isUserOnline now userId tokenStore))).
Proof.
  induction tokenStore as [|[k e] rest (IH1 & IH2 & IH3)].
  - cbn. split; [|tauto]. split; [done | intros (? & ? & [] & _)].
  - cbn [isUserOnline].
    destruct (Token.expiresAt e <=? now) eqn:Hexp.
    + apply Z.leb_le in Hexp. split; [|split].
      * rewrite IH1. split.
        -- intros (token & entry & Hin & Hu & Hlive). exists token, entry.
           split; [by right | done].
        -- intros (token & entry & [[= <- <-] | Hin] & Hu & Hlive); [lia|].
           by exists token, entry.
      * intros token entry Hin. right. by apply IH2.
      * intros token entry [[= <- <-] | Hin] Hlive; [lia|]. by apply IH3.
    + apply Z.leb_gt in Hexp.
      destruct (String.eqb_spec (Token.userId e) userId) as [Hu|Hu].
      * cbn [fst snd]. split; [|tauto]. split; [|done].
        intros _. exists k, e. split; [by left | done].
      * destruct (isUserOnline now userId rest) as [online rest'].
        cbn [fst snd] in *. split; [|split].
        -- rewrite IH1. split.
           ++ intros (token & entry & Hin & Hu' & Hlive). exists token, entry.
              split; [by right | done].
           ++ intros (token & entry & [[= <- <-] | Hin] & Hu' & Hlive); [done|].
              by exists token, entry.
        -- intros token entry [Heq | Hin]; [by left | right; by apply IH2].
        -- intros token entry [Heq | Hin] Hlive; [by left | right; by apply IH3].
Qed.

(** ** Base path and aggregation names *)

Lemma stripTrailingSlashes_end (s p : string) : stripTrailingSlashes s <> p +:+ "/".
Proof.
  revert p. induction s as [|c s IH]; intros p; cbn [stripTrailingSlashes].
  - destruct p; [rewrite str_app_nil_l | rewrite str_app_cons]; discriminate.
  - destruct (Ascii.eqb c "/" && Str.is_empty (stripTrailingSlashes s)) eqn:Hc.
    + destruct p; [rewrite str_app_nil_l | rewrite str_app_cons]; discriminate.
    + destruct p as [|c' p].
      * rewrite str_app_nil_l. intros [= -> Ht]. rewrite Ht in Hc. discriminate.
      * rewrite str_app_cons. intros [= -> Ht]. by apply IH in Ht.
Qed.

(** X24. A normalized base path can be put in front of a route: it is empty,
    or it starts with a slash, and it never ends with one. *)
Theorem normalizeBasePath_shape (value : string) :
  (normalizeBasePath value = EmptyString
   \/ exists rest, normalizeBasePath value = String "/" rest)
  /\ forall p, normalizeBasePath value <> p +:+ "/".
Proof.
  unfold normalizeBasePath.
  destruct (Str.is_empty (Str.trim value) || String.eqb (Str.trim value) "/").
  { split; [by left|]. intros p.
    destruct p; [rewrite str_app_nil_l | rewrite str_app_cons]; discriminate. }
  split; [|intros p; apply stripTrailingSlashes_end].
  assert (exists x,
            (if String.prefix "/" (Str.trim value) then Str.trim value
             else "/" +:+ Str.trim value) = String "/" x) as [x ->].
  { destruct (String.prefix "/" (Str.trim value)) eqn:Hp.
    - apply prefix_split in Hp. rewrite str_app_cons, str_app_nil_l in Hp.
      by eexists.
    - eexists. by rewrite str_app_cons, str_app_nil_l. }
  cbn [stripTrailingSlashes].
  destruct (Ascii.eqb "/" "/" && Str.is_empty (stripTrailingSlashes x));
    [by left | right; by eexists].
Qed.

Lemma is_word_char_sanitized (c : ascii) :
  is_word_char (if is_word_char c then c else "_"%char) = true.
Proof. by destruct (is_word_char c) eqn:Hc. Qed.

(** X25. An aggregation name is made of letters, digits and underscores
    only; it is as long as the field name it comes from, position by
    position the same character where that is a letter, a digit or an
    underscore; and sanitizing twice gives nothing new. *)
Theorem sanitizeAggName_safe (name : string) :
  String.length (sanitizeAggName name) = String.length name
  /\ forallb is_word_char (list_ascii_of_string (sanitizeAggName name)) = true
  /\ sanitizeAggName (sanitizeAggName name) = sanitizeAggName name
  /\ (sanitizeAggName name = name
      <-> forallb is_word_char (list_ascii_of_string name) = true).
Proof.
  induction name as [|c name (IH1 & IH2 & IH3 & IH4)]; [done|].
  cbn [sanitizeAggName String.length list_ascii_of_string forallb].
  rewrite IH1, IH2, IH3, is_word_char_sanitized.
  split; [done|]. split; [done|]. split.
  - reflexivity.
  - destruct (is_word_char c) eqn:Hc; cbn [andb].
    + rewrite <- IH4. split; [by intros [= ->] | by intros ->].
    + split; [intros [= <- _]; discriminate Hc | done].
Qed.

(** ** The export stream *)

Lemma streamsOnly_ret {A : Type} (a : A) : streamsOnly (Exec.ret a).
Proof. intros w. exists []. by rewrite app_nil_r. Qed.

Lemma streamsOnly_throw {A : Type} (message : string) :
  streamsOnly (@Exec.throw A message).
Proof. intros w. exists []. by rewrite app_nil_r. Qed.

Lemma streamsOnly_lift {A : Type} (o : Outcome A) : streamsOnly (Exec.lift o).
Proof. intros w. exists []. by rewrite app_nil_r. Qed.

Lemma streamsOnly_record (f : Metrics.t -> Metrics.t) : streamsOnly (Exec.record f).
Proof. intros w. exists []. by rewrite app_nil_r. Qed.

Lemma streamsOnly_emit (e : Event) : isResponse e = false -> streamsOnly (Exec.emit e).
Proof. intros He w. exists [e]. cbn. by rewrite He. Qed.

Lemma streamsOnly_bind {A B : Type} (m : Exec.t A) (k : A -> Exec.t B) :
  streamsOnly m -> (forall a, streamsOnly (k a)) -> streamsOnly (Exec.bind m k).
Proof.
  intros Hm Hk w. unfold Exec.bind. destruct (Hm w) as (n1 & H1 & P1).
  destruct (m w) as [w1 [a|message]]; cbn [fst] in H1.
  - destruct (Hk a w1) as (n2 & H2 & P2). exists (n1 ++ n2).
    rewrite H2, H1, app_assoc. split; [done|]. by rewrite existsb_app, P1, P2.
  - by exists n1.
Qed.

Lemma streamsOnly_tryCatch (body : Exec.t unit) (handler : string -> Exec.t unit) :
  streamsOnly body -> (forall message, streamsOnly (handler message)) ->
  streamsOnly (Exec.tryCatch body handler).
Proof.
  intros Hm Hk w. unfold Exec.tryCatch. destruct (Hm w) as (n1 & H1 & P1).
  destruct (body w) as [w1 [a|message]]; cbn [fst] in H1.
  - by exists n1.
  - destruct (Hk message w1) as (n2 & H2 & P2). exists (n1 ++ n2).
    rewrite H2, H1, app_assoc. split; [done|]. by rewrite existsb_app, P1, P2.
Qed.

Lemma keepsMetrics_ret {A : Type} (a : A) : keepsMetrics (Exec.ret a).
Proof. by intros w. Qed.

Lemma keepsMetrics_throw {A : Type} (message : string) :
  keepsMetrics (@Exec.throw A message).
Proof. by intros w. Qed.

Lemma keepsMetrics_lift {A : Type} (o : Outcome A) : keepsMetrics (Exec.lift o).
Proof. by intros w. Qed.

Lemma keepsMetrics_emit (e : Event) : keepsMetrics (Exec.emit e).
Proof. by intros w. Qed.

Lemma keepsMetrics_bind {A B : Type} (m : Exec.t A) (k : A -> Exec.t B) :
  keepsMetrics m -> (forall a, keepsMetrics (k a)) -> keepsMetrics (Exec.bind m k).
Proof.
  intros Hm Hk w. unfold Exec.bind. specialize (Hm w).
  destruct (m w) as [w1 [a|message]]; cbn [fst] in Hm; [|done].
  by rewrite Hk.
Qed.

Lemma failsClean_keeps {A : Type} (m : Exec.t A) : keepsMetrics m -> failsClean m.
Proof. intros Hm w w' message Hw. specialize (Hm w). by rewrite Hw in Hm. Qed.

Lemma failsClean_bind {A B : Type} (m : Exec.t A) (k : A -> Exec.t B) :
  keepsMetrics m -> (forall a, failsClean (k a)) -> failsClean (Exec.bind m k).
Proof.
  intros Hm Hk w w' message. unfold Exec.bind. specialize (Hm w).
  destruct (m w) as [w1 [a|message1]]; cbn [fst] in Hm.
  - intros Hw. apply Hk in Hw. congruence.
  - intros [= <- _]. done.
Qed.

(** [streams] and [keeps] take a computation apart along its binds and
    its case distinctions. *)
Ltac streams :=
  repeat first
    [ apply streamsOnly_ret | apply streamsOnly_throw | apply streamsOnly_lift
    | apply streamsOnly_record
    | apply streamsOnly_emit; reflexivity
    | apply streamsOnly_bind; [|intros ?]
    | match goal with
      | |- streamsOnly (match ?x with _ => _ end) => destruct x
      end ].

Ltac keeps :=
  repeat first
    [ apply keepsMetrics_ret | apply keepsMetrics_throw | apply keepsMetrics_lift
    | apply keepsMetrics_emit
    | apply keepsMetrics_bind; [|intros ?]
    | match goal with
      | |- keepsMetrics (match ?x with _ => _ end) => destruct x
      end ].

Lemma writeBatch_streams hits format : streamsOnly (writeBatch hits format).
Proof. unfold writeBatch. streams. Qed.

Lemma writeBatch_keeps hits format : keepsMetrics (writeBatch hits format).
Proof. unfold writeBatch. keeps. Qed.

Lemma scrollCall_streams scrollId page : streamsOnly (scrollCall scrollId page).
Proof. unfold scrollCall. streams. Qed.

Lemma scrollCall_keeps scrollId page : keepsMetrics (scrollCall scrollId page).
Proof. unfold scrollCall. keeps. Qed.

Lemma scrollLoop_streams srv req pages scrollId n totalExported :
  streamsOnly (scrollLoop srv req pages scrollId n totalExported).
Proof.
  revert scrollId n totalExported.
  induction pages as [|page rest IH]; intros scrollId n totalExported;
    cbn [scrollLoop]; destruct (_ && _); try apply streamsOnly_ret.
  - streams.
  - apply streamsOnly_bind; [apply scrollCall_streams|]. intros next.
    destruct (take _ _); [apply IH|].
    apply streamsOnly_bind; [apply writeBatch_streams|]. intros _. apply IH.
Qed.

Lemma scrollLoop_keeps srv req pages scrollId n totalExported :
  keepsMetrics (scrollLoop srv req pages scrollId n totalExported).
Proof.
  revert scrollId n totalExported.
  induction pages as [|page rest IH]; intros scrollId n totalExported;
    cbn [scrollLoop]; destruct (_ && _); try apply keepsMetrics_ret.
  - keeps.
  - apply keepsMetrics_bind; [apply scrollCall_keeps|]. intros next.
    destruct (take _ _); [apply IH|].
    apply keepsMetrics_bind; [apply writeBatch_keeps|]. intros _. apply IH.
Qed.

(** The same steps, with the batches and the scroll loop. *)
Ltac stream_body :=
  repeat first
    [ apply writeBatch_streams | apply scrollLoop_streams
    | apply streamsOnly_ret | apply streamsOnly_throw | apply streamsOnly_lift
    | apply streamsOnly_record
    | apply streamsOnly_emit; reflexivity
    | apply streamsOnly_bind; [|intros ?]
    | match goal with
      | |- streamsOnly (match ?x with _ => _ end) => destruct x
      end ].

Lemma exportStream_streams srv req t0 t1 initial pages :
  streamsOnly (exportStream srv req t0 t1 initial pages).
Proof. unfold exportStream. stream_body. Qed.

Lemma bind_emit_trace {B : Type} (e : Event) (k : Exec.t B) (w : Exec.World) :
  streamsOnly k ->
  exists more,
    Exec.trace (fst (Exec.bind (Exec.emit e) (fun _ => k) w))
    = Exec.trace w ++ e :: more.
Proof.
  intros Hk. unfold Exec.bind, Exec.emit.
  destruct (Hk (Exec.mkWorld (Exec.trace w ++ [e]) (Exec.metrics w)))
    as (more & Hmore & _).
  exists more. rewrite Hmore. cbn [Exec.trace]. by rewrite <- app_assoc.
Qed.

Lemma exportStream_starts srv req t0 t1 initial pages w :
  exists more,
    Exec.trace (fst (exportStream srv req t0 t1 initial pages w))
    = Exec.trace w ++ SetHeader "Content-Type" "application/gzip" :: more.
Proof. unfold exportStream. apply bind_emit_trace. stream_body. Qed.

Lemma exportStream_failsClean srv req t0 t1 initial pages :
  failsClean (exportStream srv req t0 t1 initial pages).
Proof.
  unfold exportStream.
  do 4 (apply failsClean_bind; [apply keepsMetrics_emit|]; intros _).
  destruct initial as [scrollId first|message];
    [|apply failsClean_keeps, keepsMetrics_throw].
  destruct (exportMask srv req first) as [|hit0 hits].
  - do 2 (apply failsClean_bind; [apply keepsMetrics_emit|]; intros _).
    by intros w w' message.
  - apply failsClean_bind; [keeps|]. intros _.
    apply failsClean_bind; [apply writeBatch_keeps|]. intros _.
    apply failsClean_bind; [apply scrollLoop_keeps|]. intros scrollId'.
    apply failsClean_bind; [apply keepsMetrics_emit|]. intros _.
    by intros w w' message.
Qed.

Lemma bind_returned {A B : Type} (m : Exec.t A) (k : A -> Exec.t B) w w' b :
  Exec.bind m k w = (w', Returned b) ->
  exists a w1, m w = (w1, Returned a) /\ k a w1 = (w', Returned b).
Proof.
  unfold Exec.bind. destruct (m w) as [w1 [a|message]]; [|done]. eauto.
Qed.

Lemma exportStream_ends srv req t0 t1 initial pages w w' :
  exportStream srv req t0 t1 initial pages w = (w', Returned tt) ->
  last (Exec.trace w') = Some GzipEnd.
Proof.
  unfold exportStream. intros H.
  do 4 (apply bind_returned in H as (_ & ? & _ & H)).
  destruct initial as [scrollId first|message]; [|done].
  destruct (exportMask srv req first) as [|hit0 hits].
  - injection H as <-. cbn [Exec.trace]. apply last_snoc.
  - do 5 (apply bind_returned in H as (? & ? & _ & H)).
    injection H as <-. cbn [Exec.trace]. apply last_snoc.
Qed.

Section ExportFacts.

Variable srv : Server.t.
Variable req : ExportReq.t.
Variables t0 t1 : Z.

(** X26. An export request never throws out of its handler, and ends in one
    of two ways: with a single error response, the metrics untouched; or
    with output that holds no response at all and whose last event is
    the end of a gzip stream, also when the search engine or the writer
    fails halfway. *)
Theorem export_ends_its_output (initial : Page) (pages : list Page) (w : Exec.World) :
  let result := exportHandler srv req t0 t1 initial pages w in
  snd result = Returned tt
  /\ exists new,
       Exec.trace (fst result) = Exec.trace w ++ new
       /\ ((exists status body,
              new = [Respond status body]
              /\ Exec.metrics (fst result) = Exec.metrics w)
           \/ (existsb isResponse new = false /\ last new = Some GzipEnd)).
Proof.
  intros result. unfold result, exportHandler.
  assert (forall status error,
            let r := Exec.emit (Respond status (JObj [("error", JStr error)])) w in
            snd r = Returned tt
            /\ exists new,
                 Exec.trace (fst r) = Exec.trace w ++ new
                 /\ ((exists status body,
                        new = [Respond status body]
                        /\ Exec.metrics (fst r) = Exec.metrics w)
                     \/ (existsb isResponse new = false /\ last new = Some GzipEnd)))
    as Hrespond.
  { intros status error. cbn. split; [done|]. eexists. split; [done|]. left. eauto. }
  destruct (_ && negb (bool_decide _)); [apply Hrespond|].
  destruct (_ && negb (Features.exports _)); [apply Hrespond|].
  destruct (_ && negb (isIndexPatternAllowed _ _ _)); [apply Hrespond|].
  destruct (_ <? _); [apply Hrespond|]. clear Hrespond.
  unfold Exec.tryCatch.
  destruct (exportStream_streams srv req t0 t1 initial pages w) as (n1 & H1 & Hq1).
  destruct (exportStream_starts srv req t0 t1 initial pages w) as (more & Hmore).
  destruct (exportStream srv req t0 t1 initial pages w) as [w1 [[]|message]] eqn:Hbody;
    cbn [fst snd] in *.
  - split; [done|]. exists n1. split; [done|]. right. split; [done|].
    apply exportStream_ends in Hbody. rewrite H1 in Hmore.
    apply app_inv_head in Hmore. subst n1. rewrite H1, last_app in Hbody.
    destruct (last (_ :: more)) eqn:Hlast; [done|].
    apply last_None in Hlast. discriminate Hlast.
  - cbn. split; [done|]. eexists (n1 ++ [_; _; _; _]). rewrite H1.
    split; [by rewrite <- !app_assoc|]. right. split.
    + rewrite existsb_app, Hq1. done.
    + by rewrite last_app.
Qed.

(** X27. An export that fails is not recorded: when the stream throws, for
    a failing search engine or a hit that cannot be written, the metrics
    are what they were, and the output goes on with the error message
    as a new gzip stream that is written and ended. *)
Theorem failed_export_not_recorded (initial : Page) (pages : list Page)
    (w w' : Exec.World) (message : string) :
  exportAdmitted srv req = true ->
  exportSize srv req <= AppConfig.maxExportSize (Server.appConfig srv) ->
  exportStream srv req t0 t1 initial pages w = (w', Thrown message) ->
  let result := exportHandler srv req t0 t1 initial pages w in
  Exec.metrics (fst result) = Exec.metrics w
  /\ Exec.trace (fst result)
     = Exec.trace w'
       ++ [ConsoleError "Export error:" (JStr message);
           GzipPipe;
           GzipWrite
             (Json.stringify (JObj [("error", JStr ("Export failed: " +:+ message))]));
           GzipEnd].
Proof.
  intros Hadm Hsize Hbody result. unfold result, exportHandler.
  unfold exportAdmitted, exportSize in *.
  destruct (authEnabled (Server.users srv)); cbn [andb negb orb] in *.
  - apply andb_true_iff in Hadm as [Hadm Hidx].
    apply andb_true_iff in Hadm as [Huser Hexp].
    rewrite Huser, Hexp, Hidx. cbn [negb].
    replace (_ <? _) with false by (symmetry; lia).
    unfold Exec.tryCatch. rewrite Hbody. cbn.
    split; [by apply exportStream_failsClean in Hbody|].
    by rewrite <- !app_assoc.
  - replace (_ <? _) with false by (symmetry; lia).
    unfold Exec.tryCatch. rewrite Hbody. cbn.
    split; [by apply exportStream_failsClean in Hbody|].
    by rewrite <- !app_assoc.
Qed.

(** X28. An export that finds nothing is still an export.  The handler
    sets the two headers, pipes the gzip stream, makes the scroll
    search, writes the "No logs found" placeholder, a CSV header line
    and row for the format csv and a JSON line otherwise, and ends the
    stream; these six events are all it does.  The export is recorded
    in the metrics, and the scroll cursor opened by the search is
    neither read further nor released. *)
Theorem empty_export_is_recorded (scrollId : string) (pages : list Page)
    (w : Exec.World) :
  exportAdmitted srv req = true ->
  exportSize srv req <= AppConfig.maxExportSize (Server.appConfig srv) ->
  let result := exportHandler srv req t0 t1 (PageOk scrollId []) pages w in
  let indexPattern :=
    default (AppConfig.defaultIndexPattern (Server.appConfig srv))
      (ExportReq.indexPattern req) in
  let new :=
    [SetHeader "Content-Type" "application/gzip";
     SetHeader "Content-Disposition"
       ("attachment; filename=" +:+ Json.dquote +:+
        ("logs-" +:+ getTodayKey t0 +:+ "." +:+ ExportReq.format req +:+ ".gz")
        +:+ Json.dquote);
     GzipPipe;
     OpenSearchSearch indexPattern true
       (JObj [("query", exportEffectiveQuery srv req t0);
              ("size", JNum (Z.min 1000 (exportSize srv req)));
              ("sort", exportSort)]);
     GzipWrite
       (if String.eqb (ExportReq.format req) "csv"
        then Json.dquote +:+ "message" +:+ Json.dquote +:+ newline +:+
             Json.dquote +:+ "No logs found" +:+ Json.dquote +:+ newline
        else "{" +:+ Json.dquote +:+ "message" +:+ Json.dquote +:+ ":" +:+
             Json.dquote +:+ "No logs found" +:+ Json.dquote +:+ "}" +:+ newline);
     GzipEnd] in
  snd result = Returned tt
  /\ Exec.metrics (fst result)
     = recordExport t1 (ExportReq.format req) (ExportReq.ip req) indexPattern
         (exportSize srv req)
         (match ExportReq.query req with
          | Some q => extractQueryString q
          | None => EmptyString
          end)
         (match ExportReq.user req with
          | Some u => or_else (User.username u) "public"
          | None => "public"
          end)
         (Exec.metrics w)
  /\ Exec.trace (fst result) = Exec.trace w ++ new
  /\ existsb isCursorCall new = false.
Proof.
  intros Hadm Hsize result indexPattern new.
  assert (exportMask srv req [] = []) as Hmask.
  { unfold exportMask. by destruct (Features.piiUnmasked _). }
  assert (Json.stringify (JObj [("message", JStr "No logs found")]) +:+ newline
          = "{" +:+ Json.dquote +:+ "message" +:+ Json.dquote +:+ ":" +:+
            Json.dquote +:+ "No logs found" +:+ Json.dquote +:+ "}" +:+ newline)
    as Hjson by by vm_compute.
  split; [|split; [|split; [|by destruct (String.eqb _ _)]]];
    unfold result, new, indexPattern, exportHandler;
    unfold exportAdmitted, exportSize in *;
    (destruct (authEnabled (Server.users srv)); cbn [andb negb orb] in *;
     [apply andb_true_iff in Hadm as [Hadm Hidx];
      apply andb_true_iff in Hadm as [Huser Hexp];
      rewrite Huser, Hexp, Hidx; cbn [negb] |]);
    replace (_ <? _) with false by (symmetry; lia);
    unfold Exec.tryCatch, exportStream; rewrite Hmask, Hjson;
    cbn [Exec.bind Exec.emit Exec.record exportRecord Exec.trace Exec.metrics fst snd];
    try done; by rewrite <- !app_assoc.
Qed.

End ExportFacts.

Lemma failed_export_not_recorded_witness :
  Exec.metrics
    (fst (exportHandler Sample.open
            (ExportReq.mk None "10.0.0.7" "json" None None (Some 10))
            Sample.T Sample.T (PageError "timeout") [] Sample.world))
  = Exec.metrics Sample.world.
Proof.
  refine (proj1 (failed_export_not_recorded Sample.open
                   (ExportReq.mk None "10.0.0.7" "json" None None (Some 10))
                   Sample.T Sample.T (PageError "timeout") [] Sample.world
                   _ "timeout" _ _ _)).
  - reflexivity.
  - by vm_compute.
  - reflexivity.
Defined.

Lemma empty_export_is_recorded_witness :
  Exec.trace
    (fst (exportHandler Sample.open
            (ExportReq.mk None "10.0.0.7" "csv" None None (Some 10))
            Sample.T Sample.T (PageOk "c1" []) [] Sample.world))
  = [SetHeader "Content-Type" "application/gzip";
     SetHeader "Content-Disposition"
       ("attachment; filename=" +:+ Json.dquote +:+ "logs-2026-11-03.csv.gz"
        +:+ Json.dquote);
     GzipPipe;
     OpenSearchSearch "vector-*" true
       (JObj [("query", JObj [("match_all", JObj [])]);
              ("size", JNum 10);
              ("sort", exportSort)]);
     GzipWrite
       (Json.dquote +:+ "message" +:+ Json.dquote +:+ newline +:+
        Json.dquote +:+ "No logs found" +:+ Json.dquote +:+ newline);
     GzipEnd].
Proof.
  refine (proj1 (proj2 (proj2 (empty_export_is_recorded Sample.open
                   (ExportReq.mk None "10.0.0.7" "csv" None None (Some 10))
                   Sample.T Sample.T "c1" [] Sample.world _ _)))).
  - reflexivity.
  - by vm_compute.
Defined.

(** ** CSV cells *)

Lemma readQuoted_doubleQuotes (s tail : string) :
  Str.take 1 tail <> Json.dquote ->
  readQuoted (doubleQuotes s +:+ Json.dquote +:+ tail) = Some (s, tail).
Proof.
  intros Htail. induction s as [|c s IH].
  - cbn [doubleQuotes]. rewrite str_app_nil_l. unfold Json.dquote.
    rewrite str_app_cons, str_app_nil_l. cbn [readQuoted].
    rewrite Ascii.eqb_refl. destruct tail as [|c' tail']; [done|].
    destruct (Ascii.eqb_spec c' Json.dquote_char) as [->|]; [|done].
    by destruct Htail.
  - cbn [doubleQuotes]. destruct (Ascii.eqb_spec c Json.dquote_char) as [->|Hc].
    + rewrite !str_app_cons. cbn [readQuoted]. rewrite Ascii.eqb_refl.
      by rewrite IH.
    + rewrite str_app_cons. cbn [readQuoted].
      destruct (Ascii.eqb_spec c Json.dquote_char); [done|]. by rewrite IH.
Qed.

(** X29. A CSV cell reads back.  The cell written for a member that is set
    is the text of its value between quotes, every quote of the text
    doubled: a CSV reader started after the opening quote gets the text
    of the value back and stops right behind the cell, whatever quotes,
    commas or line breaks the text holds. *)
Theorem csv_cell_reads_back (src : json) (h : string) (val : json) (tail : string) :
  src <> JNull ->
  Json.prop h src = Some val ->
  val <> JNull ->
  Str.take 1 tail <> Json.dquote ->
  exists body,
    csvCell (Some src) h = Returned (Json.dquote +:+ body)
    /\ readQuoted (body +:+ tail) = Some (Json.toString val, tail).
Proof.
  intros Hsrc Hprop Hval Htail.
  exists (doubleQuotes (Json.toString val) +:+ Json.dquote). split.
  - unfold csvCell. destruct src; try done; rewrite Hprop; by destruct val.
  - rewrite str_app_assoc. by apply readQuoted_doubleQuotes.
Qed.

Lemma csv_cell_reads_back_witness :
  exists body,
    csvCell (Some (JObj [("msg", JStr "a,b")])) "msg" = Returned (Json.dquote +:+ body)
    /\ readQuoted (body +:+ ",x") = Some ("a,b", ",x").
Proof.
  refine (csv_cell_reads_back (JObj [("msg", JStr "a,b")]) "msg" (JStr "a,b") ",x"
            _ _ _ _); done.
Defined.

(** ** The query that is recorded *)

Lemma extractQueryString_items items :
  extractQueryString (JArr items) = firstQueryIn items.
Proof.
  cbn [extractQueryString]. induction items as [|val rest IH]; [done|].
  cbn [firstQueryIn]. by rewrite IH.
Qed.

Lemma extractQueryString_entries entries :
  extractQueryString (JObj entries)
  = match queryStringOf entries with
    | Some s => s
    | None => firstQueryIn (map snd entries)
    end.
Proof.
  cbn [extractQueryString]. destruct (queryStringOf entries); [done|].
  induction entries as [|[k val] rest IH]; [done|].
  cbn [firstQueryIn map snd]. by rewrite IH.
Qed.

Lemma firstQueryIn_found vals :
  Forall (fun v => extractQueryString v <> EmptyString ->
                   holdsQuery (extractQueryString v) v) vals ->
  firstQueryIn vals <> EmptyString ->
  exists v, In v vals /\ holdsQuery (firstQueryIn vals) v.
Proof.
  induction 1 as [|val rest Hval _ IH]; cbn [firstQueryIn]; [done|].
  assert (firstQueryIn rest <> EmptyString ->
          exists v, In v (val :: rest) /\ holdsQuery (firstQueryIn rest) v) as Hrest.
  { intros Hne. destruct (IH Hne) as (v & Hin & Hv). exists v. split; [by right|done]. }
  destruct (Json.truthy val && Json.typeof_object val); [|done].
  destruct (Str.is_empty (extractQueryString val)) eqn:He; [done|].
  intros Hne. exists val. split; [by left | by apply Hval].
Qed.

(** X30. The query a search or an export is recorded under is read from the
    request: [extractQueryString] gives the [query] of a [query_string]
    of the body, found at the top or inside a member at any depth, or
    nothing.  When the body has such a [query_string] at its top, that
    one is taken, empty or not. *)
Theorem extractQueryString_sound (body : json) :
  (extractQueryString body <> EmptyString ->
   holdsQuery (extractQueryString body) body)
  /\ (forall entries s,
        body = JObj entries -> queryStringOf entries = Some s ->
        extractQueryString body = s).
Proof.
  split.
  - induction body as [| | | |items IH|entries IH] using json_ind; try done.
    + rewrite extractQueryString_items. intros Hne.
      destruct (firstQueryIn_found items IH Hne) as (v & Hin & Hv).
      by eapply holds_item.
    + rewrite extractQueryString_entries.
      destruct (queryStringOf entries) as [s|] eqn:Hq; [intros _; by apply holds_here|].
      intros Hne.
      destruct (firstQueryIn_found (map snd entries)) as (v & Hin & Hv); [|done|].
      { by apply Forall_map. }
      apply in_map_iff in Hin as ([k v'] & <- & Hin). by eapply holds_member.
  - intros entries s -> Hq. by rewrite extractQueryString_entries, Hq.
Qed.

Lemma extractQueryString_sound_witness :
  holdsQuery "error"
    (JObj [("query", JObj [("query_string", JObj [("query", JStr "error")])])]).
Proof.
  refine (proj1 (extractQueryString_sound
                   (JObj [("query",
                           JObj [("query_string", JObj [("query", JStr "error")])])]))
            _).
  by vm_compute.
Defined.
